(** * pycosio: stream base, storage manager and Azure block blobs

    A shallow embedding of
    - [pycosio/_core/io_base.py]          (module [io_base]),
    - [pycosio/_core/storage_manager.py]  (module [storage_manager]),
    - [pycosio/storage/azure_blob/_base_blob.py]  (module [azure_base_blob]),
    - [pycosio/storage/azure_blob/_block_blob.py] (module [azure_block_blob]),
    followed by the properties proved about them. The modules
    [storage_manager_shared] and [azure_new_blob] model [get_instance] for
    the stream classes and [_new_blob], which write into the dictionaries of
    parameters: there a dictionary is an object of a store.

    Python objects are records, dictionaries are finite maps ([gmap]) or,
    where the order of the keys matters ([OrderedDict]), association lists;
    an exception is the left summand of a result. *)

From Stdlib Require Import String Ascii List ZArith Lia Bool.
From stdpp Require Import base option list gmap strings sorting.

Local Open Scope string_scope.
Local Open Scope list_scope.

(** ** Python values shared by the modules *)

(** The exceptions raised by the modelled code, one constructor per Python
    class, carrying what the handlers of the code look at. *)
Inductive exception :=
  | ValueError (msg : string)
  | UnsupportedOperation (msg : string)
  | ImportError (module_name : string)
  | AzureHttpError (status_code : Z)
  | ObjectNotFoundError
  | OtherError (msg : string).

#[global] Instance exception_eq_dec : EqDecision exception.
Proof. solve_decision. Defined.

(** The result of a call: an exception raised, or a value returned. *)
Abbreviation result A := (exception + A)%type.
Definition raise {A : Type} (e : exception) : result A := inl e.
Definition ret {A : Type} (a : A) : result A := inr a.

(** Leaf values held by configuration dictionaries and by the cache of a
    stream: strings, integers and [None]. On these Python's [==] is
    structural equality. *)
Inductive atom :=
  | ANone
  | AStr (s : string)
  | AInt (z : Z).

#[global] Instance atom_eq_dec : EqDecision atom.
Proof. solve_decision. Defined.

(** [c in s] for a one-character string [c]. *)
Fixpoint contains_char (c : ascii) (s : string) : bool :=
  match s with
  | EmptyString => false
  | String c' s' => if Ascii.eqb c c' then true else contains_char c s'
  end.

(** ** pycosio/_core/io_base.py *)
Module io_base.

(** [ObjectIOBase]: the attributes set by [__init__]. The stream position
    lock is not modelled (one thread of control). *)
Record ObjectIOBase := {
  _name : string;
  _mode : string;
  _cache : gmap string atom;
  _seek : Z;
  _writable : bool;
  _readable : bool;
  _seekable : bool
}.

(** ['Invalid mode "%s"' % mode] *)
Definition invalid_mode_message (mode : string) : string :=
  "Invalid mode " +:+ String "034"%char (mode +:+ String "034"%char "").

(** [ObjectIOBase.__init__(self, name, mode='r')] *)
Definition __init__ (name mode : string) : result ObjectIOBase :=
  if contains_char "w" mode || contains_char "a" mode then
    ret {| _name := name; _mode := mode; _cache := ∅; _seek := 0;
           _writable := true; _readable := false; _seekable := true |}
  else if contains_char "r" mode then
    ret {| _name := name; _mode := mode; _cache := ∅; _seek := 0;
           _writable := false; _readable := true; _seekable := true |}
  else raise (ValueError (invalid_mode_message mode)).

Definition mode (self : ObjectIOBase) : string := _mode self.
Definition name (self : ObjectIOBase) : string := _name self.
Definition readable (self : ObjectIOBase) : bool := _readable self.
Definition seekable (self : ObjectIOBase) : bool := _seekable self.
Definition writable (self : ObjectIOBase) : bool := _writable self.

(** [ObjectIOBase.tell] *)
Definition tell (self : ObjectIOBase) : result Z :=
  if negb (_seekable self) then raise (UnsupportedOperation "tell")
  else ret (_seek self).

(** A method of a stream: it receives the instance and its arguments and
    either raises or returns, possibly after changing the instance. *)
Definition method : Type :=
  ObjectIOBase → list atom → result atom * ObjectIOBase.

(** What running a call touches: the instance, and the log of the
    underlying (undecorated) methods that were really invoked, by name. *)
Record world := {
  self : ObjectIOBase;
  invoked : list string
}.

Definition set_cache (o : ObjectIOBase) (c : gmap string atom) : ObjectIOBase :=
  {| _name := _name o; _mode := _mode o; _cache := c; _seek := _seek o;
     _writable := _writable o; _readable := _readable o;
     _seekable := _seekable o |}.

(** [ObjectIOBase._memoize(method)]: the patched method. [method_name] is
    [method.__name__]. The [try] reads the cache; on [KeyError] the method
    runs, and its result is stored only when it returns. *)
Definition _memoize (method_name : string) (m : method)
    (args : list atom) (w : world) : result atom * world :=
  match _cache (self w) !! method_name with
  | Some cached => (ret cached, w)
  | None =>
      let '(r, o) := m (self w) args in
      let log := invoked w ++ [method_name] in
      match r with
      | inl e => (raise e, {| self := o; invoked := log |})
      | inr v =>
          (ret v, {| self := set_cache o (<[method_name := v]> (_cache o));
                     invoked := log |})
      end
  end.

(** A sequence of calls of one patched method on the same instance, with
    the arguments of each call; the results are collected in order. *)
Fixpoint call_each (patched : list atom → world → result atom * world)
    (calls : list (list atom)) (w : world) : list (result atom) * world :=
  match calls with
  | [] => ([], w)
  | args :: calls' =>
      let '(r, w') := patched args w in
      let '(rs, w'') := call_each patched calls' w' in
      (r :: rs, w'')
  end.

(** Number of times the method called [method_name] really ran. *)
Definition run_count (method_name : string) (w : world) : nat :=
  length (filter (λ n, n = method_name) (invoked w)).

(** *** What a mode gives *)

(** The capabilities reported by a stream opened with [mode]. *)
Definition mode_readable (mode : string) : bool :=
  negb (contains_char "w" mode || contains_char "a" mode)
  && contains_char "r" mode.

Definition mode_writable (mode : string) : bool :=
  contains_char "w" mode || contains_char "a" mode.

Definition mode_accepted (mode : string) : bool :=
  contains_char "r" mode || contains_char "w" mode || contains_char "a" mode.

End io_base.



(** ** pycosio/_core/storage_manager.py *)
Module storage_manager.

(** A key of [MOUNTED]: a [str] root, or a compiled regular expression
    ([re.Pattern]) known by its source text [pattern]. *)
Inductive root :=
  | Str (s : string)
  | Pattern (pattern : string).

#[global] Instance root_eq_dec : EqDecision root.
Proof. solve_decision. Defined.

(** The values of the system keyword arguments: [None], the [unsecure] flag,
    or the [storage_parameters] dictionary. *)
Inductive pyvalue :=
  | PyNone
  | PyBool (b : bool)
  | PyDict (d : gmap string atom).

#[global] Instance pyvalue_eq_dec : EqDecision pyvalue.
Proof. solve_decision. Defined.

(** A dictionary of keyword arguments. *)
Abbreviation dict := (gmap string pyvalue).

(** A system object, as the manager sees it: the class it was built from (the
    storage module that defines it), the keyword arguments its constructor
    received, and its [roots] attribute. *)
Record SystemBase := {
  sys_class : string;
  sys_roots_kwarg : option (list root);
  sys_kwargs : dict;
  sys_roots : list root
}.

(** The dictionary [storage_info] built by [mount]. [system] stands for the
    classes found in the storage module, [system_cached] is the address of
    the cached system object in the heap. *)
Record storage_info := {
  system_parameters : dict;
  system : string;
  system_cached : nat;
  roots : list root
}.

(** The module state: the [MOUNTED] ordered dictionary and the heap of system
    objects, an object being identified by its address (its index). *)
Record state := {
  MOUNTED : list (root * storage_info);
  heap : list SystemBase
}.

(** *** Strings *)

(** [name.split('://', 1)[0]] when ['://' in name], [None] when it is not. *)
Fixpoint split_scheme (name : string) : option string :=
  if String.prefix "://" name then Some ""
  else match name with
       | EmptyString => None
       | String c name' => String c <$> split_scheme name'
       end.

(** [str.lower] on ASCII text: 'A'..'Z' become 'a'..'z', the other
    characters stay. On a string with other characters Python's [str.lower]
    follows Unicode, which is not modelled: [is_ascii] below tells the
    strings on which [lower] is [str.lower]. *)
Definition lower_char (c : ascii) : ascii :=
  let n := nat_of_ascii c in
  if (65 <=? n)%nat && (n <=? 90)%nat then ascii_of_nat (n + 32) else c.

Fixpoint lower (s : string) : string :=
  match s with
  | EmptyString => EmptyString
  | String c s' => String (lower_char c) (lower s')
  end.

(** [s.isascii()]: every character of [s] is below 128. *)
Fixpoint is_ascii (s : string) : bool :=
  match s with
  | EmptyString => true
  | String c s' => (nat_of_ascii c <? 128)%nat && is_ascii s'
  end.

(** *** Ordered dictionaries *)

(** [d[key]] *)
Definition getitem {V : Type} (key : root) (d : list (root * V)) : option V :=
  snd <$> List.find (λ kv, bool_decide (kv.1 = key)) d.

(** [d[key] = value]: a key already there keeps its place. *)
Fixpoint setitem {V : Type} (key : root) (value : V) (d : list (root * V))
    : list (root * V) :=
  match d with
  | [] => [(key, value)]
  | (k, v) :: d' =>
      if decide (k = key) then (k, value) :: d'
      else (k, v) :: setitem key value d'
  end.

(** [sorted(l, key=key)] on strings: a stable sort, ascending. *)
Fixpoint insert_sorted {A : Type} (key : A → string) (x : A) (l : list A)
    : list A :=
  match l with
  | [] => [x]
  | y :: l' =>
      if String.leb (key x) (key y) then x :: y :: l'
      else y :: insert_sorted key x l'
  end.

Definition sorted {A : Type} (key : A → string) (l : list A) : list A :=
  foldr (insert_sorted key) [] l.

(** [x] comes no later than [y] in ascending order of the keys. *)
Definition key_le {A : Type} (key : A → string) (x y : A) : Prop :=
  String.le (key x) (key y).

(** [_compare_root(root)] *)
Definition _compare_root (r : root) : string :=
  match r with
  | Pattern pattern => pattern
  | Str s => s
  end.

(** The reordering at the end of [mount]:
    [OrderedDict((key, MOUNTED[key]) for key in
       reversed(sorted(MOUNTED, key=_compare_root)))]. *)
Definition reorder {V : Type} (d : list (root * V)) : list (root * V) :=
  omap (λ key, pair key <$> getitem key d)
       (reverse (sorted _compare_root (d.*1))).

(** The order [mount] leaves the keys of [MOUNTED] in: descending text. *)
Definition descending {V : Type} (mounted : list (root * V)) : Prop :=
  StronglySorted (flip (key_le _compare_root)) (mounted.*1).

(** *** Keyword arguments *)

(** [_system_parameters] applied to its keyword arguments [kwargs]. *)
Definition _system_parameters (kwargs : dict) : dict :=
  filter (λ kv, kv.2 ≠ PyNone ∨ kv.2 = PyDict ∅) kwargs.

(** The value bound to a parameter declared [key=None] when the function is
    called with the keyword arguments [kwargs]. *)
Definition kwarg (kwargs : dict) (key : string) : pyvalue :=
  default PyNone (kwargs !! key).

(** A call of [f] that unpacks the dictionary [kwargs] as keyword arguments,
    for a function whose keyword parameters are [storage_parameters=None] and
    [unsecure=None]. *)
Definition keyword_call {R : Type} (f : pyvalue → pyvalue → R)
    (kwargs : dict) : R :=
  f (kwarg kwargs "storage_parameters") (kwarg kwargs "unsecure").

(** [bool(extra_root)] *)
Definition truthy (extra_root : option root) : bool :=
  match extra_root with
  | None => false
  | Some (Str s) => negb (String.eqb s "")
  | Some (Pattern _) => true
  end.

Section manager.

(** What lies outside the module: regular expressions
    ([re_match pattern name] is [bool(re.compile(pattern).match(name))]), the
    storage modules that [import_module] finds, and the [roots] attribute of a
    system object of a storage class right after its construction with the
    given [roots] keyword and system parameters. *)
Variable re_match : string → string → bool.
Variable has_module : string → bool.
Variable new_system_roots :
  string → option (list root) → dict → list root.

(** The test of the lookup loop of [get_instance]. *)
Definition applies (name : string) (r : root) : bool :=
  match r with
  | Pattern pattern => re_match pattern name
  | Str s => String.prefix s name
  end.

(** The [for root in MOUNTED] loop: the first entry whose root applies. *)
Definition lookup (name : string) (mounted : list (root * storage_info))
    : option (root * storage_info) :=
  List.find (λ kv, applies name kv.1) mounted.

(** The storage name [mount] works with. *)
Definition infer_storage (storage : option string) (name : string)
    : result string :=
  match storage with
  | Some storage => ret storage
  | None =>
      match split_scheme name with
      | Some scheme =>
          let storage := lower scheme in
          ret (if String.eqb storage "https" then "http" else storage)
      | None =>
          raise (ValueError
            "No storage specified and unable to infer it from file name.")
      end
  end.

(** [mount(storage, name, storage_parameters, unsecure, extra_root)]. The
    module imported is taken to define a system class and the constructor of
    that class is taken not to raise: of the errors of [mount], the
    [ValueError] of the inference and the [ImportError] of the import are
    the modelled ones. The [ImportError] carries the name given to
    [import_module]; for a storage name with a dot Python reports the first
    package of that name that is missing. *)
Definition mount (storage : option string) (name : string)
    (extra_root : option root) (storage_parameters unsecure : pyvalue)
    (st : state) : result storage_info * state :=
  match infer_storage storage name with
  | inl e => (raise e, st)
  | inr storage =>
      let system_parameters :=
        _system_parameters
          (<["unsecure" := unsecure]>
             (<["storage_parameters" := storage_parameters]> ∅)) in
      if negb (has_module storage) then
        (raise (ImportError ("pycosio.storage." +:+ storage)), st)
      else
        let address := length (heap st) in
        let roots0 := new_system_roots storage None system_parameters in
        let roots :=
          if truthy extra_root then roots0 ++ option_list extra_root
          else roots0 in
        let cached :=
          {| sys_class := storage; sys_roots_kwarg := None;
             sys_kwargs := system_parameters; sys_roots := roots |} in
        let storage_info :=
          {| system_parameters := system_parameters; system := storage;
             system_cached := address; roots := roots |} in
        let mounted :=
          foldl (λ d root, setitem root storage_info d) (MOUNTED st) roots in
        (ret storage_info,
         {| MOUNTED := reorder mounted; heap := heap st ++ [cached] |})
  end.

(** [system_parameters.update({key: value for key, value in
      stored_parameters.items() if key not in system_parameters})] *)
Definition update_missing (system_parameters stored_parameters : dict) : dict :=
  filter (λ kv, system_parameters !! kv.1 = None) stored_parameters
  ∪ system_parameters.

(** [info.get('system_parameters') or dict()] *)
Definition get_system_parameters (info : storage_info) : dict :=
  system_parameters info.

(** [get_instance(name, cls='system', storage, storage_parameters, unsecure)]
    with [cls] left at its default: the value returned is the address of a
    system object. The branches for the 'raw' and 'buffered' classes (they
    build stream objects) are not part of this development. *)
Definition get_instance (name : string) (storage : option string)
    (storage_parameters unsecure : pyvalue) (st : state)
    : result nat * state :=
  let system_parameters :=
    _system_parameters
      (<["unsecure" := unsecure]>
         (<["storage_parameters" := storage_parameters]> ∅)) in
  match lookup name (MOUNTED st) with
  | Some (_, info) =>
      let stored_parameters := get_system_parameters info in
      if decide (system_parameters = ∅) then
        (ret (system_cached info), st)
      else if decide (system_parameters = stored_parameters) then
        (ret (system_cached info), st)
      else
        let merged := update_missing system_parameters stored_parameters in
        let fresh :=
          {| sys_class := system info; sys_roots_kwarg := Some (roots info);
             sys_kwargs := merged;
             sys_roots := new_system_roots (system info) (Some (roots info))
                            merged |} in
        (ret (length (heap st)),
         {| MOUNTED := MOUNTED st; heap := heap st ++ [fresh] |})
  | None =>
      match keyword_call (mount storage name None) system_parameters st with
      | (inl e, st') => (raise e, st')
      | (inr info, st') => (ret (system_cached info), st')
      end
  end.

(** A call made by a client of the module, and the module state after a
    sequence of such calls. [initial_state] is the state at import:
    [MOUNTED = OrderedDict()]. *)
Inductive call :=
  | call_mount (storage : option string) (name : string)
      (extra_root : option root) (storage_parameters unsecure : pyvalue)
  | call_get_instance (name : string) (storage : option string)
      (storage_parameters unsecure : pyvalue).

Definition run_call (st : state) (c : call) : state :=
  match c with
  | call_mount storage name extra_root storage_parameters unsecure =>
      (mount storage name extra_root storage_parameters unsecure st).2
  | call_get_instance name storage storage_parameters unsecure =>
      (get_instance name storage storage_parameters unsecure st).2
  end.

Definition run (calls : list call) (st : state) : state :=
  foldl run_call st calls.

End manager.

Definition initial_state : state := {| MOUNTED := []; heap := [] |}.

End storage_manager.

(** ** pycosio/storage/azure_blob/_base_blob.py *)
Module azure_base_blob.
Import io_base.

(** The content of a blob, and of a buffer. *)
Abbreviation bytes := (list Byte.byte).

(** [content[start:stop]] *)
Definition slice (start stop : Z) (content : bytes) : bytes :=
  take (Z.to_nat (stop - start)) (drop (Z.to_nat start) content).

(** The service behind the client, for one blob of content [content]: the
    answer to [get_blob_to_stream(stream, start_range, end_range)], as the
    bytes written to the stream or the error raised. A range that starts at
    or after the end of the blob is refused with status 416; otherwise the
    bytes from [start_range] to [end_range] included are sent, as far as the
    blob goes. *)
Definition blob_range (content : bytes) (start_range : Z)
    (end_range : option Z) : result bytes :=
  if (Z.of_nat (length content) <=? start_range)%Z then
    raise (AzureHttpError 416)
  else
    ret (slice start_range
           (match end_range with
            | Some last => last + 1
            | None => Z.of_nat (length content)
            end)%Z
           content).

(** [bytearray(n)]: a buffer of [n] zero bytes. *)
Definition bytearray (n : nat) : bytes := replicate n Byte.x00.

(** A client [get_blob_to_stream] serves the blob [content]. *)
Definition serves (content : bytes)
    (get_blob_to_stream : Z → option Z → result bytes) : Prop :=
  ∀ start_range end_range,
    (0 ≤ start_range)%Z →
    get_blob_to_stream start_range end_range
    = blob_range content start_range end_range.

(** Modelled from the spec: [_handle_azure_exception] of
    [pycosio/storage/azure], which is not among the sources. Provider
    exceptions are re-raised as the generic error kinds: a missing object
    (status 404) as the not-found error. The other exceptions are taken to
    go through as they are, which is what the [except] clause of
    [_read_range] around the handler expects of status 416. *)
Definition _handle_azure_exception {A : Type} (r : result A) : result A :=
  match r with
  | inl (AzureHttpError 404) => raise ObjectNotFoundError
  | _ => r
  end.

Section raw_io.

(** [self._client.get_blob_to_stream] with the keyword arguments of the
    stream: what it writes to the stream it is given, or the error. *)
Variable get_blob_to_stream : Z → option Z → result bytes.

(** [AzureBlobRawIO._read_range(self, start, end=0)] *)
Definition _read_range (start end_ : Z) : result bytes :=
  match
    _handle_azure_exception
      (get_blob_to_stream start
         (if (end_ =? 0)%Z then None else Some (end_ - 1)%Z))
  with
  | inl (AzureHttpError status_code) =>
      if (status_code =? 416)%Z then ret []
      else raise (AzureHttpError status_code)
  | inl e => raise e
  | inr stream => ret stream
  end.

(** Modelled from the spec: [readinto] of the raw stream base
    ([pycosio/_core/io_raw.py]), which is not among the sources. It
    delegates to the range read for the length of the buffer, copies the
    bytes returned to the start of the buffer and advances the position by
    their number. The value is the count and the buffer after the call. *)
Definition readinto (b : bytes) (self : ObjectIOBase)
    : result (Z * bytes) * ObjectIOBase :=
  let start := _seek self in
  match _read_range start (start + Z.of_nat (length b))%Z with
  | inl e => (raise e, self)
  | inr read_data =>
      let read_size := length read_data in
      (ret (Z.of_nat read_size, read_data ++ drop read_size b),
       {| _name := _name self; _mode := _mode self; _cache := _cache self;
          _seek := start + Z.of_nat read_size;
          _writable := _writable self; _readable := _readable self;
          _seekable := _seekable self |})
  end.

(** Successive [readinto] calls on one stream, each with a buffer of its
    own; every call is followed by [tell]. The outcome of a call is the
    count, the buffer, and the position told. *)
Fixpoint readinto_each (buffers : list bytes) (self : ObjectIOBase)
    : list (result (Z * bytes) * result Z) :=
  match buffers with
  | [] => []
  | b :: buffers' =>
      let '(r, self') := readinto b self in
      (r, tell self') :: readinto_each buffers' self'
  end.

End raw_io.

End azure_base_blob.

(** ** pycosio/storage/azure_blob/_block_blob.py *)
Module azure_block_blob.
Import azure_base_blob.

(** [azure.storage.blob.BlobBlock] *)
Record BlobBlock := { id : string }.

(** The requests made to the service through [self._client]. *)
Inductive client_call :=
  | put_block (block : bytes) (block_id : string)
  | get_block_list
  | put_block_list (block_list : list BlobBlock).

(** A future returned by [self._workers.submit(self._client.put_block,
    block=..., block_id=...)]: the arguments of the task, and its outcome once
    a worker has run it ([None] while it has not). *)
Record future := {
  block : bytes;
  block_id : string;
  outcome : option (result ())
}.

(** The attributes of [AzureBlockBlobBufferedIO] used when writing. A future
    is held by its handle, its index in the pool. *)
Record AzureBlockBlobBufferedIO := {
  _write_futures : list nat;
  _blocks : list BlobBlock
}.

(** The stream, the futures of its worker pool, the number of random choices
    drawn so far, and the requests the service has answered, in the order it
    answered them. *)
Record world := {
  self : AzureBlockBlobBufferedIO;
  _workers : list future;
  drawn : nat;
  calls : list client_call
}.

(** [string.ascii_lowercase] *)
Definition _ascii_lowercase : string := "abcdefghijklmnopqrstuvwxyz".

Section buffered_io.

(** What lies outside the module: the index picked by each call of
    [random.choice], counted from the first one; the answer of the service to
    the [put_block] of each task ([None] when it succeeds); the committed
    blocks answered to [get_block_list], or its error; the error of
    [put_block_list], if any. *)
Variable random_index : nat → nat.
Variable put_block_error : nat → option exception.
Variable committed_blocks : result (list BlobBlock).
Variable put_block_list_error : option exception.

(** [choice(seq)], for the draw number [n]. *)
Definition choice (n : nat) (seq : string) : ascii :=
  default "a"%char (String.get (random_index n mod String.length seq) seq).

(** [AzureBlockBlobBufferedIO._get_random_block_id(length)], the first draw
    being the one numbered [from]. *)
Fixpoint _get_random_block_id (length from : nat) : string :=
  match length with
  | O => ""
  | S length' =>
      String (choice from _ascii_lowercase)
             (_get_random_block_id length' (S from))
  end.

(** [AzureBlockBlobBufferedIO._flush(self)], [buffer] being
    [self._get_buffer().tobytes()]. *)
Definition _flush (buffer : bytes) (w : world) : world :=
  let block_id := _get_random_block_id 32 (drawn w) in
  let handle := length (_workers w) in
  {| self :=
       {| _write_futures := _write_futures (self w) ++ [handle];
          _blocks := _blocks (self w) ++ [{| id := block_id |}] |};
     _workers :=
       _workers w
       ++ [{| block := buffer; block_id := block_id; outcome := None |}];
     drawn := drawn w + 32;
     calls := calls w |}.

(** What [self._client.put_block] does in the task of the future [handle]:
    it returns, or raises the error of the service. *)
Definition answer (handle : nat) : result () :=
  match put_block_error handle with
  | Some e => raise e
  | None => ret ()
  end.

(** A worker of the pool runs the task of the future [handle]: the service
    answers the [put_block] request and the future gets its outcome. *)
Definition run_task (handle : nat) (w : world) : world :=
  match _workers w !! handle with
  | Some f =>
      match outcome f with
      | Some _ => w
      | None =>
          {| self := self w;
             _workers :=
               <[handle := {| block := block f; block_id := block_id f;
                              outcome := Some (answer handle) |}]>
                 (_workers w);
             drawn := drawn w;
             calls := calls w ++ [put_block (block f) (block_id f)] |}
      end
  | None => w
  end.

(** [for future in futures: future.result()]. [None]: the loop is blocked
    on a future that has no outcome yet. *)
Fixpoint wait (futures : list nat) (w : world) : option (result ()) :=
  match futures with
  | [] => Some (ret ())
  | handle :: futures' =>
      match _workers w !! handle ≫= outcome with
      | None => None
      | Some (inl e) => Some (raise e)
      | Some (inr _) => wait futures' w
      end
  end.

(** [AzureBlockBlobBufferedIO._close_writable(self)], run from the moment
    it no longer has to wait ([None] before that). *)
Definition _close_writable (w : world) : option (result () * world) :=
  match wait (_write_futures (self w)) w with
  | None => None
  | Some (inl e) => Some (raise e, w)
  | Some (inr _) =>
      let w1 :=
        {| self := self w; _workers := _workers w; drawn := drawn w;
           calls := calls w ++ [get_block_list] |} in
      match committed_blocks with
      | inl e => Some (raise e, w1)
      | inr committed =>
          let w2 :=
            {| self := self w; _workers := _workers w; drawn := drawn w;
               calls :=
                 calls w1 ++ [put_block_list (committed ++ _blocks (self w))]
            |} in
          match put_block_list_error with
          | Some e => Some (raise e, w2)
          | None => Some (ret (), w2)
          end
      end
  end.

(** The thread that writes: it flushes the buffers left, one [_flush] each,
    then closes the stream; [closed r] once [_close_writable] has returned or
    raised. *)
Inductive writer :=
  | writing (buffers : list bytes)
  | closed (r : result ()).

Record system := {
  state : world;
  main : writer
}.

(** The threads take turns: the writer makes its next call, or a worker
    completes the task of a future. A writer that would block, and a worker
    without a pending task, leave everything as it is. *)
Inductive turn :=
  | main_thread
  | worker (handle : nat).

Definition step (s : system) (t : turn) : system :=
  match t with
  | worker handle => {| state := run_task handle (state s); main := main s |}
  | main_thread =>
      match main s with
      | writing (buffer :: buffers) =>
          {| state := _flush buffer (state s); main := writing buffers |}
      | writing [] =>
          match _close_writable (state s) with
          | None => s
          | Some (r, w) => {| state := w; main := closed r |}
          end
      | closed _ => s
      end
  end.

Definition run (turns : list turn) (s : system) : system :=
  foldl step s turns.

(** A stream just opened for writing ([self._blocks = []], no future), whose
    writer will flush [buffers]. *)
Definition open_stream (buffers : list bytes) : system :=
  {| state :=
       {| self := {| _write_futures := []; _blocks := [] |};
          _workers := []; drawn := 0; calls := [] |};
     main := writing buffers |}.

(** The id given to the block flushed after [i] others, and the ids of the
    first [n] blocks flushed. *)
Definition nth_block_id (i : nat) : string :=
  _get_random_block_id 32 (32 * i).

Definition block_ids (n : nat) : list string :=
  nth_block_id <$> seq 0 n.

(** *** Scenarios and reachable states *)

(** The uploads answered when the workers run the futures of [order]. *)
Definition uploads (buffers : list bytes) (order : list nat)
    : list client_call :=
  omap (λ h, (λ buffer, put_block buffer (nth_block_id h)) <$> buffers !! h)
       order.

(** The run in which the writer flushes every buffer, the workers then run
    the futures in the order [order], and the writer closes the stream. *)
Definition flush_upload_close (buffers : list bytes) (order : list nat)
    : system :=
  run (replicate (length buffers) main_thread
       ++ (worker <$> order) ++ [main_thread])
      (open_stream buffers).

(** The blocks of the stream after [n] flushes. *)
Definition blocks_of (n : nat) : list BlobBlock :=
  (λ block_id, {| id := block_id |}) <$> block_ids n.

(** The pool after the buffers [flushed] were flushed, [done] telling the
    futures whose task has run. *)
Definition pool_of (flushed : list bytes) (done : nat → bool) : list future :=
  imap (λ i buffer,
          {| block := buffer; block_id := nth_block_id i;
             outcome := if done i then Some (answer i) else None |})
       flushed.

(** The world after the buffers [flushed] were flushed, the tasks of [done]
    have run and the service has answered the requests [cs]. *)
Definition world_of (flushed : list bytes) (done : nat → bool)
    (cs : list client_call) : world :=
  {| self :=
       {| _write_futures := seq 0 (length flushed);
          _blocks := blocks_of (length flushed) |};
     _workers := pool_of flushed done;
     drawn := 32 * length flushed;
     calls := cs |}.

(** The futures [a], ..., [b - 1] have run and their uploads succeeded. *)
Definition uploaded (done : nat → bool) (a b : nat) : Prop :=
  ∀ i, (a ≤ i < b)%nat → done i = true ∧ put_block_error i = None.

(** The service has seen no request of the closing of the stream. *)
Definition commit_free (cs : list client_call) : Prop :=
  (get_block_list ∉ cs)
  ∧ (∀ block_list, put_block_list block_list ∉ cs).

(** Each upload answered by the service is the task of a future that has
    run, with the buffer and the block id of its flush. *)
Definition uploads_of (buffers : list bytes) (done : nat → bool)
    (cs : list client_call) : Prop :=
  ∀ buffer block_id,
    put_block buffer block_id ∈ cs →
    ∃ i, buffers !! i = Some buffer ∧ block_id = nth_block_id i
         ∧ done i = true.

(** The requests of the closing were made after every upload had succeeded,
    and the list committed is the list of the committed blocks followed by
    the blocks of the [n] flushes, in the order of the flushes. *)
Definition commits_ok (n : nat) (done : nat → bool) (cs : list client_call)
    : Prop :=
  (get_block_list ∈ cs → uploaded done 0 n)
  ∧ ∀ block_list,
      put_block_list block_list ∈ cs →
      uploaded done 0 n
      ∧ ∃ committed,
          committed_blocks = ret committed
          ∧ block_list = committed ++ blocks_of n.

(** When an upload failed, [r] is the error of the first one that did, in
    the order of the flushes. *)
Definition raises_first_error (n : nat) (r : result ()) : Prop :=
  ∀ i e, (i < n)%nat → put_block_error i = Some e →
         (∀ j, (j < i)%nat → put_block_error j = None) →
         r = raise e.

(** The states a stream writing [buffers] goes through. *)
Definition reachable (buffers : list bytes) (s : system) : Prop :=
  ∃ k done cs,
    state s = world_of (take k buffers) done cs
    ∧ (k ≤ length buffers)%nat
    ∧ (∀ i, (k ≤ i)%nat → done i = false)
    ∧ uploads_of buffers done cs
    ∧ match main s with
      | writing rest => rest = drop k buffers ∧ commit_free cs
      | closed r =>
          k = length buffers
          ∧ commits_ok (length buffers) done cs
          ∧ ((∃ i, (i < length buffers)%nat ∧ put_block_error i ≠ None)
             → commit_free cs)
          ∧ raises_first_error (length buffers) r
      end.

End buffered_io.

End azure_block_blob.

(** ** A sample environment

    Concrete storage modules and a concrete regular-expression matcher, used
    to run the manager on examples. *)
Module samples.
Import storage_manager.

(** [re.match] for the patterns made of literal characters, each possibly
    followed by [?] (the character is then optional): the pattern is matched
    at the start of [name]. *)
Fixpoint re_match_optional (pattern name : string) : bool :=
  match pattern with
  | EmptyString => true
  | String c (String "?" pattern') =>
      match name with
      | String c' name' => Ascii.eqb c c' && re_match_optional pattern' name'
      | EmptyString => false
      end
      || re_match_optional pattern' name
  | String c pattern' =>
      match name with
      | String c' name' => Ascii.eqb c c' && re_match_optional pattern' name'
      | EmptyString => false
      end
  end.

(** Four storage modules can be imported. *)
Definition sample_has_module (storage : string) : bool :=
  bool_decide (storage ∈ ["http"; "dummy"; "dummy_sub"; "mycloud"]).

(** The roots of their systems: the [roots] keyword when it is given, the
    roots of the storage otherwise. *)
Definition sample_roots (storage : string) (roots_kwarg : option (list root))
    (parameters : dict) : list root :=
  match roots_kwarg with
  | Some roots => roots
  | None =>
      if String.eqb storage "http" then [Pattern "https?://"]
      else if String.eqb storage "dummy" then [Str "dummy://"]
      else if String.eqb storage "dummy_sub" then [Str "dummy://sub/"]
      else [Str "https://www.mycloud.com/user/"]
  end.

Definition sample_mount :=
  mount sample_has_module sample_roots.
Definition sample_get_instance :=
  get_instance re_match_optional sample_has_module sample_roots.
Definition sample_run :=
  run re_match_optional sample_has_module sample_roots.

(** Both dummy storages are mounted, the less specific one first. *)
Definition dummy_mounted : state :=
  sample_run [call_mount (Some "dummy") "" None PyNone PyNone;
              call_mount (Some "dummy_sub") "" None PyNone PyNone]
    initial_state.

(** The HTTP storage and a storage rooted at a literal HTTPS URL are
    mounted. *)
Definition http_mounted : state :=
  sample_run [call_mount None "https://example.com/file" None PyNone PyNone;
              call_mount (Some "mycloud") "" (Some (Str "mycloud://"))
                (PyDict {["account" := AStr "user"]}) (PyBool true)]
    initial_state.

(** The configuration given in the example: another account, nothing about
    [unsecure]. *)
Definition other_account : pyvalue := PyDict {["account" := AStr "other"]}.

(** The entry of [http_mounted] for the second mount. *)
Definition mycloud_info : storage_info :=
  {| system_parameters :=
       <["unsecure" := PyBool true]>
         (<["storage_parameters" := PyDict {["account" := AStr "user"]}]> ∅);
     system := "mycloud"; system_cached := 1;
     roots := [Str "https://www.mycloud.com/user/"; Str "mycloud://"] |}.

(** *** Streams and blobs *)

(** A sample accessor: it returns the integer 100 and leaves the instance as
    it is (the shape of a size lookup). *)
Definition sample_getsize : io_base.method := λ o _, (ret (AInt 100), o).

(** The stream built by [__init__ "obj" "r"]. *)
Definition sample_stream : io_base.ObjectIOBase :=
  {| io_base._name := "obj"; io_base._mode := "r"; io_base._cache := ∅;
     io_base._seek := 0; io_base._writable := false;
     io_base._readable := true; io_base._seekable := true |}.

(** A blob of 100 bytes: 80 times 'a', then 20 times 'b'. *)
Definition sample_blob : list Byte.byte :=
  replicate 80 Byte.x61 ++ replicate 20 Byte.x62.

(** Three buffers of one byte, a random source that picks the letters in
    turn, and a blob with one committed block. *)
Definition sample_buffers : list (list Byte.byte) :=
  [[Byte.x01]; [Byte.x02]; [Byte.x03]].
Definition sample_random_index (n : nat) : nat := n.
Definition sample_committed : result (list azure_block_blob.BlobBlock) :=
  ret [{| azure_block_blob.id := "committed" |}].

(** The second upload fails. *)
Definition second_upload_fails (handle : nat) : option exception :=
  if (handle =? 1)%nat then Some (OtherError "upload failed") else None.

End samples.

(** ** pycosio/_core/storage_manager.py, the dictionaries as objects

    The module [storage_manager] holds the dictionaries of parameters by
    value, which is what the calls that return a system depend on. The calls
    that build a stream write into them; here a dictionary is an object of a
    store, known by its address, and the registry and the callers hold
    addresses. *)
Module storage_manager_shared.
Import storage_manager.

(** A value of a [storage_parameters] dictionary: a leaf, a system object
    (what is stored under 'pycosio.system_cached') or the header of an object
    (stored under 'pycosio.raw_io._head'). On system objects [==] is
    identity. *)
Inductive entry :=
  | Leaf (a : atom)
  | SystemObject (address : nat)
  | Header (head : gmap string atom).

#[global] Instance entry_eq_dec : EqDecision entry.
Proof. solve_decision. Defined.

(** A dictionary of system parameters: its item 'unsecure', a flag, and its
    item 'storage_parameters', a dictionary object; [None] for an item the
    dictionary does not have. *)
Record parameters := {
  unsecure_item : option bool;
  storage_parameters_item : option nat
}.

#[global] Instance parameters_eq_dec : EqDecision parameters.
Proof. solve_decision. Defined.

(** A system object: its class, the [roots] keyword and the system
    parameters its constructor received, and its [roots] attribute. *)
Record system_object := {
  sys_class : string;
  sys_roots_kwarg : option (list root);
  sys_kwargs : parameters;
  sys_roots : list root
}.

(** The dictionary [storage_info]: [system_parameters] is the address of a
    dictionary of system parameters, [system_cached] that of a system. *)
Record storage_info := {
  system_parameters : nat;
  system : string;
  system_cached : nat;
  roots : list root
}.

(** The registry and the three stores: system objects, dictionaries of
    system parameters, [storage_parameters] dictionaries. *)
Record state := {
  MOUNTED : list (root * storage_info);
  systems : list system_object;
  parameter_dicts : list parameters;
  dicts : list (gmap string entry)
}.

(** The [cls] argument of [get_instance]. *)
Inductive class_name := system_class | raw_class | buffered_class.

#[global] Instance class_name_eq_dec : EqDecision class_name.
Proof. solve_decision. Defined.

(** The call [info[cls](name=name, *args, **kwargs)] that ends
    [get_instance] for a stream class: the class, by its storage and its
    kind, and its arguments, the items of the system parameters among them. *)
Record stream_call := {
  call_storage : string;
  call_class : class_name;
  call_name : string;
  call_args : list atom;
  call_kwargs : gmap string atom;
  call_unsecure : option bool;
  call_storage_parameters : option nat
}.

(** What [get_instance] returns: a system object, or the stream built by a
    call of a stream class. *)
Inductive instance :=
  | System (address : nat)
  | Stream (call : stream_call).

(** What the name [system_parameters] is bound to in [get_instance]: the
    dictionary stored in the registry, or a dictionary of the call. *)
Inductive binding :=
  | Stored (address : nat)
  | Local (value : parameters).

(** [_system_parameters(unsecure=unsecure,
      storage_parameters=storage_parameters)]: a new dictionary. *)
Definition _system_parameters (unsecure : option bool)
    (storage_parameters : option nat) : parameters :=
  {| unsecure_item := unsecure;
     storage_parameters_item := storage_parameters |}.

(** [dict()] *)
Definition no_parameters : parameters :=
  {| unsecure_item := None; storage_parameters_item := None |}.

(** [not system_parameters] *)
Definition is_empty (p : parameters) : bool :=
  bool_decide (p = no_parameters).

(** The items a dictionary of system parameters has, the dictionary under
    'storage_parameters' by its content. *)
Definition content (st : state) (p : parameters)
    : option bool * option (option (gmap string entry)) :=
  (unsecure_item p, (λ d, dicts st !! d) <$> storage_parameters_item p).

(** [p == q] *)
Definition equal (st : state) (p q : parameters) : bool :=
  bool_decide (content st p = content st q).

(** [p.update({key: value for key, value in q.items() if key not in p})] *)
Definition update_missing (p q : parameters) : parameters :=
  {| unsecure_item :=
       match unsecure_item p with
       | Some b => Some b
       | None => unsecure_item q
       end;
     storage_parameters_item :=
       match storage_parameters_item p with
       | Some d => Some d
       | None => storage_parameters_item q
       end |}.

(** The dictionary a binding stands for. *)
Definition read (st : state) (v : binding) : parameters :=
  match v with
  | Stored p => default no_parameters (parameter_dicts st !! p)
  | Local value => value
  end.

(** [system_parameters['storage_parameters'] = d] *)
Definition set_storage_parameters (v : binding) (d : nat) (st : state)
    : binding * state :=
  match v with
  | Stored p =>
      (Stored p,
       {| MOUNTED := MOUNTED st; systems := systems st;
          parameter_dicts :=
            alter (λ q, {| unsecure_item := unsecure_item q;
                           storage_parameters_item := Some d |})
                  p (parameter_dicts st);
          dicts := dicts st |})
  | Local value =>
      (Local {| unsecure_item := unsecure_item value;
                storage_parameters_item := Some d |}, st)
  end.

(** The statements of [get_instance] under [if same_parameters:]. *)
Definition attach_cached_system (v : binding) (info : storage_info)
    (st : state) : binding * state :=
  let '(v1, st1, d) :=
    match storage_parameters_item (read st v) with
    | Some d => (v, st, d)
    | None =>
        let d := length (dicts st) in
        let '(v', st') :=
          set_storage_parameters v d
            {| MOUNTED := MOUNTED st; systems := systems st;
               parameter_dicts := parameter_dicts st;
               dicts := dicts st ++ [∅] |} in
        (v', st', d)
    end in
  (v1,
   {| MOUNTED := MOUNTED st1; systems := systems st1;
      parameter_dicts := parameter_dicts st1;
      dicts :=
        alter (insert "pycosio.system_cached"
                 (SystemObject (system_cached info)))
              d (dicts st1) |}).

Section manager.

Variable re_match : string → string → bool.
Variable has_module : string → bool.

(** The [roots] attribute of a new system object of a storage class, given
    the [roots] keyword and the items of the system parameters. *)
Variable new_system_roots :
  string → option (list root) →
  option bool * option (option (gmap string entry)) → list root.

(** The [for root in MOUNTED] loop. *)
Definition lookup (name : string) (mounted : list (root * storage_info))
    : option (root * storage_info) :=
  List.find (λ kv, applies re_match name kv.1) mounted.

(** [mount(storage, name, storage_parameters, unsecure, extra_root)] *)
Definition mount (storage : option string) (name : string)
    (extra_root : option root) (storage_parameters : option nat)
    (unsecure : option bool) (st : state) : result storage_info * state :=
  match infer_storage storage name with
  | inl e => (raise e, st)
  | inr storage =>
      let system_parameters := _system_parameters unsecure storage_parameters in
      if negb (has_module storage) then
        (raise (ImportError ("pycosio.storage." +:+ storage)), st)
      else
        let roots0 :=
          new_system_roots storage None (content st system_parameters) in
        let roots :=
          if truthy extra_root then roots0 ++ option_list extra_root
          else roots0 in
        let cached :=
          {| sys_class := storage; sys_roots_kwarg := None;
             sys_kwargs := system_parameters; sys_roots := roots |} in
        let storage_info :=
          {| system_parameters := length (parameter_dicts st);
             system := storage; system_cached := length (systems st);
             roots := roots |} in
        let mounted :=
          foldl (λ d root, setitem root storage_info d) (MOUNTED st) roots in
        (ret storage_info,
         {| MOUNTED := reorder mounted; systems := systems st ++ [cached];
            parameter_dicts := parameter_dicts st ++ [system_parameters];
            dicts := dicts st |})
  end.

(** [info.get('system_parameters')] *)
Definition get_system_parameters (info : storage_info) : nat :=
  system_parameters info.

(** The end of [get_instance], from [# Returns system class] on. *)
Definition instantiate (name : string) (cls : class_name)
    (args : list atom) (kwargs : gmap string atom) (info : storage_info)
    (same_parameters : bool) (v : binding) (st : state)
    : result instance * state :=
  match cls with
  | system_class =>
      if same_parameters then (ret (System (system_cached info)), st)
      else
        let fresh :=
          {| sys_class := system info; sys_roots_kwarg := Some (roots info);
             sys_kwargs := read st v;
             sys_roots :=
               new_system_roots (system info) (Some (roots info))
                 (content st (read st v)) |} in
        (ret (System (length (systems st))),
         {| MOUNTED := MOUNTED st; systems := systems st ++ [fresh];
            parameter_dicts := parameter_dicts st; dicts := dicts st |})
  | _ =>
      let '(v', st') :=
        if same_parameters then attach_cached_system v info st else (v, st) in
      (ret (Stream
              {| call_storage := system info; call_class := cls;
                 call_name := name; call_args := args; call_kwargs := kwargs;
                 call_unsecure := unsecure_item (read st' v');
                 call_storage_parameters :=
                   storage_parameters_item (read st' v') |}),
       st')
  end.

(** [get_instance(name, cls, storage, storage_parameters, unsecure,
      *args, **kwargs)] *)
Definition get_instance (name : string) (cls : class_name)
    (storage : option string) (storage_parameters : option nat)
    (unsecure : option bool) (args : list atom) (kwargs : gmap string atom)
    (st : state) : result instance * state :=
  let system_parameters := _system_parameters unsecure storage_parameters in
  match lookup name (MOUNTED st) with
  | Some (_, info) =>
      let stored := read st (Stored (get_system_parameters info)) in
      let stored_parameters :=
        if is_empty stored then Local no_parameters
        else Stored (get_system_parameters info) in
      if is_empty system_parameters then
        instantiate name cls args kwargs info true stored_parameters st
      else if equal st system_parameters stored then
        instantiate name cls args kwargs info true (Local system_parameters)
          st
      else
        instantiate name cls args kwargs info false
          (Local (update_missing system_parameters stored)) st
  | None =>
      match
        mount storage name None (storage_parameters_item system_parameters)
          (unsecure_item system_parameters) st
      with
      | (inl e, st') => (raise e, st')
      | (inr info, st') =>
          instantiate name cls args kwargs info true (Local system_parameters)
            st'
      end
  end.

End manager.

Definition initial_state : state :=
  {| MOUNTED := []; systems := []; parameter_dicts := []; dicts := [] |}.

End storage_manager_shared.

(** ** pycosio/storage/azure_blob/_base_blob.py: the type of a blob *)
Module azure_new_blob.
Import storage_manager storage_manager_shared.

(** The dictionary [kwargs] of [_new_blob]: its items 'storage_parameters'
    and 'unsecure', when it has them, and its other items. *)
Record keywords := {
  storage_parameters : option nat;
  unsecure : option bool;
  others : gmap string atom
}.

(** [bool(a)] *)
Definition truthy_atom (a : atom) : bool :=
  match a with
  | ANone => false
  | AStr s => negb (String.eqb s "")
  | AInt z => negb (z =? 0)%Z
  end.

Section new_blob.

(** What lies outside the module: the [roots] attribute of a new system, the
    answer of [system.head(name)] for the system at an address (the header
    of the object, or the error raised), and the attribute
    [_default_blob_type] of that system. *)
Variable new_system_roots :
  string → option (list root) →
  option bool * option (option (gmap string entry)) → list root.
Variable head : nat → string → result (gmap string atom).
Variable _default_blob_type : nat → atom.

(** [cls._SYSTEM_CLASS] called with the items of [kwargs] as keyword
    arguments: a new system object of the Azure blob storage; the
    constructor is taken not to raise, and the object is recorded with its
    system parameters. *)
Definition new_system (kwargs : keywords) (st : state) : nat * state :=
  let system_parameters :=
    {| unsecure_item := unsecure kwargs;
       storage_parameters_item := storage_parameters kwargs |} in
  (length (systems st),
   {| MOUNTED := MOUNTED st;
      systems :=
        systems st
        ++ [{| sys_class := "azure_blob"; sys_roots_kwarg := None;
               sys_kwargs := system_parameters;
               sys_roots :=
                 new_system_roots "azure_blob" None
                   (content st system_parameters) |}];
      parameter_dicts := parameter_dicts st; dicts := dicts st |}).

(** What [if not system:] finds in the dictionary: the system stored under
    'pycosio.system_cached', or [None] when nothing true is stored there; a
    true value that is not a system has no [head] method. *)
Definition stored_system (storage_parameters : gmap string entry)
    : result (option nat) :=
  match storage_parameters !! "pycosio.system_cached" with
  | None => ret None
  | Some (SystemObject address) => ret (Some address)
  | Some (Leaf a) =>
      if truthy_atom a then raise (OtherError "AttributeError") else ret None
  | Some (Header h) =>
      if decide (h = ∅) then ret None
      else raise (OtherError "AttributeError")
  end.

(** The second half of [_new_blob], from [# Detect if file already exists]:
    [storage_parameters] is the content of the new dictionary, which is put
    in the store when it is bound in [kwargs]. *)
Definition detect (system : nat) (storage_parameters : gmap string entry)
    (kwargs : keywords) (st : state) : result (atom * keywords) * state :=
  let bind (storage_parameters : gmap string entry) (blob_type : atom) :=
    (ret (blob_type,
          {| azure_new_blob.storage_parameters := Some (length (dicts st));
             unsecure := unsecure kwargs; others := others kwargs |}),
     {| MOUNTED := MOUNTED st; systems := systems st;
        parameter_dicts := parameter_dicts st;
        dicts := dicts st ++ [storage_parameters] |}) in
  match head system "name" with
  | inr h =>
      bind (<["pycosio.raw_io._head" := Header h]> storage_parameters)
           (default (_default_blob_type system) (h !! "blob_type"))
  | inl ObjectNotFoundError =>
      bind storage_parameters
           (default (_default_blob_type system)
              (others kwargs !! "blob_type"))
  | inl e => (raise e, st)
  end.

(** [_new_blob(cls, kwargs)]: the blob type, and [kwargs] as the call leaves
    it. [copy] is the content of [kwargs['storage_parameters'].copy()], or of
    the empty dictionary of the [except KeyError] clause. *)
Definition _new_blob (kwargs : keywords) (st : state)
    : result (atom * keywords) * state :=
  let copy :=
    match storage_parameters kwargs with
    | Some d => default ∅ (dicts st !! d)
    | None => ∅
    end in
  match stored_system copy with
  | inl e => (raise e, st)
  | inr (Some system) => detect system copy kwargs st
  | inr None =>
      let '(system, st') := new_system kwargs st in
      detect system (<["pycosio.system_cached" := SystemObject system]> copy)
        kwargs st'
  end.

End new_blob.

End azure_new_blob.

(** ** What the modules keep true

    The predicates the properties of the registry and of the requests of a
    written stream are stated with, and some more sample data. *)
Module registry_invariants.
Import storage_manager.

(** The system object [mount] caches for the entry [info]: the system class
    called with the stored parameters as keyword arguments, its [roots]
    attribute then set to the roots of the entry. *)
Definition cached_system (info : storage_info) : SystemBase :=
  {| sys_class := system info; sys_roots_kwarg := None;
     sys_kwargs := system_parameters info; sys_roots := roots info |}.

(** [_system_parameters(unsecure=unsecure,
      storage_parameters=storage_parameters)], the first statement of
    [get_instance] and the dictionary [mount] stores. *)
Definition given_parameters (storage_parameters unsecure : pyvalue) : dict :=
  _system_parameters
    (<["unsecure" := unsecure]>
       (<["storage_parameters" := storage_parameters]> ∅)).

(** The state of the module is well formed: the keys of the registry are
    distinct and in descending order of their text, every entry is filed
    under one of the roots of its storage, and its cached system is the
    object [mount] built for it. *)
Definition well_formed (st : state) : Prop :=
  NoDup (MOUNTED st).*1
  ∧ descending (MOUNTED st)
  ∧ ∀ root info,
      (root, info) ∈ MOUNTED st →
      root ∈ roots info
      ∧ heap st !! system_cached info = Some (cached_system info).

End registry_invariants.

Module block_blob_traces.
Import azure_base_blob azure_block_blob.

Section traces.
Variable random_index : nat → nat.
Variable put_block_error : nat → option exception.
Variable committed_blocks : result (list BlobBlock).
Variable put_block_list_error : option exception.

(** The requests [_close_writable] makes once every upload has succeeded,
    for a stream of [n] flushes, and what it then returns or raises. *)
Definition closing_requests (n : nat) : list client_call :=
  match committed_blocks with
  | inl _ => [get_block_list]
  | inr committed =>
      [get_block_list;
       put_block_list (committed ++ blocks_of random_index n)]
  end.

Definition closing_result : result () :=
  match committed_blocks with
  | inl e => raise e
  | inr _ =>
      match put_block_list_error with
      | Some e => raise e
      | None => ret ()
      end
  end.

(** The futures of [order] are those that have run. *)
Definition ran (order : list nat) (i : nat) : bool := bool_decide (i ∈ order).

(** The states of a stream writing [buffers], with the requests the service
    has answered: the uploads of the futures that have run, in the order
    [order] in which they ran, followed, once the stream has closed after the
    success of every upload, by the requests of the closing. *)
Definition traced (buffers : list bytes) (s : system) : Prop :=
  ∃ k order,
    NoDup order ∧ (∀ h, h ∈ order → (h < k)%nat) ∧ (k ≤ length buffers)%nat
    ∧ ((state s
        = world_of random_index put_block_error (take k buffers) (ran order)
            (uploads random_index buffers order)
        ∧ match main s with
          | writing rest => rest = drop k buffers
          | closed r =>
              k = length buffers
              ∧ ∃ h e, h ∈ order ∧ put_block_error h = Some e ∧ r = raise e
          end)
       ∨ (k = length buffers
          ∧ order ≡ₚ seq 0 k
          ∧ (∀ i, (i < k)%nat → put_block_error i = None)
          ∧ state s
            = world_of random_index put_block_error buffers (ran order)
                (uploads random_index buffers order ++ closing_requests k)
          ∧ main s = closed closing_result)).

End traces.

End block_blob_traces.

Module more_samples.
Import storage_manager samples.

(** The entry a mount for an HTTPS address makes in an empty registry. *)
Definition https_info : storage_info :=
  {| system_parameters := ∅; system := "http"; system_cached := 0;
     roots := [Pattern "https?://"] |}.

(** The entry a mount of the dummy storage with the extra root "dm://"
    makes in an empty registry. *)
Definition dummy_info : storage_info :=
  {| system_parameters := ∅; system := "dummy"; system_cached := 0;
     roots := [Str "dummy://"; Str "dm://"] |}.

(** The registry after that mount, and the entry the mount of the second
    dummy storage then makes. *)
Definition dm_mounted : state :=
  (sample_mount (Some "dummy") "" (Some (Str "dm://")) PyNone PyNone
     initial_state).2.

Definition dummy_sub_info : storage_info :=
  {| system_parameters := ∅; system := "dummy_sub"; system_cached := 1;
     roots := [Str "dummy://sub/"] |}.

(** The state after a first [get_instance] for a name of the dummy storage,
    from the empty registry. *)
Definition dummy_served : state :=
  (sample_get_instance "dummy://a" None PyNone PyNone initial_state).2.

(** Two dictionaries with the same item, a registry where a storage is
    mounted with the first of them, and one where a storage is mounted with
    the [unsecure] flag alone; their entry. *)
Definition user_account : gmap string storage_manager_shared.entry :=
  {["account" := storage_manager_shared.Leaf (AStr "user")]}.

Definition shared_roots (storage : string) (roots_kwarg : option (list root))
    (items :
       option bool * option (option (gmap string storage_manager_shared.entry)))
    : list root :=
  sample_roots storage roots_kwarg ∅.

Definition shared_mounted : storage_manager_shared.state :=
  (storage_manager_shared.mount sample_has_module shared_roots
     (Some "mycloud") "" (Some (Str "mycloud://")) (Some 0%nat) (Some true)
     {| storage_manager_shared.MOUNTED := [];
        storage_manager_shared.systems := [];
        storage_manager_shared.parameter_dicts := [];
        storage_manager_shared.dicts := [user_account; user_account] |}).2.

Definition unsecure_mounted : storage_manager_shared.state :=
  (storage_manager_shared.mount sample_has_module shared_roots
     (Some "mycloud") "" (Some (Str "mycloud://")) None (Some true)
     storage_manager_shared.initial_state).2.

Definition shared_info : storage_manager_shared.storage_info :=
  {| storage_manager_shared.system_parameters := 0;
     storage_manager_shared.system := "mycloud";
     storage_manager_shared.system_cached := 0;
     storage_manager_shared.roots :=
       [Str "https://www.mycloud.com/user/"; Str "mycloud://"] |}.

(** A storage where every object is a page blob, and whose default type
    is the block blob. *)
Definition sample_head (system : nat) (name : string)
    : result (gmap string atom) :=
  ret {["blob_type" := AStr "PageBlob"]}.
Definition sample_default_blob_type (system : nat) : atom :=
  AStr "BlockBlob".

(** A method that raises and leaves the instance as it is, and one that
    returns the integer 7. *)
Definition sample_failing : io_base.method :=
  λ o _, (raise (OtherError "no answer"), o).
Definition sample_seven : io_base.method := λ o _, (ret (AInt 7), o).

End more_samples.

(** * Properties *)

(** ** Stream base *)

Section io_base_properties.
Import io_base samples.

Lemma init_accepted name mode :
  mode_accepted mode = true →
  ∃ o, __init__ name mode = ret o
       ∧ _readable o = mode_readable mode
       ∧ _writable o = mode_writable mode
       ∧ _seekable o = true
       ∧ _seek o = 0%Z ∧ _cache o = ∅
       ∧ _mode o = mode ∧ _name o = name.
Proof.
  unfold mode_accepted, mode_readable, mode_writable, __init__.
  destruct (contains_char "w" mode) eqn:Hw, (contains_char "a" mode) eqn:Ha,
    (contains_char "r" mode) eqn:Hr; simpl; intros Hacc;
    try discriminate; eexists; repeat split; reflexivity.
Qed.

Lemma init_rejected name mode :
  mode_accepted mode = false →
  __init__ name mode = raise (ValueError (invalid_mode_message mode)).
Proof.
  unfold mode_accepted, __init__.
  destruct (contains_char "w" mode), (contains_char "a" mode),
    (contains_char "r" mode); simpl; intros Hacc; try discriminate; reflexivity.
Qed.

Lemma init_inv name mode o :
  __init__ name mode = ret o →
  mode_accepted mode = true
  ∧ _readable o = mode_readable mode ∧ _writable o = mode_writable mode
  ∧ _seekable o = true.
Proof.
  intros Hinit. destruct (mode_accepted mode) eqn:Hacc.
  - destruct (init_accepted name mode Hacc) as (o' & Ho' & Hr & Hw & Hs & _).
    rewrite Hinit in Ho'. injection Ho' as ->. auto.
  - rewrite (init_rejected name mode Hacc) in Hinit. discriminate.
Qed.

(** C6. A mode with none of 'r', 'w', 'a' is refused by the constructor with
    the [ValueError] "Invalid mode" (the specification's InvalidModeError);
    every other mode is accepted, and the three capability queries of the
    stream then return values that depend on the mode alone ([seekable] is
    always true); storing a memoized result, the one change the class makes
    to an instance, leaves them as they are. *)
Theorem init_mode_capabilities (name mode : string) :
  (contains_char "r" mode = false ∧ contains_char "w" mode = false
     ∧ contains_char "a" mode = false →
   __init__ name mode = raise (ValueError (invalid_mode_message mode)))
  ∧ (contains_char "r" mode = true ∨ contains_char "w" mode = true
       ∨ contains_char "a" mode = true →
     ∃ o, __init__ name mode = ret o
          ∧ readable o = mode_readable mode
          ∧ writable o = mode_writable mode
          ∧ seekable o = true
          ∧ tell o = ret 0%Z
          ∧ ∀ cache,
              readable (set_cache o cache) = readable o
              ∧ writable (set_cache o cache) = writable o
              ∧ seekable (set_cache o cache) = seekable o).
Proof.
  split.
  - intros (Hr & Hw & Ha). apply init_rejected.
    unfold mode_accepted. by rewrite Hr, Hw, Ha.
  - intros Hsome.
    assert (mode_accepted mode = true) as Hacc.
    { unfold mode_accepted.
      destruct Hsome as [-> | [-> | ->]]; simpl;
        rewrite ?orb_true_r; reflexivity. }
    destruct (init_accepted name mode Hacc)
      as (o & Ho & Hr & Hw & Hs & Hseek & _).
    exists o. unfold readable, writable, seekable, tell.
    rewrite Hs, Hseek. auto 10.
Qed.

Lemma init_mode_capabilities_witness :
  __init__ "obj" "x+" = raise (ValueError (invalid_mode_message "x+"))
  ∧ ∃ o, __init__ "obj" "rb" = ret o
         ∧ readable o = true ∧ writable o = false ∧ seekable o = true
         ∧ tell o = ret 0%Z.
Proof.
  split.
  - apply (proj1 (init_mode_capabilities "obj" "x+")). repeat split.
  - destruct (proj2 (init_mode_capabilities "obj" "rb"))
      as (o & Ho & Hr & Hw & Hs & Ht & _); [left; reflexivity|].
    exists o. auto.
Defined.

(** C9. A constructed stream is readable or writable, never both: 'w' or 'a'
    in the mode gives a write-only stream even when 'r' is there too, and 'r'
    gives a read-only stream when neither 'w' nor 'a' is present. *)
Theorem readable_xor_writable (name mode : string) (o : ObjectIOBase) :
  __init__ name mode = ret o →
  readable o = negb (writable o)
  ∧ (contains_char "w" mode = true ∨ contains_char "a" mode = true →
     writable o = true ∧ readable o = false)
  ∧ (contains_char "w" mode = false → contains_char "a" mode = false →
     readable o = true ∧ writable o = false
     ∧ contains_char "r" mode = true).
Proof.
  intros Hinit.
  destruct (init_inv name mode o Hinit) as (Hacc & Hr & Hw & _).
  unfold readable, writable. rewrite Hr, Hw.
  unfold mode_readable, mode_writable, mode_accepted in *.
  destruct (contains_char "w" mode), (contains_char "a" mode),
    (contains_char "r" mode); simpl in *; try discriminate;
    repeat split; try reflexivity; intros; intuition discriminate.
Qed.

Lemma readable_xor_writable_witness :
  ∃ o, __init__ "obj" "r+w" = ret o
       ∧ readable o = negb (writable o)
       ∧ writable o = true ∧ readable o = false.
Proof.
  eexists. split; [reflexivity|].
  pose proof (readable_xor_writable "obj" "r+w" _ eq_refl) as (Hx & Hw & _).
  split; [exact Hx|]. apply Hw. left. reflexivity.
Defined.

Lemma memoize_hit method_name m args w v :
  _cache (self w) !! method_name = Some v →
  _memoize method_name m args w = (ret v, w).
Proof. intros Hhit. unfold _memoize. by rewrite Hhit. Qed.

Lemma call_each_hit method_name m calls w v :
  _cache (self w) !! method_name = Some v →
  call_each (_memoize method_name m) calls w = (map (λ _, ret v) calls, w).
Proof.
  intros Hhit. induction calls as [|args calls IH]; simpl; [done|].
  by rewrite (memoize_hit _ _ _ _ _ Hhit), IH.
Qed.

(** A call that raises stores nothing: the next call runs the method. *)
Lemma memoize_miss_raises method_name m args w e o :
  _cache (self w) !! method_name = None →
  m (self w) args = (raise e, o) →
  _memoize method_name m args w
  = (raise e, {| self := o; invoked := invoked w ++ [method_name] |}).
Proof. intros Hmiss Hm. unfold _memoize. by rewrite Hmiss, Hm. Qed.

Lemma run_count_snoc method_name w o :
  run_count method_name {| self := o; invoked := invoked w ++ [method_name] |}
  = S (run_count method_name w).
Proof.
  unfold run_count. simpl.
  rewrite filter_app, length_app, filter_cons_True by done. simpl. lia.
Qed.

(** C8. The first call of a memoized method on an instance whose cache has
    no entry under the method's name runs the method once; when the method
    returns [v], the call returns [v] and stores it under that name. Every
    later call on the instance, whatever its arguments, returns [v] and leaves
    the instance and the log of invocations as they were: the method has run
    exactly once. *)
Theorem memoize_runs_once (method_name : string) (m : method)
    (o o' : ObjectIOBase) (log : list string) (args : list atom) (v : atom) :
  _cache o !! method_name = None →
  m o args = (ret v, o') →
  ∃ w1,
    _memoize method_name m args {| self := o; invoked := log |} = (ret v, w1)
    ∧ _cache (self w1) = <[method_name := v]> (_cache o')
    ∧ invoked w1 = log ++ [method_name]
    ∧ ∀ calls : list (list atom),
        call_each (_memoize method_name m) calls w1
        = (map (λ _, ret v) calls, w1)
        ∧ run_count method_name
            (call_each (_memoize method_name m) calls w1).2
          = S (run_count method_name {| self := o; invoked := log |}).
Proof.
  intros Hmiss Hm. eexists. unfold _memoize at 1. simpl.
  rewrite Hmiss, Hm. simpl. split; [reflexivity|].
  split; [reflexivity|]. split; [reflexivity|].
  intros calls.
  rewrite (call_each_hit method_name m calls _ v)
    by (simpl; apply lookup_insert_eq).
  split; [reflexivity|]. simpl.
  apply (run_count_snoc method_name {| self := o; invoked := log |}).
Qed.

Lemma memoize_runs_once_witness :
  __init__ "obj" "r" = ret sample_stream ∧
  ∃ w1,
    _memoize "_getsize" sample_getsize []
      {| self := sample_stream; invoked := [] |}
    = (ret (AInt 100), w1)
    ∧ _cache (self w1) = <["_getsize" := AInt 100]> (_cache sample_stream)
    ∧ invoked w1 = ["_getsize"]
    ∧ call_each (_memoize "_getsize" sample_getsize) [[]; [AInt 7]] w1
      = ([ret (AInt 100); ret (AInt 100)], w1).
Proof.
  split; [reflexivity|].
  destruct (memoize_runs_once "_getsize" sample_getsize sample_stream
              sample_stream [] [] (AInt 100) eq_refl eq_refl)
    as (w1 & Hfirst & Hcache & Hlog & Hlater).
  exists w1. split; [exact Hfirst|]. split; [exact Hcache|].
  split; [exact Hlog|]. exact (proj1 (Hlater [[]; [AInt 7]])).
Defined.

End io_base_properties.

(** ** Storage manager *)

Section strings.

Lemma prefix_empty s : String.prefix "" s = true.
Proof. by destruct s. Qed.

Lemma prefix_cons a s b t :
  String.prefix (String a s) (String b t) = true
  ↔ a = b ∧ String.prefix s t = true.
Proof.
  simpl. destruct (ascii_dec a b) as [->|Hne]; [tauto|].
  split; [discriminate|]. by intros [? _].
Qed.

Lemma prefix_app s t : String.prefix s (s +:+ t) = true.
Proof.
  induction s as [|a s IH]; [apply prefix_empty|].
  simpl. by destruct (ascii_dec a a).
Qed.

Lemma prefix_inv s t : String.prefix s t = true → ∃ rest, t = s +:+ rest.
Proof.
  revert t. induction s as [|a s IH]; intros t Hp; [by exists t|].
  destruct t as [|b t]; [discriminate|].
  apply prefix_cons in Hp as [-> Hp]. destruct (IH t Hp) as [rest ->].
  by exists rest.
Qed.

Lemma ascii_compare_refl a : Ascii.compare a a = Eq.
Proof. unfold Ascii.compare. apply N.compare_refl. Qed.

Lemma leb_cons a s t :
  String.leb (String a s) (String a t) = String.leb s t.
Proof. unfold String.leb. simpl. by rewrite ascii_compare_refl. Qed.

(** Of two prefixes of one string, the one that is not smaller in the
    lexicographic order is not shorter. *)
Lemma prefix_leb_length a b n :
  String.prefix a n = true → String.prefix b n = true →
  String.leb b a = true → (String.length b ≤ String.length a)%nat.
Proof.
  revert b n. induction a as [|c a IH]; intros b n Han Hbn Hle.
  - destruct b; [done|discriminate].
  - destruct b as [|c' b]; [simpl; lia|].
    destruct n as [|c'' n]; [discriminate|].
    apply prefix_cons in Han as [-> Han]. apply prefix_cons in Hbn as [-> Hbn].
    rewrite leb_cons in Hle. simpl. apply le_n_S. by apply (IH b n).
Qed.

End strings.

Section sorting.
Context {A : Type} (key : A → string).
Import storage_manager.

Abbreviation key_le := (key_le key).

#[local] Instance key_le_trans : Transitive key_le.
Proof. intros x y z. unfold key_le. apply transitivity. Qed.

Lemma key_le_total x y : key_le x y ∨ key_le y x.
Proof. unfold key_le. destruct (total String.le (key x) (key y)); auto. Qed.

Lemma insert_sorted_perm x l : insert_sorted key x l ≡ₚ x :: l.
Proof.
  induction l as [|y l IH]; simpl; [done|].
  destruct (String.leb (key x) (key y)); [done|].
  rewrite IH. apply Permutation_swap.
Qed.

Lemma sorted_perm l : sorted key l ≡ₚ l.
Proof.
  induction l as [|x l IH]; simpl; [done|].
  by rewrite insert_sorted_perm, IH.
Qed.

Lemma insert_sorted_StronglySorted x l :
  StronglySorted key_le l → StronglySorted key_le (insert_sorted key x l).
Proof.
  induction l as [|y l IH]; simpl; intros Hl.
  - repeat constructor.
  - apply StronglySorted_cons in Hl as [Hy Hl].
    destruct (String.leb (key x) (key y)) eqn:Hxy.
    + assert (key_le x y) as Hle by (unfold key_le, String.le; by rewrite Hxy).
      apply StronglySorted_cons. split.
      * constructor; [done|].
        eapply Forall_impl; [exact Hy|]. intros z Hz. by etransitivity.
      * by apply StronglySorted_cons.
    + assert (key_le y x) as Hle.
      { destruct (key_le_total x y) as [Hc|Hc]; [|done].
        unfold key_le, String.le in Hc. by rewrite Hxy in Hc. }
      apply StronglySorted_cons. split; [|by apply IH].
      rewrite insert_sorted_perm. by constructor.
Qed.

Lemma sorted_StronglySorted l : StronglySorted key_le (sorted key l).
Proof.
  induction l as [|x l IH]; simpl; [constructor|].
  by apply insert_sorted_StronglySorted.
Qed.

Lemma StronglySorted_rev_flip (R : relation A) l :
  StronglySorted R l → StronglySorted (flip R) (reverse l).
Proof.
  induction 1 as [|x l Hl IH Hx]; [constructor|].
  rewrite reverse_cons. apply StronglySorted_app. split_and!.
  - intros y z Hy Hz. apply list_elem_of_singleton in Hz as ->.
    rewrite Forall_forall in Hx. apply Hx. by apply elem_of_reverse.
  - done.
  - repeat constructor.
Qed.

End sorting.

Section registry_order.
Import storage_manager.
Variable re_match : string → string → bool.
Variable has_module : string → bool.
Variable new_system_roots :
  string → option (list root) → dict → list root.

Let mount := mount has_module new_system_roots.
Let get_instance := get_instance re_match has_module new_system_roots.
Let run := run re_match has_module new_system_roots.
Let lookup := lookup re_match.
Let applies := applies re_match.

Lemma getitem_is_Some {V : Type} key (d : list (root * V)) :
  key ∈ d.*1 → is_Some (getitem key d).
Proof.
  unfold getitem. induction d as [|[k v] d IH]; simpl.
  - by intros ?%elem_of_nil.
  - intros Hin. destruct (bool_decide (k = key)) eqn:Hk; simpl; [by eexists|].
    apply bool_decide_eq_false in Hk.
    apply elem_of_cons in Hin as [->|Hin]; [done|]. by apply IH.
Qed.

Lemma reorder_keys {V : Type} (d : list (root * V)) :
  (reorder d).*1 = reverse (sorted _compare_root (d.*1)).
Proof.
  unfold reorder.
  assert (∀ ks, (∀ k, k ∈ ks → k ∈ d.*1) →
            (omap (λ key, pair key <$> getitem key d) ks).*1 = ks) as Hks.
  { induction ks as [|k ks IH]; intros Hin; simpl; [done|].
    destruct (getitem_is_Some k d) as [v Hv]; [apply Hin; left|].
    rewrite Hv. simpl. f_equal. apply IH. intros k' Hk'. apply Hin. by right. }
  apply Hks. intros k Hk. rewrite elem_of_reverse in Hk.
  by apply (elem_of_Permutation_proper k _ _
              (sorted_perm _compare_root (d.*1))).
Qed.

Lemma reorder_descending {V : Type} (d : list (root * V)) :
  descending (reorder d).
Proof.
  unfold descending. rewrite reorder_keys.
  apply StronglySorted_rev_flip, sorted_StronglySorted.
Qed.

Lemma mount_descending storage name extra_root storage_parameters unsecure st :
  descending (MOUNTED st) →
  descending
    (MOUNTED (mount storage name extra_root storage_parameters unsecure st).2).
Proof.
  intros Hst. unfold mount, storage_manager.mount.
  destruct (infer_storage storage name) as [e|storage']; [done|].
  destruct (has_module storage'); simpl; [|done].
  apply reorder_descending.
Qed.

Lemma get_instance_descending name storage storage_parameters unsecure st :
  descending (MOUNTED st) →
  descending
    (MOUNTED (get_instance name storage storage_parameters unsecure st).2).
Proof.
  intros Hst. unfold get_instance, storage_manager.get_instance.
  destruct (storage_manager.lookup _ _ _) as [[r info]|].
  - repeat case_decide; done.
  - unfold keyword_call.
    pose proof (mount_descending storage name None
      (kwarg (_system_parameters
         (<["unsecure":=unsecure]>
            (<["storage_parameters":=storage_parameters]> ∅)))
         "storage_parameters")
      (kwarg (_system_parameters
         (<["unsecure":=unsecure]>
            (<["storage_parameters":=storage_parameters]> ∅))) "unsecure")
      st Hst) as Hm.
    unfold mount in Hm.
    destruct (storage_manager.mount _ _ _ _ _ _ _ _) as [[e|info] st']; done.
Qed.

Lemma run_descending calls st :
  descending (MOUNTED st) → descending (MOUNTED (run calls st)).
Proof.
  revert st. induction calls as [|c calls IH]; intros st Hst; [done|].
  apply IH. destruct c; simpl.
  - by apply mount_descending.
  - by apply get_instance_descending.
Qed.

Lemma lookup_split name mounted r info :
  lookup name mounted = Some (r, info) →
  applies name r = true
  ∧ ∃ l1 l2, mounted = l1 ++ (r, info) :: l2
             ∧ Forall (λ kv, applies name kv.1 = false) l1.
Proof.
  unfold lookup, storage_manager.lookup.
  induction mounted as [|[k v] mounted IH]; simpl; [discriminate|].
  destruct (storage_manager.applies re_match name k) eqn:Hk.
  - intros [= -> ->]. split; [done|]. by exists [], mounted.
  - intros Hfind. destruct (IH Hfind) as (Hr & l1 & l2 & -> & Hl1).
    split; [done|]. exists ((k, v) :: l1), l2. split; [done|].
    by constructor.
Qed.

Lemma lookup_is_Some name mounted k :
  k ∈ mounted.*1 → applies name k = true → is_Some (lookup name mounted).
Proof.
  unfold lookup, storage_manager.lookup. intros Hin Hk.
  destruct (List.find _ mounted) as [kv|] eqn:Hfind; [by eexists|].
  apply list_elem_of_fmap in Hin as ([k' v] & -> & Hin).
  apply list_elem_of_In in Hin.
  pose proof (find_none _ _ Hfind _ Hin) as Hnone. simpl in *.
  unfold applies in Hk. congruence.
Qed.

(** In a registry in descending order the root selected by the lookup has
    the greatest text among the roots that apply. *)
Lemma lookup_greatest name mounted r info k :
  descending mounted → lookup name mounted = Some (r, info) →
  k ∈ mounted.*1 → applies name k = true →
  String.le (_compare_root k) (_compare_root r).
Proof.
  intros Hdesc Hlook Hin Hk.
  destruct (lookup_split _ _ _ _ Hlook) as (Hr & l1 & l2 & -> & Hl1).
  unfold descending in Hdesc. rewrite fmap_app, fmap_cons in *.
  apply StronglySorted_app in Hdesc as (_ & _ & Hdesc).
  apply StronglySorted_cons in Hdesc as [Hlater _].
  apply elem_of_app in Hin as [Hin|Hin].
  - apply list_elem_of_fmap in Hin as ([k' v] & -> & Hin).
    rewrite Forall_forall in Hl1. specialize (Hl1 _ Hin). simpl in *.
    congruence.
  - apply elem_of_cons in Hin as [->|Hin]; [done|].
    rewrite Forall_forall in Hlater. by apply Hlater.
Qed.


(** Of two prefixes of one string, the shorter is a prefix of the longer. *)
Lemma prefix_of_prefixes a b n :
  String.prefix a n = true → String.prefix b n = true →
  (String.length a ≤ String.length b)%nat → String.prefix a b = true.
Proof.
  revert b n. induction a as [|c a IH]; intros b n Han Hbn Hlen.
  - apply prefix_empty.
  - destruct b as [|c' b]; [simpl in Hlen; lia|].
    destruct n as [|c'' n]; [discriminate|].
    apply prefix_cons in Han as [-> Han]. apply prefix_cons in Hbn as [-> Hbn].
    apply prefix_cons. split; [done|].
    apply (IH b n); [done..|]. simpl in Hlen. lia.
Qed.

(** C3 (amended). After any sequence of calls of [mount] and [get_instance]
    from the initial state, the lookup finds a root whenever one applies, and
    the root it selects is the applicable root whose text is greatest in
    string order. When that root is a literal string it is at least as long
    as every literal root that is a prefix of the path. In particular, once
    "dummy://sub/" is mounted, a path that starts with it never selects
    "dummy://", a literal root selected for it extends "dummy://sub/", and
    "dummy://sub/" itself is selected when the two dummy roots are the only
    roots that apply. *)
Theorem lookup_selects_longest_literal_root
    (calls : list (storage_manager.call)) (name : string) :
  let mounted := MOUNTED (run calls initial_state) in
  (∀ k, k ∈ mounted.*1 → applies name k = true →
        is_Some (lookup name mounted))
  ∧ ∀ r info, lookup name mounted = Some (r, info) →
      applies name r = true
      ∧ (∀ k, k ∈ mounted.*1 → applies name k = true →
              String.le (_compare_root k) (_compare_root r))
      ∧ (∀ s s0, r = Str s0 → Str s ∈ mounted.*1 →
                 String.prefix s name = true →
                 (String.length s ≤ String.length s0)%nat)
      ∧ (Str "dummy://sub/" ∈ mounted.*1 →
         String.prefix "dummy://sub/" name = true →
         r ≠ Str "dummy://"
         ∧ (∀ s0, r = Str s0 → String.prefix "dummy://sub/" s0 = true)
         ∧ ((∀ k, k ∈ mounted.*1 → applies name k = true →
                  k = Str "dummy://" ∨ k = Str "dummy://sub/") →
            r = Str "dummy://sub/")).
Proof.
  intros mounted.
  assert (descending mounted) as Hdesc.
  { apply run_descending. constructor. }
  split; [intros k; apply lookup_is_Some|].
  intros r info Hlook.
  pose proof (lookup_split _ _ _ _ Hlook) as [Hr _].
  pose proof (λ k, lookup_greatest name mounted r info k Hdesc Hlook)
    as Hgreat.
  assert (∀ s s0, r = Str s0 → Str s ∈ mounted.*1 →
                  String.prefix s name = true →
                  (String.length s ≤ String.length s0)%nat) as Hlong.
  { intros s s0 -> Hin Hs.
    apply (prefix_leb_length s0 s name); [exact Hr|exact Hs|].
    apply Is_true_true. exact (Hgreat (Str s) Hin Hs). }
  split_and!; [done..|].
  intros Hin Hsub.
  assert (∀ s0, r = Str s0 → String.prefix "dummy://sub/" s0 = true)
    as Hext.
  { intros s0 ->. apply (prefix_of_prefixes _ _ name); [done| exact Hr|].
    by apply (Hlong _ s0 eq_refl Hin). }
  assert (r ≠ Str "dummy://") as Hne.
  { intros ->. by specialize (Hext _ eq_refl). }
  split_and!; [done..|]. intros Honly.
  destruct (lookup_split _ _ _ _ Hlook) as (_ & l1 & l2 & Hsplit & _).
  destruct (Honly r) as [->| ->]; [|done..].
  fold mounted in Hsplit. rewrite Hsplit, fmap_app, fmap_cons.
  apply elem_of_app. right. left.
Qed.

End registry_order.

Section registry_order_examples.
Import storage_manager samples.

Lemma lookup_selects_longest_literal_root_witness :
  ∃ info,
    lookup re_match_optional "dummy://sub/file" (MOUNTED dummy_mounted)
    = Some (Str "dummy://sub/", info)
    ∧ (MOUNTED dummy_mounted).*1 = [Str "dummy://sub/"; Str "dummy://"]
    ∧ (String.length "dummy://" ≤ String.length "dummy://sub/")%nat
    ∧ Str "dummy://sub/" ≠ Str "dummy://".
Proof.
  assert (∃ info,
            lookup re_match_optional "dummy://sub/file" (MOUNTED dummy_mounted)
            = Some (Str "dummy://sub/", info)) as [info Hlook]
    by (eexists; vm_compute; reflexivity).
  assert ((MOUNTED dummy_mounted).*1 = [Str "dummy://sub/"; Str "dummy://"])
    as Hkeys by (vm_compute; reflexivity).
  exists info. split; [exact Hlook|]. split; [exact Hkeys|].
  destruct (lookup_selects_longest_literal_root re_match_optional
              sample_has_module sample_roots
              [call_mount (Some "dummy") "" None PyNone PyNone;
               call_mount (Some "dummy_sub") "" None PyNone PyNone]
              "dummy://sub/file") as [_ Hsel].
  destruct (Hsel (Str "dummy://sub/") info Hlook) as (_ & _ & Hlong & Hdummy).
  split.
  - apply (Hlong "dummy://" "dummy://sub/" eq_refl); [|reflexivity].
    change (Str "dummy://" ∈ (MOUNTED dummy_mounted).*1).
    rewrite Hkeys. apply list_elem_of_In. simpl. tauto.
  - apply Hdummy; [|reflexivity].
    change (Str "dummy://sub/" ∈ (MOUNTED dummy_mounted).*1).
    rewrite Hkeys. apply list_elem_of_In. simpl. tauto.
Defined.

(** C3, as stated, fails when a pattern root applies: with the HTTP storage
    (root pattern "https?://") and a storage rooted at the literal
    "https://www.mycloud.com/user/" both mounted, the pattern sorts first
    ('?' is greater than ':') and the lookup selects it, although the literal
    root applies too and is the longer and more specific one. *)
Lemma lookup_prefers_pattern_over_longer_literal :
  (MOUNTED http_mounted).*1
  = [Str "mycloud://"; Pattern "https?://";
     Str "https://www.mycloud.com/user/"]
  ∧ fst <$> lookup re_match_optional "https://www.mycloud.com/user/object"
              (MOUNTED http_mounted)
    = Some (Pattern "https?://")
  ∧ applies re_match_optional "https://www.mycloud.com/user/object"
      (Str "https://www.mycloud.com/user/") = true
  ∧ (String.length (_compare_root (Pattern "https?://"))
     < String.length (_compare_root (Str "https://www.mycloud.com/user/")))%nat.
Proof. vm_compute. repeat split; lia. Qed.

End registry_order_examples.

Section mount_properties.
Import storage_manager.
Variable re_match : string → string → bool.
Variable has_module : string → bool.
Variable new_system_roots :
  string → option (list root) → dict → list root.

Let mount := mount has_module new_system_roots.
Let get_instance := get_instance re_match has_module new_system_roots.
Let lookup := lookup re_match.

Lemma split_scheme_cons c name :
  split_scheme (String c name)
  = if String.prefix "://" (String c name) then Some ""
    else String c <$> split_scheme name.
Proof. reflexivity. Qed.

Lemma split_scheme_Some name scheme :
  split_scheme name = Some scheme →
  ∃ rest, name = scheme +:+ "://" +:+ rest.
Proof.
  revert scheme. induction name as [|c name IH]; intros scheme; [done|].
  rewrite split_scheme_cons.
  destruct (String.prefix "://" (String c name)) eqn:Hp.
  - intros [= <-]. destruct (prefix_inv _ _ Hp) as [rest ->]. by exists rest.
  - destruct (split_scheme name) as [scheme'|]; [|done].
    intros [= <-]. destruct (IH scheme' eq_refl) as [rest ->].
    by exists rest.
Qed.

Lemma split_scheme_None name scheme rest :
  split_scheme name = None → name ≠ scheme +:+ "://" +:+ rest.
Proof.
  revert scheme. induction name as [|c name IH]; intros scheme.
  - intros _. destruct scheme; discriminate.
  - rewrite split_scheme_cons.
    destruct (String.prefix "://" (String c name)) eqn:Hp; [done|].
    destruct (split_scheme name) eqn:Hname; [done|]. intros _ Heq.
    destruct scheme as [|c' scheme].
    + rewrite Heq in Hp. simpl in Hp.
      repeat (destruct (ascii_dec _ _); [|done]). by destruct rest.
    + injection Heq as -> Heq. by apply (IH scheme).
Qed.

Lemma split_scheme_first scheme rest :
  (∀ a b, scheme ≠ a +:+ "://" +:+ b) →
  split_scheme (scheme +:+ "://" +:+ rest) = Some scheme.
Proof.
  induction scheme as [|c scheme IH]; intros Hfree.
  - simpl. repeat (destruct (ascii_dec _ _); [|done]). by destruct rest.
  - change (String c scheme +:+ "://" +:+ rest)
      with (String c (scheme +:+ "://" +:+ rest)).
    rewrite split_scheme_cons.
    destruct (String.prefix "://" (String c (scheme +:+ "://" +:+ rest)))
      eqn:Hp.
    + exfalso. apply prefix_cons in Hp as [<- Hp].
      destruct scheme as [|c2 scheme]; [by apply prefix_cons in Hp as [? _]|].
      apply prefix_cons in Hp as [<- Hp].
      destruct scheme as [|c3 scheme]; [by apply prefix_cons in Hp as [? _]|].
      apply prefix_cons in Hp as [<- _].
      by apply (Hfree "" scheme).
    + rewrite IH; [done|]. intros a b ->. by apply (Hfree (String c a) b).
Qed.

Lemma update_missing_lookup (given stored : dict) key :
  update_missing given stored !! key
  = match given !! key with
    | Some v => Some v
    | None => stored !! key
    end.
Proof.
  unfold update_missing. rewrite lookup_union.
  destruct (given !! key) as [v|] eqn:Hgiven.
  - rewrite map_lookup_filter_None_2; [done|].
    right. intros v' _. simpl. by rewrite Hgiven.
  - destruct (stored !! key) as [v'|] eqn:Hstored.
    + erewrite map_lookup_filter_Some_2; [done..|]. done.
    + rewrite map_lookup_filter_None_2; [done|]. by left.
Qed.

(** C2. For a path served by a mounted root: a call that gives no
    configuration, or one equal to the stored configuration, returns the
    address of the cached system object and changes nothing. A call that
    gives a different configuration returns the address of a new object,
    built from the class and roots of the mount with the given keys, plus
    the stored value of every key that was not given; the registry and every
    object already in the heap, the cached one included, stay as they were. *)
Theorem get_instance_reuses_or_rebuilds (name : string)
    (storage : option string) (storage_parameters unsecure : pyvalue)
    (st : state) (root : root) (info : storage_info) :
  lookup name (MOUNTED st) = Some (root, info) →
  let given :=
    _system_parameters
      (<["unsecure" := unsecure]>
         (<["storage_parameters" := storage_parameters]> ∅)) in
  let stored := system_parameters info in
  get_instance name storage PyNone PyNone st = (ret (system_cached info), st)
  ∧ (given = ∅ ∨ given = stored →
     get_instance name storage storage_parameters unsecure st
     = (ret (system_cached info), st))
  ∧ (given ≠ ∅ → given ≠ stored →
     ∃ fresh,
       get_instance name storage storage_parameters unsecure st
       = (ret (length (heap st)),
          {| MOUNTED := MOUNTED st; heap := heap st ++ [fresh] |})
       ∧ heap st !! length (heap st) = None
       ∧ (is_Some (heap st !! system_cached info) →
          length (heap st) ≠ system_cached info)
       ∧ sys_class fresh = system info
       ∧ sys_roots_kwarg fresh = Some (roots info)
       ∧ (∀ key v, given !! key = Some v →
                   sys_kwargs fresh !! key = Some v)
       ∧ (∀ key, given !! key = None →
                 sys_kwargs fresh !! key = stored !! key)
       ∧ (∀ address o, heap st !! address = Some o →
                       (heap st ++ [fresh]) !! address = Some o)).
Proof.
  intros Hlook given stored. unfold lookup in Hlook.
  unfold get_instance, storage_manager.get_instance. rewrite Hlook.
  fold given. unfold get_system_parameters. fold stored.
  split_and!.
  - by rewrite decide_True by (by vm_compute).
  - intros [Hempty|Hsame].
    + by rewrite decide_True.
    + case_decide; [done|]. by rewrite decide_True.
  - intros Hne Hdiff. rewrite !decide_False by done.
    eexists. split; [reflexivity|]. simpl. split_and!.
    + by apply lookup_ge_None_2.
    + intros [o Ho] Heq. apply lookup_lt_Some in Ho. lia.
    + done.
    + done.
    + intros key v Hkey. by rewrite update_missing_lookup, Hkey.
    + intros key Hkey. by rewrite update_missing_lookup, Hkey.
    + intros address o Ho. by apply lookup_app_l_Some.
Qed.


Lemma system_parameters_lookup (kwargs : dict) key v :
  _system_parameters kwargs !! key = Some v
  ↔ kwargs !! key = Some v ∧ v ≠ PyNone.
Proof.
  unfold _system_parameters. rewrite map_lookup_filter_Some. simpl.
  split; intros [Hk Hv]; (split; [done|]); [|by left].
  destruct Hv as [Hv| ->]; done.
Qed.

Lemma system_parameters_insert_None (kwargs : dict) key :
  _system_parameters (<[key := PyNone]> kwargs)
  = _system_parameters (delete key kwargs).
Proof.
  unfold _system_parameters. apply map_filter_insert_False.
  simpl. intros [Hv|Hv]; done.
Qed.

Lemma kwarg_insert_None (kwargs : dict) key key' :
  kwarg (<[key := PyNone]> kwargs) key' = kwarg (delete key kwargs) key'.
Proof.
  unfold kwarg. destruct (decide (key = key')) as [->|Hne].
  - by rewrite lookup_insert_eq, lookup_delete_eq.
  - by rewrite lookup_insert_ne, lookup_delete_ne.
Qed.

(** C10. [_system_parameters] keeps exactly the arguments that are not
    [None]; a keyword passed as [None] is bound like an omitted one, in
    [get_instance] and in [mount]; the configuration [mount] stores holds no
    [None]; what [get_instance] does depends on its two arguments only
    through the filtered dictionary; and a call whose arguments are all
    [None] returns the cached system of the root that serves the path with
    the state unchanged, or mounts the storage when no root serves it. *)
Theorem none_parameters_are_omitted :
  (∀ (kwargs : dict) key v,
     _system_parameters kwargs !! key = Some v
     ↔ kwargs !! key = Some v ∧ v ≠ PyNone)
  ∧ (∀ (kwargs : dict) key,
       _system_parameters (<[key := PyNone]> kwargs)
       = _system_parameters (delete key kwargs))
  ∧ (∀ name storage (kwargs : dict) key st,
       keyword_call (get_instance name storage) (<[key := PyNone]> kwargs) st
       = keyword_call (get_instance name storage) (delete key kwargs) st)
  ∧ (∀ storage name extra_root (kwargs : dict) key st,
       keyword_call (mount storage name extra_root)
         (<[key := PyNone]> kwargs) st
       = keyword_call (mount storage name extra_root) (delete key kwargs) st)
  ∧ (∀ storage name extra_root storage_parameters unsecure st info st' key,
       mount storage name extra_root storage_parameters unsecure st
       = (ret info, st') →
       system_parameters info !! key ≠ Some PyNone)
  ∧ (∀ name storage sp un sp' un' st,
       _system_parameters
         (<["unsecure" := un]> (<["storage_parameters" := sp]> ∅))
       = _system_parameters
           (<["unsecure" := un']> (<["storage_parameters" := sp']> ∅)) →
       get_instance name storage sp un st
       = get_instance name storage sp' un' st)
  ∧ (∀ name storage st,
       get_instance name storage PyNone PyNone st
       = match lookup name (MOUNTED st) with
         | Some (_, info) => (ret (system_cached info), st)
         | None =>
             match mount storage name None PyNone PyNone st with
             | (inl e, st') => (raise e, st')
             | (inr info, st') => (ret (system_cached info), st')
             end
         end).
Proof.
  split_and!.
  - apply system_parameters_lookup.
  - apply system_parameters_insert_None.
  - intros. unfold keyword_call. by rewrite !kwarg_insert_None.
  - intros. unfold keyword_call. by rewrite !kwarg_insert_None.
  - intros storage name extra_root sp un st info st' key Hmount Hkey.
    unfold mount, storage_manager.mount in Hmount.
    destruct (infer_storage storage name) as [e|storage']; [done|].
    destruct (has_module storage'); simpl in Hmount; [|done].
    injection Hmount as <- _. simpl in Hkey.
    by apply system_parameters_lookup in Hkey as [_ ?].
  - intros name storage sp un sp' un' st Heq.
    unfold get_instance, storage_manager.get_instance. by rewrite Heq.
  - intros name storage st.
    unfold get_instance, storage_manager.get_instance, lookup.
    destruct (storage_manager.lookup re_match name (MOUNTED st))
      as [[r info]|]; [by rewrite decide_True by (by vm_compute)|].
    reflexivity.
Qed.

End mount_properties.

Section mount_examples.
Import storage_manager samples.

Lemma http_mounted_lookup_mycloud :
  lookup re_match_optional "mycloud://object" (MOUNTED http_mounted)
  = Some (Str "mycloud://", mycloud_info).
Proof. vm_compute. reflexivity. Qed.

Lemma other_account_given :
  let given :=
    _system_parameters
      (<["unsecure" := PyNone]> (<["storage_parameters" := other_account]> ∅))
  in
  given ≠ ∅ ∧ given ≠ system_parameters mycloud_info
  ∧ given !! "storage_parameters" = Some other_account
  ∧ given !! "unsecure" = None.
Proof.
  intros given. split_and!; [| |vm_compute; reflexivity..].
  - intros Hempty. apply (f_equal (.!! "storage_parameters")) in Hempty.
    vm_compute in Hempty. discriminate.
  - intros Hsame. apply (f_equal (.!! "unsecure")) in Hsame.
    vm_compute in Hsame. discriminate.
Qed.

Lemma get_instance_reuses_or_rebuilds_witness :
  sample_get_instance "mycloud://object" None PyNone PyNone http_mounted
  = (ret 1%nat, http_mounted)
  ∧ sample_get_instance "mycloud://object" None
      (PyDict {["account" := AStr "user"]}) (PyBool true) http_mounted
    = (ret 1%nat, http_mounted)
  ∧ ∃ fresh,
      sample_get_instance "mycloud://object" None other_account PyNone
        http_mounted
      = (ret 2%nat, {| MOUNTED := MOUNTED http_mounted;
                       heap := heap http_mounted ++ [fresh] |})
      ∧ sys_kwargs fresh !! "storage_parameters" = Some other_account
      ∧ sys_kwargs fresh !! "unsecure" = Some (PyBool true).
Proof.
  pose proof (λ storage_parameters unsecure,
                get_instance_reuses_or_rebuilds re_match_optional
                  sample_has_module sample_roots "mycloud://object" None
                  storage_parameters unsecure http_mounted _ _
                  http_mounted_lookup_mycloud) as Hget.
  destruct other_account_given as (Hne & Hdiff & Hgiven & Hmissing).
  split; [|split].
  - exact (proj1 (Hget PyNone PyNone)).
  - apply (proj1 (proj2 (Hget (PyDict {["account" := AStr "user"]})
                           (PyBool true)))).
    right. reflexivity.
  - destruct (proj2 (proj2 (Hget other_account PyNone)) Hne Hdiff)
      as (fresh & Hfresh & _ & _ & _ & _ & Hkeys & Hkept & _).
    exists fresh. split; [exact Hfresh|]. split.
    + exact (Hkeys _ _ Hgiven).
    + rewrite (Hkept _ Hmissing). vm_compute. reflexivity.
Defined.

End mount_examples.

(** ** Azure blobs: the raw range read *)

Section raw_read.
Import io_base azure_base_blob.
Variable content : bytes.
Variable get_blob_to_stream : Z → option Z → result bytes.
Hypothesis Hserves : serves content get_blob_to_stream.

Abbreviation _read_range := (_read_range get_blob_to_stream).
Abbreviation readinto := (readinto get_blob_to_stream).
Abbreviation readinto_each := (readinto_each get_blob_to_stream).

Lemma slice_past_end start stop :
  (Z.of_nat (length content) ≤ start)%Z → slice start stop content = [].
Proof.
  intros Hpast. unfold slice. rewrite drop_ge by lia. apply take_nil.
Qed.

Lemma length_slice start stop :
  (0 ≤ start)%Z →
  Z.of_nat (length (slice start stop content))
  = Z.max 0 (Z.min stop (Z.of_nat (length content)) - start).
Proof.
  intros Hstart. unfold slice. rewrite length_take, length_drop. lia.
Qed.

Lemma read_range_served start end_ :
  (0 ≤ start)%Z →
  _read_range start end_
  = ret (slice start
           (if (end_ =? 0)%Z then Z.of_nat (length content) else end_)
           content).
Proof.
  intros Hstart. unfold azure_base_blob._read_range.
  rewrite (Hserves _ _ Hstart). unfold blob_range.
  destruct (Z.leb_spec (Z.of_nat (length content)) start) as [Hpast|Hin].
  - simpl. by rewrite slice_past_end.
  - simpl. destruct (end_ =? 0)%Z; [done|].
    by replace (end_ - 1 + 1)%Z with end_ by lia.
Qed.

Lemma readinto_served b self :
  (0 ≤ _seek self)%Z → b ≠ [] →
  let read_data :=
    slice (_seek self) (_seek self + Z.of_nat (length b)) content in
  readinto b self
  = (ret (Z.of_nat (length read_data), read_data ++ drop (length read_data) b),
     {| _name := _name self; _mode := _mode self; _cache := _cache self;
        _seek := _seek self + Z.of_nat (length read_data);
        _writable := _writable self; _readable := _readable self;
        _seekable := _seekable self |}).
Proof.
  intros Hseek Hb read_data. unfold azure_base_blob.readinto.
  rewrite read_range_served by done.
  destruct (Z.eqb_spec (_seek self + Z.of_nat (length b)) 0) as [Hzero|_].
  - destruct b; [done|]. simpl in Hzero. lia.
  - done.
Qed.


Lemma readinto_step b self pos n :
  _seek self = pos → (0 ≤ pos)%Z → b ≠ [] →
  Z.of_nat n
  = Z.max 0 (Z.min (pos + Z.of_nat (length b)) (Z.of_nat (length content))
             - pos) →
  readinto b self
  = (ret (Z.of_nat n,
          slice pos (pos + Z.of_nat (length b)) content ++ drop n b),
     {| _name := _name self; _mode := _mode self; _cache := _cache self;
        _seek := pos + Z.of_nat n;
        _writable := _writable self; _readable := _readable self;
        _seekable := _seekable self |}).
Proof.
  intros <- Hpos Hb Hn. rewrite readinto_served by done. cbv zeta.
  assert (length (slice (_seek self)
                    (_seek self + Z.of_nat (length b)) content) = n) as ->.
  { apply Nat2Z.inj. by rewrite length_slice. }
  done.
Qed.

Lemma sample_reads name mode self :
  __init__ name mode = ret self →
  length content = 100%nat →
  readinto_each (replicate 4 (bytearray 40)) self
  = [(ret (40%Z, take 40 content), ret 40%Z);
     (ret (40%Z, slice 40 80 content), ret 80%Z);
     (ret (20%Z, drop 80 content ++ bytearray 20), ret 100%Z);
     (ret (0%Z, bytearray 40), ret 100%Z)].
Proof.
  intros Hinit Hlen.
  assert (_seek self = 0%Z ∧ _seekable self = true) as [Hseek Hseekable].
  { destruct (init_inv _ _ _ Hinit) as (Hacc & _ & _ & Hs).
    destruct (init_accepted name mode Hacc) as (o & Ho & _ & _ & _ & Hz & _).
    rewrite Hinit in Ho. injection Ho as <-. done. }
  destruct self as [n m c pos w r sk]. simpl in Hseek, Hseekable. subst pos sk.
  simpl replicate. cbn [azure_base_blob.readinto_each].
  rewrite (readinto_step _ _ 0 40) by (rewrite ?Hlen; done).
  rewrite (readinto_step _ _ 40 40) by (rewrite ?Hlen; done).
  rewrite (readinto_step _ _ 80 20) by (rewrite ?Hlen; done).
  rewrite (readinto_step _ _ 100 0) by (rewrite ?Hlen; done).
  cbn [_seek _seekable tell negb _name _mode _cache _writable _readable].
  assert (slice 80 (80 + Z.of_nat (length (bytearray 40))) content
          = drop 80 content) as ->.
  { unfold slice. apply take_ge. rewrite length_drop, Hlen. simpl. lia. }
  assert (slice 100 (100 + Z.of_nat (length (bytearray 40))) content = [])
    as ->.
  { apply slice_past_end. rewrite Hlen. done. }
  change (drop 40 (bytearray 40)) with (@nil Byte.byte).
  rewrite !app_nil_r. reflexivity.
Qed.

(** C7. With a client that serves a blob of [size] bytes: a range read that
    starts at or after [size] returns no byte and raises nothing; one that
    starts inside the blob and ends after it returns the bytes up to the end
    of the blob, fewer than requested; [readinto] at or after the end
    returns 0 and leaves buffer and position as they were. On a blob of 100
    bytes four [readinto] calls with buffers of 40 bytes return 40, 40, 20
    and 0, and [tell] gives 40, 80, 100 and 100 after them. *)
Theorem read_past_end_returns_fewer_bytes :
  let size := Z.of_nat (length content) in
  (∀ start end_, (size ≤ start)%Z → _read_range start end_ = ret [])
  ∧ (∀ start end_, (0 ≤ start < size)%Z → (size < end_)%Z →
       _read_range start end_ = ret (drop (Z.to_nat start) content)
       ∧ Z.of_nat (length (drop (Z.to_nat start) content)) = (size - start)%Z
       ∧ (size - start < end_ - start)%Z)
  ∧ (∀ b self, (size ≤ _seek self)%Z → b ≠ [] →
       readinto b self = (ret (0%Z, b), self))
  ∧ (∀ name mode self,
       __init__ name mode = ret self →
       length content = 100%nat →
       readinto_each (replicate 4 (bytearray 40)) self
       = [(ret (40%Z, take 40 content), ret 40%Z);
          (ret (40%Z, slice 40 80 content), ret 80%Z);
          (ret (20%Z, drop 80 content ++ bytearray 20), ret 100%Z);
          (ret (0%Z, bytearray 40), ret 100%Z)]).
Proof.
  intros size. split_and!.
  - intros start end_ Hpast. rewrite read_range_served by lia.
    by rewrite slice_past_end.
  - intros start end_ [Hstart Hin] Hend. rewrite read_range_served by done.
    destruct (Z.eqb_spec end_ 0) as [->|_]; [lia|]. split_and!.
    + f_equal. unfold slice. apply take_ge. rewrite length_drop. lia.
    + rewrite length_drop. lia.
    + lia.
  - intros b self Hpast Hb.
    rewrite (readinto_step b self (_seek self) 0) by (done || lia).
    rewrite slice_past_end by done. simpl.
    destruct self; simpl; repeat f_equal; lia.
  - apply sample_reads.
Qed.

End raw_read.

Section raw_read_examples.
Import io_base azure_base_blob samples.

Lemma read_past_end_returns_fewer_bytes_witness :
  _read_range (blob_range sample_blob) 100 140 = ret []
  ∧ _read_range (blob_range sample_blob) 80 120 = ret (replicate 20 Byte.x62)
  ∧ readinto_each (blob_range sample_blob) (replicate 4 (bytearray 40))
      sample_stream
    = [(ret (40%Z, replicate 40 Byte.x61), ret 40%Z);
       (ret (40%Z, replicate 40 Byte.x61), ret 80%Z);
       (ret (20%Z, replicate 20 Byte.x62 ++ bytearray 20), ret 100%Z);
       (ret (0%Z, bytearray 40), ret 100%Z)].
Proof.
  assert (serves sample_blob (blob_range sample_blob)) as Hserves
    by (intros start_range end_range _; reflexivity).
  destruct (read_past_end_returns_fewer_bytes sample_blob
              (blob_range sample_blob) Hserves)
    as (Hpast & Hshort & _ & Hsample).
  split; [|split].
  - apply Hpast. simpl. lia.
  - apply (Hshort 80%Z 120%Z); simpl; lia.
  - exact (Hsample "obj" "r" sample_stream eq_refl eq_refl).
Defined.

End raw_read_examples.

(** ** Azure block blobs: flushing and closing a written stream *)

Section block_blob_properties.
Import azure_base_blob azure_block_blob.
Variable random_index : nat → nat.
Variable put_block_error : nat → option exception.
Variable committed_blocks : result (list BlobBlock).
Variable put_block_list_error : option exception.

Abbreviation nth_block_id := (nth_block_id random_index).
Abbreviation blocks_of := (blocks_of random_index).
Abbreviation pool_of := (pool_of random_index put_block_error).
Abbreviation world_of := (world_of random_index put_block_error).
Abbreviation uploaded := (uploaded put_block_error).
Abbreviation uploads_of := (uploads_of random_index).
Abbreviation commits_ok :=
  (commits_ok random_index put_block_error committed_blocks).
Abbreviation raises_first_error := (raises_first_error put_block_error).
Abbreviation reachable :=
  (reachable random_index put_block_error committed_blocks).
Abbreviation uploads := (uploads random_index).
Abbreviation flush_upload_close :=
  (flush_upload_close random_index put_block_error committed_blocks
     put_block_list_error).
Abbreviation block_ids := (block_ids random_index).
Abbreviation answer := (answer put_block_error).
Abbreviation _flush := (_flush random_index).
Abbreviation run_task := (run_task put_block_error).
Abbreviation _close_writable :=
  (_close_writable committed_blocks put_block_list_error).
Abbreviation step :=
  (step random_index put_block_error committed_blocks put_block_list_error).
Abbreviation run :=
  (run random_index put_block_error committed_blocks put_block_list_error).

Lemma pool_of_lookup flushed done i :
  pool_of flushed done !! i
  = (λ buffer, {| block := buffer; block_id := nth_block_id i;
                  outcome := if done i then Some (answer i) else None |})
    <$> flushed !! i.
Proof. unfold azure_block_blob.pool_of. by rewrite list_lookup_imap. Qed.

Lemma pool_of_length flushed done :
  length (pool_of flushed done) = length flushed.
Proof. unfold azure_block_blob.pool_of. by rewrite length_imap. Qed.

Lemma pool_of_ext flushed done done' :
  (∀ i, (i < length flushed)%nat → done i = done' i) →
  pool_of flushed done = pool_of flushed done'.
Proof.
  intros Hext. apply list_eq. intros i. rewrite !pool_of_lookup.
  destruct (flushed !! i) as [buffer|] eqn:Hi; [|done]. simpl.
  by rewrite (Hext i) by (by eapply lookup_lt_Some).
Qed.

Lemma flush_world_of flushed done buffer cs :
  done (length flushed) = false →
  _flush buffer (world_of flushed done cs)
  = world_of (flushed ++ [buffer]) done cs.
Proof.
  intros Hnew. unfold azure_block_blob._flush, azure_block_blob.world_of.
  cbn [self _workers drawn calls _write_futures _blocks].
  rewrite pool_of_length, length_app. cbn [length].
  replace (length flushed + 1)%nat with (S (length flushed)) by lia.
  unfold azure_block_blob.blocks_of, azure_block_blob.block_ids,
    azure_block_blob.pool_of.
  rewrite seq_S, !fmap_app, imap_app. cbn [imap fmap list_fmap Nat.add].
  rewrite Nat.add_0_r, Hnew.
  unfold azure_block_blob.nth_block_id.
  replace (32 * S (length flushed))%nat with (32 * length flushed + 32)%nat
    by lia.
  reflexivity.
Qed.

Lemma run_task_world_of flushed done cs h buffer :
  flushed !! h = Some buffer → done h = false →
  run_task h (world_of flushed done cs)
  = world_of flushed (λ i, done i || bool_decide (i = h))
      (cs ++ [put_block buffer (nth_block_id h)]).
Proof.
  intros Hh Hpending.
  unfold azure_block_blob.run_task, azure_block_blob.world_of.
  cbn [self _workers drawn calls].
  rewrite pool_of_lookup, Hh.
  cbn [fmap option_fmap option_map outcome block block_id].
  rewrite Hpending. f_equal.
  apply list_eq. intros i. rewrite pool_of_lookup.
  destruct (decide (i = h)) as [->|Hne].
  - rewrite list_lookup_insert_eq
      by (rewrite pool_of_length; by eapply lookup_lt_Some).
    rewrite Hh. cbn [fmap option_fmap option_map].
    by rewrite bool_decide_true, orb_true_r.
  - rewrite list_lookup_insert_ne, pool_of_lookup by done.
    by rewrite bool_decide_false, orb_false_r.
Qed.

Lemma run_task_done flushed done cs h :
  (flushed !! h = None ∨ done h = true) →
  run_task h (world_of flushed done cs) = world_of flushed done cs.
Proof.
  intros Hh. unfold azure_block_blob.run_task.
  cbn [azure_block_blob.world_of _workers]. rewrite pool_of_lookup.
  destruct (flushed !! h) as [buffer|]; [|done].
  cbn [fmap option_fmap option_map outcome].
  destruct Hh as [?| ->]; done.
Qed.

(** What the loop over the futures does, by cases: it goes through when all
    uploads succeeded, raises the error of the first future that failed
    when those before it succeeded, and is blocked at the first future that
    has not run. *)
Lemma wait_cases a n flushed done cs :
  (a + n ≤ length flushed)%nat →
  match wait (seq a n) (world_of flushed done cs) with
  | Some (inr _) => uploaded done a (a + n)
  | Some (inl e) =>
      ∃ h, (a ≤ h < a + n)%nat ∧ uploaded done a h
           ∧ done h = true ∧ put_block_error h = Some e
  | None =>
      ∃ h, (a ≤ h < a + n)%nat ∧ uploaded done a h ∧ done h = false
  end.
Proof.
  revert a. induction n as [|n IH]; intros a Hlen.
  - intros i Hi. lia.
  - cbn [seq wait azure_block_blob.world_of _workers]. rewrite pool_of_lookup.
    destruct (lookup_lt_is_Some_2 flushed a) as [buffer Ha]; [lia|].
    rewrite Ha. cbn [fmap option_fmap option_map mbind option_bind outcome].
    assert (uploaded done a a) as Hnone by (intros i Hi; lia).
    destruct (done a) eqn:Hdone; [|exists a; split; [lia|by split]].
    unfold azure_block_blob.answer.
    destruct (put_block_error a) as [e|] eqn:Herr;
      [exists a; split; [lia|by split_and!]|].
    fold (world_of flushed done cs).
    specialize (IH (S a) ltac:(lia)).
    assert (∀ b, uploaded done (S a) b → uploaded done a b) as Hext.
    { intros b Hb i Hi. destruct (decide (i = a)) as [->|Hne]; [done|].
      apply Hb. lia. }
    destruct (wait (seq (S a) n) (world_of flushed done cs)) as [[e|[]]|].
    + destruct IH as (h & Hh & Hbefore & Hrun & He).
      exists h. split; [lia|]. split_and!; [by apply Hext|done..].
    + replace (a + S n)%nat with (S a + n)%nat by lia. by apply Hext.
    + destruct IH as (h & Hh & Hbefore & Hrun).
      exists h. split; [lia|]. split; [by apply Hext|done].
Qed.

Lemma close_world_of flushed done cs :
  _close_writable (world_of flushed done cs)
  = match wait (seq 0 (length flushed)) (world_of flushed done cs) with
    | None => None
    | Some (inl e) => Some (raise e, world_of flushed done cs)
    | Some (inr _) =>
        match committed_blocks with
        | inl e =>
            Some (raise e, world_of flushed done (cs ++ [get_block_list]))
        | inr committed =>
            Some (match put_block_list_error with
                  | Some e => raise e
                  | None => ret ()
                  end,
                  world_of flushed done
                    (cs ++ [get_block_list;
                            put_block_list
                              (committed ++ blocks_of (length flushed))]))
        end
    end.
Proof.
  unfold azure_block_blob._close_writable.
  cbn [azure_block_blob.world_of self _write_futures _blocks _workers drawn
         calls].
  fold (world_of flushed done cs).
  destruct (wait _ _) as [[e|[]]|]; [done| |done].
  destruct committed_blocks as [e|committed]; [done|].
  unfold azure_block_blob.world_of. rewrite <- app_assoc.
  by destruct put_block_list_error.
Qed.

Lemma reachable_open buffers : reachable buffers (open_stream buffers).
Proof.
  exists 0%nat, (λ _, false), []. split; [done|]. split; [lia|].
  split; [done|]. split.
  - intros buffer block_id Hin. by apply elem_of_nil in Hin.
  - split; [done|]. split; [|intros bl]; apply not_elem_of_nil.
Qed.

Lemma commit_free_snoc_upload cs buffer block_id :
  commit_free cs → commit_free (cs ++ [put_block buffer block_id]).
Proof.
  intros [Hget Hput]. split.
  - intros [Hin|Hin%list_elem_of_singleton]%elem_of_app; [by apply Hget|done].
  - intros bl [Hin|Hin%list_elem_of_singleton]%elem_of_app;
      [by apply (Hput bl)|done].
Qed.

Lemma uploaded_mono done done' a b :
  (∀ i, done i = true → done' i = true) →
  uploaded done a b → uploaded done' a b.
Proof. intros Hmono Hup i Hi. destruct (Hup i Hi). auto. Qed.

Lemma reachable_step buffers s t :
  reachable buffers s → reachable buffers (step s t).
Proof.
  intros (k & done & cs & Hstate & Hk & Hpending & Huploads & Hmain).
  destruct s as [w m]. simpl in Hstate, Hmain. subst w.
  assert (length (take k buffers) = k) as Hlen by (rewrite length_take; lia).
  destruct t as [|h]; cbn [azure_block_blob.step state main].
  - destruct m as [[|buffer rest]|r].
    + (* the writer closes the stream *)
      destruct Hmain as [Hrest [Hnoget Hnoput]].
      assert (k = length buffers) as ->.
      { symmetry in Hrest. apply drop_nil_inv in Hrest. lia. }
      rewrite close_world_of, Hlen.
      pose proof (wait_cases 0 (length buffers)
                    (take (length buffers) buffers) done cs) as Hwait.
      rewrite Hlen in Hwait. specialize (Hwait ltac:(lia)).
      destruct (wait _ _) as [[e|[]]|].
      * (* an upload failed *)
        destruct Hwait as (h & Hh & Hbefore & Hrun & He).
        exists (length buffers), done, cs. split_and!; try done.
        cbn [main]. split_and!; try done.
        -- split; [by intros ?|]. intros bl Hin. by destruct (Hnoput bl).
        -- intros i e' Hi Hie Hfirst.
           destruct (Nat.lt_trichotomy i h) as [Hlt|[->|Hgt]].
           ++ destruct (Hbefore i ltac:(lia)) as [_ Hnone]. congruence.
           ++ congruence.
           ++ rewrite (Hfirst h Hgt) in He. discriminate.
      * (* every upload succeeded *)
        simpl in Hwait.
        assert (¬ ∃ i, (i < length buffers)%nat
                       ∧ put_block_error i ≠ None) as Hnoerr.
        { intros (i & Hi & Herr). by destruct (Hwait i ltac:(lia)). }
        assert (raises_first_error (length buffers)
                  (match put_block_list_error with
                   | Some e => raise e
                   | None => ret ()
                   end)) as Hfirst.
        { intros i e Hi Herr _. destruct Hnoerr. exists i. by rewrite Herr. }
        destruct committed_blocks as [e|committed] eqn:Hcommitted.
        -- exists (length buffers), done, (cs ++ [get_block_list]).
           split_and!; try done.
           ++ intros buffer block_id
                [Hin|Hin%list_elem_of_singleton]%elem_of_app; [|done].
              by apply Huploads.
           ++ cbn [main]. split_and!; try done.
              ** split; [done|]. intros bl
                   [Hin|Hin%list_elem_of_singleton]%elem_of_app; [|done].
                 by destruct (Hnoput bl).
              ** intros i e' Hi Herr _. destruct Hnoerr. exists i.
                 by rewrite Herr.
        -- exists (length buffers), done,
             (cs ++ [get_block_list;
                     put_block_list
                       (committed ++ blocks_of (length buffers))]).
           split_and!; try done.
           ++ intros buffer block_id
                [Hin|Hin]%elem_of_app; [by apply Huploads|].
              apply elem_of_cons in Hin as [?|Hin]; [done|].
              by apply list_elem_of_singleton in Hin.
           ++ cbn [main]. split_and!; try done.
              split; [done|]. intros bl [Hin|Hin]%elem_of_app;
                [by destruct (Hnoput bl)|].
              apply elem_of_cons in Hin as [?|Hin]; [done|].
              apply list_elem_of_singleton in Hin as [= ->].
              split; [done|]. by exists committed.
      * (* the writer waits for a future *)
        exists (length buffers), done, cs. split_and!; try done.
    + (* the writer flushes a buffer *)
      destruct Hmain as [Hrest Hfree].
      assert (buffers !! k = Some buffer) as Hbuffer.
      { rewrite <- (Nat.add_0_r k), <- lookup_drop, <- Hrest. done. }
      assert (take (S k) buffers = take k buffers ++ [buffer]) as Htake
        by (by apply take_S_r).
      rewrite flush_world_of by (rewrite Hlen; by apply Hpending).
      exists (S k), done, cs. apply lookup_lt_Some in Hbuffer as Hlt.
      split_and!; try done.
      * by rewrite Htake.
      * intros i Hi. apply Hpending. lia.
      * cbn [main]. split; [|done].
        apply (f_equal (drop 1)) in Hrest. rewrite drop_drop in Hrest.
        by replace (k + 1)%nat with (S k) in Hrest by lia.
    + by exists k, done, cs.
  - (* a worker runs the task of a future *)
    destruct (take k buffers !! h) as [buffer|] eqn:Hh;
      [destruct (done h) eqn:Hdone|].
    + rewrite run_task_done by auto. by exists k, done, cs.
    + rewrite (run_task_world_of _ _ _ _ buffer) by done.
      set (done' := λ i, done i || bool_decide (i = h)).
      assert (∀ i, done i = true → done' i = true) as Hmono
        by (intros i Hi; unfold done'; by rewrite Hi).
      apply lookup_lt_Some in Hh as Hlt. rewrite Hlen in Hlt.
      exists k, done', (cs ++ [put_block buffer (nth_block_id h)]).
      split_and!; try done.
      * intros i Hi. unfold done'. rewrite Hpending by done.
        rewrite bool_decide_false by lia. done.
      * intros b block_id [Hin|Hin%list_elem_of_singleton]%elem_of_app.
        -- destruct (Huploads _ _ Hin) as (i & ? & ? & ?). exists i. auto.
        -- injection Hin as -> ->. exists h. split_and!; [|done|].
           ++ rewrite lookup_take_lt in Hh; done.
           ++ unfold done'. by rewrite bool_decide_true, orb_true_r.
      * destruct m as [rest|r]; cbn [main] in *.
        -- destruct Hmain as [? ?]. split; [done|].
           by apply commit_free_snoc_upload.
        -- destruct Hmain as (-> & [Hget Hput] & Hfree & Hfirst).
           split_and!; try done.
           ++ split.
              ** intros [Hin|Hin%list_elem_of_singleton]%elem_of_app; [|done].
                 eapply uploaded_mono; [exact Hmono|by apply Hget].
              ** intros bl [Hin|Hin%list_elem_of_singleton]%elem_of_app;
                   [|done].
                 destruct (Hput bl Hin) as [Hup Hc]. split; [|done].
                 eapply uploaded_mono; [exact Hmono|done].
           ++ intros Herr. by apply commit_free_snoc_upload, Hfree.
    + rewrite run_task_done by auto. by exists k, done, cs.
Qed.

Lemma reachable_run buffers turns s :
  reachable buffers s → reachable buffers (run turns s).
Proof.
  revert s. induction turns as [|t turns IH]; intros s Hs; [done|].
  apply IH. by apply reachable_step.
Qed.

Lemma world_of_ext flushed done done' cs :
  (∀ i, (i < length flushed)%nat → done i = done' i) →
  world_of flushed done cs = world_of flushed done' cs.
Proof.
  intros Hext. unfold azure_block_blob.world_of.
  by rewrite (pool_of_ext _ _ _ Hext).
Qed.

Lemma run_app turns turns' s :
  run (turns ++ turns') s = run turns' (run turns s).
Proof. apply foldl_app. Qed.

Lemma run_cons t turns s : run (t :: turns) s = run turns (step s t).
Proof. reflexivity. Qed.

(** The writer flushes the buffers it has left. *)
Lemma run_flushes flushed rest done cs :
  (∀ i, (length flushed ≤ i)%nat → done i = false) →
  run (replicate (length rest) main_thread)
    {| state := world_of flushed done cs; main := writing rest |}
  = {| state := world_of (flushed ++ rest) done cs; main := writing [] |}.
Proof.
  revert flushed. induction rest as [|buffer rest IH]; intros flushed Hpending.
  - by rewrite app_nil_r.
  - cbn [length replicate]. rewrite run_cons.
    cbn [azure_block_blob.step main state].
    rewrite flush_world_of by (by apply Hpending).
    rewrite IH, <- app_assoc; [done|].
    intros i Hi. apply Hpending. rewrite length_app in Hi. lia.
Qed.

(** The workers run the pending futures of [order], one after the other. *)
Lemma run_workers buffers order done cs m :
  NoDup order →
  (∀ h, h ∈ order → (h < length buffers)%nat ∧ done h = false) →
  run (worker <$> order) {| state := world_of buffers done cs; main := m |}
  = {| state := world_of buffers (λ i, done i || bool_decide (i ∈ order))
                  (cs ++ uploads buffers order);
       main := m |}.
Proof.
  revert done cs. induction order as [|h order IH]; intros done cs Hnodup Hin.
  - cbn. rewrite app_nil_r. f_equal. apply world_of_ext. intros i _.
    rewrite bool_decide_false by apply not_elem_of_nil. by rewrite orb_false_r.
  - apply NoDup_cons in Hnodup as [Hh Hnodup].
    destruct (Hin h) as [Hlt Hpending]; [left|].
    destruct (lookup_lt_is_Some_2 buffers h Hlt) as [buffer Hbuffer].
    rewrite fmap_cons, run_cons.
    cbn [azure_block_blob.step main state].
    rewrite (run_task_world_of _ _ _ _ buffer) by done.
    rewrite IH; [|done|].
    + unfold azure_block_blob.uploads. cbn [omap list_omap]. rewrite Hbuffer.
      cbn [fmap option_fmap option_map]. rewrite <- app_assoc. f_equal.
      apply world_of_ext. intros i _. rewrite <- orb_assoc. f_equal.
      destruct (decide (i = h)) as [->|Hne].
      * rewrite bool_decide_true by done. simpl.
        symmetry. apply bool_decide_true. left.
      * rewrite bool_decide_false by done. simpl.
        apply bool_decide_ext. rewrite elem_of_cons. tauto.
    + intros h' Hh'. destruct (Hin h') as [? Hp]; [by right|].
      split; [done|]. rewrite Hp, bool_decide_false; [done|].
      intros ->. done.
Qed.

(** Once every future has run the closing no longer waits. *)
Lemma wait_all_done flushed done cs :
  (∀ i, (i < length flushed)%nat → done i = true) →
  wait (seq 0 (length flushed)) (world_of flushed done cs) ≠ None.
Proof.
  intros Hdone Hwait.
  pose proof (wait_cases 0 (length flushed) flushed done cs ltac:(lia))
    as Hcases.
  rewrite Hwait in Hcases. destruct Hcases as (h & Hh & _ & Hpending).
  rewrite Hdone in Hpending by lia. done.
Qed.

Lemma flush_upload_close_eq buffers order :
  order ≡ₚ seq 0 (length buffers) →
  let done := λ i, false || bool_decide (i ∈ order) in
  let w := world_of buffers done (uploads buffers order) in
  (∀ i, (i < length buffers)%nat → done i = true)
  ∧ wait (seq 0 (length buffers)) w ≠ None
  ∧ flush_upload_close buffers order
    = step {| state := w; main := writing [] |} main_thread.
Proof.
  intros Hperm done w.
  assert (∀ i, (i < length buffers)%nat → done i = true) as Hdone.
  { intros i Hi. unfold done. simpl. apply bool_decide_true.
    rewrite Hperm. apply elem_of_seq. lia. }
  split; [done|]. split; [by apply wait_all_done|].
  unfold azure_block_blob.flush_upload_close. rewrite !run_app.
  change (open_stream buffers)
    with {| state := world_of [] (λ _, false) []; main := writing buffers |}.
  rewrite run_flushes by done. rewrite app_nil_l.
  rewrite run_workers.
  - by rewrite app_nil_l.
  - rewrite Hperm. apply NoDup_seq.
  - intros h Hh. rewrite Hperm in Hh. apply elem_of_seq in Hh.
    split; [lia|done].
Qed.

Lemma blocks_of_seq n :
  blocks_of n = (λ i, {| id := nth_block_id i |}) <$> seq 0 n.
Proof.
  unfold azure_block_blob.blocks_of, azure_block_blob.block_ids.
  by rewrite <- list_fmap_compose.
Qed.

(** C1. Whatever the order in which writer and workers take their turns,
    a [put_block_list] request carries the blocks already committed followed
    by one block per flush, in the order of the flushes, and every upload
    the service has answered carries the buffer and the block id of one
    flush. When no request fails and the workers complete the uploads in any
    order [order] (the reverse of the flushes, for one), the stream closes
    and the service has answered the uploads in that order, then
    [get_block_list], then [put_block_list] with the blocks in the order of
    the flushes. *)
Theorem commit_lists_blocks_in_flush_order (buffers : list bytes)
    (turns : list turn) :
  let n := length buffers in
  let s := run turns (open_stream buffers) in
  (∀ block_list,
     put_block_list block_list ∈ calls (state s) →
     ∃ committed,
       committed_blocks = ret committed
       ∧ block_list
         = committed ++ ((λ i, {| id := nth_block_id i |}) <$> seq 0 n))
  ∧ (∀ buffer block_id,
       put_block buffer block_id ∈ calls (state s) →
       ∃ i, buffers !! i = Some buffer ∧ block_id = nth_block_id i)
  ∧ (∀ order committed,
       order ≡ₚ seq 0 n →
       (∀ i, put_block_error i = None) →
       committed_blocks = ret committed →
       put_block_list_error = None →
       let s' := flush_upload_close buffers order in
       main s' = closed (ret ())
       ∧ calls (state s')
         = uploads buffers order
           ++ [get_block_list;
               put_block_list
                 (committed
                  ++ ((λ i, {| id := nth_block_id i |}) <$> seq 0 n))]).
Proof.
  intros n s.
  destruct (reachable_run buffers turns _ (reachable_open buffers))
    as (k & done & cs & Hstate & Hk & Hpending & Huploads & Hmain).
  fold s in Hstate, Hmain. rewrite Hstate.
  cbn [calls azure_block_blob.world_of].
  split_and!.
  - intros block_list Hin. rewrite <- blocks_of_seq.
    destruct (main s) as [rest|r].
    + destruct Hmain as [_ [_ Hnoput]]. by destruct (Hnoput block_list).
    + destruct Hmain as (_ & [_ Hput] & _). by destruct (Hput _ Hin).
  - intros buffer block_id Hin.
    destruct (Huploads _ _ Hin) as (i & ? & ? & _). by exists i.
  - intros order committed Hperm Hnoerr Hcommitted Hnofail.
    destruct (flush_upload_close_eq buffers order Hperm)
      as (Hdone & Hwait & Hrun).
    rewrite Hrun. cbn [azure_block_blob.step main state].
    rewrite close_world_of in *.
    pose proof (wait_cases 0 (length buffers) buffers
                  (λ i, false || bool_decide (i ∈ order))
                  (uploads buffers order) ltac:(lia)) as Hcases.
    destruct (wait _ _) as [[e|[]]|]; [|clear Hcases|done].
    + destruct Hcases as (h & _ & _ & _ & He). by rewrite Hnoerr in He.
    + rewrite Hcommitted, Hnofail.
      cbn [main state calls azure_block_blob.world_of].
      by rewrite blocks_of_seq.
Qed.

Lemma wait_cons h futures w :
  wait (h :: futures) w
  = match _workers w !! h ≫= outcome with
    | None => None
    | Some (inl e) => Some (raise e)
    | Some (inr _) => wait futures w
    end.
Proof. reflexivity. Qed.

Lemma wait_raises futures w before h after e :
  futures = before ++ h :: after →
  (∀ h', h' ∈ before → _workers w !! h' ≫= outcome = Some (ret ())) →
  _workers w !! h ≫= outcome = Some (raise e) →
  wait futures w = Some (raise e).
Proof.
  intros -> Hbefore Hh. induction before as [|h' before IH]; cbn [app];
    rewrite wait_cons.
  - by rewrite Hh.
  - rewrite (Hbefore h') by left. apply IH. intros h'' Hin.
    apply Hbefore. by right.
Qed.

Lemma wait_returns futures w u :
  wait futures w = Some (inr u) →
  ∀ h, h ∈ futures → _workers w !! h ≫= outcome = Some (ret ()).
Proof.
  induction futures as [|h' futures IH]; intros Hwait h Hin.
  - by apply elem_of_nil in Hin.
  - rewrite wait_cons in Hwait.
    destruct (_workers w !! h' ≫= outcome) as [[e|[]]|] eqn:Hh'; try done.
    apply elem_of_cons in Hin as [->|Hin]; [done|]. by apply IH.
Qed.

(** C4. [_close_writable] raises the error of the first future that failed,
    those before it having succeeded, and then makes no request: the world is
    as it was. It makes a request only when every future of the stream has
    returned. For a stream whose flushes include a failed upload, under
    every order of the turns: the service never sees [get_block_list] nor
    [put_block_list], a closed stream has raised the error of the first
    failed upload, and once the workers have run every future the closing
    does raise it. *)
Theorem close_raises_first_upload_error :
  (∀ w before h after e,
     _write_futures (self w) = before ++ h :: after →
     (∀ h', h' ∈ before →
            _workers w !! h' ≫= outcome = Some (ret ())) →
     _workers w !! h ≫= outcome = Some (raise e) →
     _close_writable w = Some (raise e, w))
  ∧ (∀ w r w',
       _close_writable w = Some (r, w') →
       calls w' ≠ calls w →
       ∀ h, h ∈ _write_futures (self w) →
            _workers w !! h ≫= outcome = Some (ret ()))
  ∧ (∀ buffers i e,
       (i < length buffers)%nat →
       put_block_error i = Some e →
       (∀ j, (j < i)%nat → put_block_error j = None) →
       (∀ turns,
          let s := run turns (open_stream buffers) in
          (get_block_list ∉ calls (state s))
          ∧ (∀ block_list, put_block_list block_list ∉ calls (state s))
          ∧ (∀ r, main s = closed r → r = raise e))
       ∧ (∀ order,
            order ≡ₚ seq 0 (length buffers) →
            main (flush_upload_close buffers order) = closed (raise e))).
Proof.
  split_and!.
  - intros w before h after e Hfutures Hbefore Hh.
    unfold azure_block_blob._close_writable.
    by rewrite (wait_raises _ w before h after e Hfutures Hbefore Hh).
  - intros w r w' Hclose Hcalls.
    unfold azure_block_blob._close_writable in Hclose.
    destruct (wait (_write_futures (self w)) w) as [[e|u]|] eqn:Hwait;
      [|by apply (wait_returns _ _ u)|done].
    injection Hclose as _ <-. done.
  - intros buffers i e Hi Herr Hfirst.
    assert (∀ turns r,
              main (run turns (open_stream buffers)) = closed r →
              r = raise e) as Hclosed.
    { intros turns r Hmain.
      destruct (reachable_run buffers turns _ (reachable_open buffers))
        as (k & done & cs & _ & _ & _ & _ & Hinv).
      rewrite Hmain in Hinv. destruct Hinv as (_ & _ & _ & Hraise).
      by apply (Hraise i e). }
    split.
    + intros turns s.
      destruct (reachable_run buffers turns _ (reachable_open buffers))
        as (k & done & cs & Hstate & _ & _ & _ & Hmain).
      fold s in Hstate, Hmain. rewrite Hstate.
      cbn [calls azure_block_blob.world_of].
      assert (commit_free cs) as [Hget Hput].
      { destruct (main s) as [rest|r]; [by destruct Hmain|].
        destruct Hmain as (_ & _ & Hfree & _). apply Hfree.
        exists i. by rewrite Herr. }
      split_and!; [done..|]. apply Hclosed.
    + intros order Hperm.
      destruct (flush_upload_close_eq buffers order Hperm)
        as (_ & Hwait & Hrun).
      pose proof (Hclosed (replicate (length buffers) main_thread
                           ++ (worker <$> order) ++ [main_thread])) as Hr.
      fold (flush_upload_close buffers order) in Hr.
      rewrite Hrun in *. cbn [azure_block_blob.step main state] in *.
      rewrite close_world_of in *.
      destruct (wait _ _) as [[e'|[]]|]; [| |done].
      * cbn [main] in *. by rewrite (Hr _ eq_refl).
      * destruct committed_blocks; cbn [main] in *; by rewrite (Hr _ eq_refl).
Qed.

End block_blob_properties.

Section block_blob_examples.
Import azure_base_blob azure_block_blob samples.

Lemma commit_lists_blocks_in_flush_order_witness :
  main (flush_upload_close sample_random_index (λ _, None) sample_committed
          None sample_buffers [2; 1; 0]%nat)
  = closed (ret ())
  ∧ calls (state (flush_upload_close sample_random_index (λ _, None)
                    sample_committed None sample_buffers [2; 1; 0]%nat))
    = [put_block [Byte.x03] "mnopqrstuvwxyzabcdefghijklmnopqr";
       put_block [Byte.x02] "ghijklmnopqrstuvwxyzabcdefghijkl";
       put_block [Byte.x01] "abcdefghijklmnopqrstuvwxyzabcdef";
       get_block_list;
       put_block_list
         [{| id := "committed" |};
          {| id := "abcdefghijklmnopqrstuvwxyzabcdef" |};
          {| id := "ghijklmnopqrstuvwxyzabcdefghijkl" |};
          {| id := "mnopqrstuvwxyzabcdefghijklmnopqr" |}]].
Proof.
  apply (proj2 (proj2 (commit_lists_blocks_in_flush_order sample_random_index
                         (λ _, None) sample_committed None sample_buffers []))
           [2; 1; 0]%nat [{| id := "committed" |}]).
  - change [2; 1; 0]%nat with (reverse (seq 0 3)). apply reverse_Permutation.
  - reflexivity.
  - reflexivity.
  - reflexivity.
Defined.

Lemma close_raises_first_upload_error_witness :
  main (flush_upload_close sample_random_index second_upload_fails
          sample_committed None sample_buffers [2; 1; 0]%nat)
  = closed (raise (OtherError "upload failed"))
  ∧ (get_block_list
     ∉ calls (state (flush_upload_close sample_random_index
                       second_upload_fails sample_committed None
                       sample_buffers [2; 1; 0]%nat)))
  ∧ calls (state (flush_upload_close sample_random_index second_upload_fails
                    sample_committed None sample_buffers [2; 1; 0]%nat))
    = [put_block [Byte.x03] "mnopqrstuvwxyzabcdefghijklmnopqr";
       put_block [Byte.x02] "ghijklmnopqrstuvwxyzabcdefghijkl";
       put_block [Byte.x01] "abcdefghijklmnopqrstuvwxyzabcdef"].
Proof.
  destruct (proj2 (proj2 (close_raises_first_upload_error sample_random_index
                            second_upload_fails sample_committed None))
              sample_buffers 1%nat (OtherError "upload failed"))
    as [Hsafe Hlive].
  - simpl. lia.
  - reflexivity.
  - intros j Hj. replace j with 0%nat by lia. reflexivity.
  - split; [|split].
    + apply Hlive. change [2; 1; 0]%nat with (reverse (seq 0 3)).
      apply reverse_Permutation.
    + exact (proj1 (Hsafe (replicate 3 main_thread
                           ++ (worker <$> [2; 1; 0]%nat) ++ [main_thread]))).
    + reflexivity.
Defined.

End block_blob_examples.

(** * Further properties *)

(** ** Storage manager: the registry as a dictionary *)

Section registry_dictionary.
Import storage_manager.
Context {V : Type}.
Implicit Types (d : list (root * V)) (key : root) (v : V).

Lemma getitem_None key d : getitem key d = None ↔ key ∉ d.*1.
Proof.
  unfold getitem. induction d as [|[k v] d IH]; simpl.
  - split; [intros _; apply not_elem_of_nil|done].
  - destruct (bool_decide (k = key)) eqn:Hk; simpl.
    + apply bool_decide_eq_true in Hk as ->. split; [done|].
      intros Hnot. destruct Hnot. left.
    + apply bool_decide_eq_false in Hk. rewrite IH, not_elem_of_cons.
      split; [by intros ?; split|by intros [_ ?]].
Qed.

Lemma getitem_elem_of key v d : getitem key d = Some v → (key, v) ∈ d.
Proof.
  unfold getitem. induction d as [|[k v'] d IH]; simpl; [done|].
  destruct (bool_decide (k = key)) eqn:Hk; simpl.
  - apply bool_decide_eq_true in Hk as ->. intros [= ->]. left.
  - intros Hfind. right. by apply IH.
Qed.

Lemma getitem_setitem key v d : getitem key (setitem key v d) = Some v.
Proof.
  induction d as [|[k v'] d IH]; simpl.
  - unfold getitem. simpl. by rewrite bool_decide_true.
  - destruct (decide (k = key)) as [->|Hne].
    + unfold getitem. simpl. by rewrite bool_decide_true.
    + unfold getitem in *. simpl. by rewrite bool_decide_false.
Qed.

Lemma getitem_setitem_ne key key' v d :
  key ≠ key' → getitem key (setitem key' v d) = getitem key d.
Proof.
  intros Hne. induction d as [|[k v'] d IH]; simpl.
  - unfold getitem. simpl. rewrite bool_decide_false; [done|]. congruence.
  - destruct (decide (k = key')) as [->|Hk].
    + unfold getitem. simpl. rewrite !bool_decide_false; [done|congruence..].
    + unfold getitem in *. simpl.
      destruct (bool_decide (k = key)); [done|]. apply IH.
Qed.

Lemma setitem_keys key v d :
  (setitem key v d).*1 = if decide (key ∈ d.*1) then d.*1 else d.*1 ++ [key].
Proof.
  induction d as [|[k v'] d IH].
  - case_decide as Hin; [by apply elem_of_nil in Hin|done].
  - cbn [setitem]. destruct (decide (k = key)) as [->|Hne].
    + rewrite decide_True by (rewrite fmap_cons; left). done.
    + rewrite !fmap_cons, IH. cbn [fst].
      destruct (decide (key ∈ d.*1)) as [Hin|Hnot].
      * rewrite decide_True; [done|by right].
      * rewrite decide_False; [done|].
        rewrite not_elem_of_cons. split; [congruence|done].
Qed.

Lemma setitem_NoDup key v d : NoDup d.*1 → NoDup (setitem key v d).*1.
Proof.
  intros Hd. rewrite setitem_keys. case_decide; [done|].
  apply NoDup_app. split_and!; [done| |apply NoDup_singleton].
  intros k Hk ->%list_elem_of_singleton. done.
Qed.

Lemma getitem_reorder key d : getitem key (reorder d) = getitem key d.
Proof.
  unfold reorder.
  assert (∀ ks,
            getitem key (omap (λ k, pair k <$> getitem k d) ks)
            = if decide (key ∈ ks) then getitem key d else None) as Hks.
  { induction ks as [|k ks IH].
    - case_decide as Hin; [by apply elem_of_nil in Hin|done].
    - cbn [omap list_omap]. destruct (getitem k d) as [v|] eqn:Hk;
        cbn [fmap option_fmap option_map].
      + unfold getitem at 1. cbn [List.find fst].
        destruct (decide (k = key)) as [->|Hne].
        * rewrite bool_decide_true by done. cbn [fmap option_fmap option_map snd].
          rewrite decide_True; [done|left].
        * rewrite bool_decide_false by done.
          fold (getitem key (omap (λ k0, pair k0 <$> getitem k0 d) ks)).
          rewrite IH. destruct (decide (key ∈ ks)) as [Hin|Hnot].
          -- rewrite decide_True; [done|by right].
          -- rewrite decide_False; [done|].
             rewrite not_elem_of_cons. split; [congruence|done].
      + rewrite IH. destruct (decide (k = key)) as [->|Hne].
        * rewrite Hk. by repeat case_decide.
        * destruct (decide (key ∈ ks)) as [Hin|Hnot].
          -- rewrite decide_True; [done|by right].
          -- rewrite decide_False; [done|].
             rewrite not_elem_of_cons. split; [congruence|done]. }
  rewrite Hks. case_decide as Hin; [done|].
  symmetry. apply getitem_None. intros Hkey. apply Hin.
  apply elem_of_reverse.
  by apply (elem_of_Permutation_proper key _ _
              (sorted_perm _compare_root (d.*1))).
Qed.

Lemma reorder_keys_perm d : (reorder d).*1 ≡ₚ d.*1.
Proof.
  rewrite reorder_keys, reverse_Permutation. apply sorted_perm.
Qed.

Lemma reorder_elem_of key v d : (key, v) ∈ reorder d → (key, v) ∈ d.
Proof.
  unfold reorder. intros Hin. apply list_elem_of_omap in Hin as (k & _ & Hk).
  destruct (getitem k d) as [v'|] eqn:Hget; [|done].
  injection Hk as -> ->. by apply getitem_elem_of.
Qed.

End registry_dictionary.

Section registry_updates.
Import storage_manager.
Context {V : Type}.
Implicit Types (d : list (root * V)) (key : root) (v : V).

Lemma setitem_elem_of k v key value d :
  (k, v) ∈ setitem key value d → (k, v) ∈ d ∨ (k = key ∧ v = value).
Proof.
  induction d as [|[k' v'] d IH]; cbn [setitem].
  - intros [= -> ->]%list_elem_of_singleton. by right.
  - destruct (decide (k' = key)) as [->|Hne].
    + intros [[= -> ->]|Hin]%elem_of_cons; [by right|]. left. by right.
    + intros [Heq|Hin]%elem_of_cons; [left; rewrite Heq; left|].
      destruct (IH Hin) as [?|?]; [left; by right|by right].
Qed.

(** [for root in roots: d[root] = value] *)
Abbreviation setitems rs x m :=
  (foldl (λ acc r, setitem r x acc) m rs).

Lemma getitem_setitems key roots value d :
  getitem key (setitems roots value d)
  = if decide (key ∈ roots) then Some value else getitem key d.
Proof.
  revert d. induction roots as [|r roots IH]; intros d.
  - case_decide as Hin; [by apply elem_of_nil in Hin|done].
  - cbn [foldl]. rewrite IH. destruct (decide (key ∈ roots)) as [Hin|Hnot].
    + rewrite decide_True; [done|by right].
    + destruct (decide (key = r)) as [->|Hne].
      * rewrite decide_True by left. apply getitem_setitem.
      * rewrite decide_False
          by (rewrite not_elem_of_cons; split; done).
        by apply getitem_setitem_ne.
Qed.

Lemma setitems_keys key roots value d :
  key ∈ (setitems roots value d).*1 ↔ key ∈ d.*1 ∨ key ∈ roots.
Proof.
  revert d. induction roots as [|r roots IH]; intros d.
  - cbn [foldl]. rewrite elem_of_nil. tauto.
  - cbn [foldl]. rewrite IH, setitem_keys, elem_of_cons.
    case_decide as Hr; [|rewrite elem_of_app, list_elem_of_singleton].
    + split; [tauto|]. intros [?|[->|?]]; tauto.
    + tauto.
Qed.

Lemma setitems_NoDup roots value d :
  NoDup d.*1 → NoDup (setitems roots value d).*1.
Proof.
  revert d. induction roots as [|r roots IH]; intros d Hd.
  - done.
  - cbn [foldl]. by apply IH, setitem_NoDup.
Qed.

Lemma setitems_elem_of k v roots value d :
  (k, v) ∈ setitems roots value d → (k, v) ∈ d ∨ (k ∈ roots ∧ v = value).
Proof.
  revert d. induction roots as [|r roots IH]; intros d.
  - by left.
  - cbn [foldl]. intros Hin. destruct (IH _ Hin) as [Hd|[? ->]].
    + destruct (setitem_elem_of _ _ _ _ _ Hd) as [?|[-> ->]]; [by left|].
      right. split; [left|done].
    + right. split; [by right|done].
Qed.

End registry_updates.

Section mount_registry.
Import storage_manager registry_invariants.
Variable re_match : string → string → bool.
Variable has_module : string → bool.
Variable new_system_roots :
  string → option (list root) → dict → list root.

Abbreviation mount := (mount has_module new_system_roots).
Abbreviation get_instance :=
  (get_instance re_match has_module new_system_roots).
Abbreviation run := (run re_match has_module new_system_roots).
Abbreviation lookup := (lookup re_match).
Abbreviation applies := (applies re_match).

(** What a call of [mount] that returns has done. *)
Lemma mount_returns storage name extra_root storage_parameters unsecure
    st info st' :
  mount storage name extra_root storage_parameters unsecure st
  = (ret info, st') →
  infer_storage storage name = ret (system info)
  ∧ has_module (system info) = true
  ∧ system_parameters info
    = _system_parameters
        (<["unsecure" := unsecure]>
           (<["storage_parameters" := storage_parameters]> ∅))
  ∧ roots info
    = new_system_roots (system info) None (system_parameters info)
      ++ (if truthy extra_root then option_list extra_root else [])
  ∧ system_cached info = length (heap st)
  ∧ MOUNTED st'
    = reorder (foldl (λ d root, setitem root info d) (MOUNTED st)
                 (roots info))
  ∧ heap st' = heap st ++ [cached_system info].
Proof.
  unfold storage_manager.mount.
  destruct (infer_storage storage name) as [e|storage']; [done|].
  destruct (has_module storage') eqn:Hmodule; cbn [negb]; [|done].
  intros [= <- <-]. cbn. split_and!; try done.
  destruct (truthy extra_root); [done|by rewrite app_nil_r].
Qed.

(** X1. A mount that returns files its entry under each root of the system
    it built and under the extra root, when one is given and is not empty:
    the registry maps each of them to the entry returned. The cached system
    of the entry is a new object: its address was free before the call, the
    heap holds the system built for the entry there after it, and the
    objects that were there are kept. *)
Theorem mount_registers_its_roots storage name extra_root storage_parameters
    unsecure st info st' :
  mount storage name extra_root storage_parameters unsecure st
  = (ret info, st') →
  (∀ root, root ∈ roots info → getitem root (MOUNTED st') = Some info)
  ∧ (∀ root, extra_root = Some root → truthy extra_root = true →
             getitem root (MOUNTED st') = Some info)
  ∧ system_cached info = length (heap st)
  ∧ heap st !! system_cached info = None
  ∧ heap st' !! system_cached info = Some (cached_system info)
  ∧ (∀ address o, heap st !! address = Some o →
                  heap st' !! address = Some o).
Proof.
  intros Hmount.
  destruct (mount_returns _ _ _ _ _ _ _ _ Hmount)
    as (_ & _ & _ & Hroots & Hcached & Hmounted & Hheap).
  assert (∀ root, root ∈ roots info → getitem root (MOUNTED st') = Some info)
    as Hget.
  { intros root Hin.
    by rewrite Hmounted, getitem_reorder, getitem_setitems, decide_True. }
  split_and!.
  - done.
  - intros root -> Htruthy. apply Hget. rewrite Hroots, Htruthy.
    apply elem_of_app. right. left.
  - done.
  - rewrite Hcached. by apply lookup_ge_None_2.
  - rewrite Hheap, Hcached. by apply list_lookup_middle.
  - intros address o Ho. rewrite Hheap. by apply lookup_app_l_Some.
Qed.

(** X2. A mount that returns leaves the entries of the other keys of the
    registry as they were: a key that is not a root of the new entry maps to
    what it mapped to, the keys after the call are the keys before it and the
    roots of the entry, keys that were distinct stay distinct, and a storage
    without roots changes no entry. *)
Theorem mount_keeps_other_entries storage name extra_root storage_parameters
    unsecure st info st' :
  mount storage name extra_root storage_parameters unsecure st
  = (ret info, st') →
  (∀ key, key ∉ roots info →
          getitem key (MOUNTED st') = getitem key (MOUNTED st))
  ∧ (∀ key, key ∈ (MOUNTED st').*1
            ↔ key ∈ (MOUNTED st).*1 ∨ key ∈ roots info)
  ∧ (NoDup (MOUNTED st).*1 → NoDup (MOUNTED st').*1)
  ∧ (roots info = [] → ∀ key, getitem key (MOUNTED st')
                              = getitem key (MOUNTED st)).
Proof.
  intros Hmount.
  destruct (mount_returns _ _ _ _ _ _ _ _ Hmount)
    as (_ & _ & _ & _ & _ & Hmounted & _).
  assert (∀ key, key ∉ roots info →
            getitem key (MOUNTED st') = getitem key (MOUNTED st)) as Hother.
  { intros key Hkey.
    by rewrite Hmounted, getitem_reorder, getitem_setitems, decide_False. }
  split_and!.
  - done.
  - intros key. rewrite Hmounted.
    rewrite (elem_of_Permutation_proper key _ _ (reorder_keys_perm _)).
    apply setitems_keys.
  - intros Hnodup. rewrite Hmounted.
    rewrite (reorder_keys_perm _). by apply setitems_NoDup.
  - intros Hnone key. apply Hother. rewrite Hnone. apply not_elem_of_nil.
Qed.


Lemma mount_well_formed storage name extra_root storage_parameters unsecure
    st :
  well_formed st →
  well_formed
    (mount storage name extra_root storage_parameters unsecure st).2.
Proof.
  intros (Hnodup & Hdesc & Hentries).
  destruct (mount storage name extra_root storage_parameters unsecure st)
    as [[e|info] st'] eqn:Hmount.
  - assert (st' = st) as ->; [|done].
    unfold storage_manager.mount, raise, ret in Hmount.
    destruct (infer_storage storage name) as [?|storage']; [congruence|].
    destruct (has_module storage'); cbn [negb] in Hmount; congruence.
  - cbn [snd].
    destruct (mount_returns _ _ _ _ _ _ _ _ Hmount)
      as (_ & _ & _ & _ & Hcached & Hmounted & Hheap).
    split_and!.
    + rewrite Hmounted, (reorder_keys_perm _). by apply setitems_NoDup.
    + rewrite Hmounted. apply reorder_descending.
    + intros root info' Hin. rewrite Hmounted in Hin.
      apply reorder_elem_of, setitems_elem_of in Hin as [Hin|[Hroot ->]].
      * destruct (Hentries _ _ Hin) as [? Hold]. split; [done|].
        rewrite Hheap. by apply lookup_app_l_Some.
      * split; [done|]. rewrite Hheap, Hcached. by apply list_lookup_middle.
Qed.

Lemma get_instance_well_formed name storage storage_parameters unsecure st :
  well_formed st →
  well_formed (get_instance name storage storage_parameters unsecure st).2.
Proof.
  intros Hst. unfold storage_manager.get_instance.
  destruct (storage_manager.lookup _ _ _) as [[r info]|].
  - repeat case_decide; [done..|]. cbn [snd].
    destruct Hst as (Hnodup & Hdesc & Hentries). split_and!; [done..|].
    intros root info' Hin. destruct (Hentries _ _ Hin) as [? Hcached].
    split; [done|]. by apply lookup_app_l_Some.
  - unfold keyword_call.
    match goal with
    | |- context [storage_manager.mount _ _ ?s ?n ?x ?p ?u st] =>
        pose proof (mount_well_formed s n x p u st Hst) as Hm;
        destruct (storage_manager.mount has_module new_system_roots
                    s n x p u st) as [[e|info] st']
    end; done.
Qed.

(** X3. After any sequence of calls of [mount] and [get_instance], from
    the empty registry: the keys of the registry are distinct and in
    descending order of their text, every entry is filed under one of its own
    roots, and the address of its cached system holds the system object built
    when it was mounted. *)
Theorem registry_stays_well_formed (calls : list call) :
  well_formed (run calls initial_state).
Proof.
  assert (∀ st, well_formed st → well_formed (run calls st)) as Hrun.
  { induction calls as [|c calls IH]; intros st Hst; [done|].
    apply IH. destruct c; cbn [run_call].
    - by apply mount_well_formed.
    - by apply get_instance_well_formed. }
  apply Hrun. split_and!.
  - constructor.
  - constructor.
  - intros root info Hin. by apply elem_of_nil in Hin.
Qed.

End mount_registry.

Section get_instance_registry.
Import storage_manager registry_invariants.
Variable re_match : string → string → bool.
Variable has_module : string → bool.
Variable new_system_roots :
  string → option (list root) → dict → list root.
Abbreviation mount := (storage_manager.mount has_module new_system_roots).
Abbreviation get_instance :=
  (storage_manager.get_instance re_match has_module new_system_roots).
Abbreviation lookup := (storage_manager.lookup re_match).
Abbreviation applies := (storage_manager.applies re_match).

Lemma given_parameters_keys storage_parameters unsecure key v :
  given_parameters storage_parameters unsecure !! key = Some v →
  (key = "unsecure" ∨ key = "storage_parameters") ∧ v ≠ PyNone.
Proof.
  unfold given_parameters. intros Hk.
  apply system_parameters_lookup in Hk as [Hk Hv]. split; [|exact Hv].
  destruct (decide (key = "unsecure")) as [|Hu]; [by left|].
  rewrite lookup_insert_ne in Hk by done.
  destruct (decide (key = "storage_parameters")) as [|Hs]; [by right|].
  rewrite lookup_insert_ne in Hk by done.
  rewrite lookup_empty in Hk. discriminate Hk.
Qed.

Lemma rebind_lookup (given : dict) key :
  (∀ v, given !! key = Some v → v ≠ PyNone) →
  ∀ v, (Some (kwarg given key) = Some v ∧ v ≠ PyNone) ↔ given !! key = Some v.
Proof.
  intros Hkey v. unfold kwarg.
  destruct (given !! key) as [w|]; cbn [default].
  - split.
    + intros [Heq _]. exact Heq.
    + intros Heq. split; [exact Heq|]. by apply Hkey.
  - split.
    + intros [Heq Hv]. injection Heq as <-. by destruct Hv.
    + intros Heq. discriminate Heq.
Qed.

(** Unpacking a filtered dictionary as keyword arguments and filtering
    again gives the same dictionary. *)
Lemma rebind_filtered (given : dict) :
  (∀ key v, given !! key = Some v →
     (key = "unsecure" ∨ key = "storage_parameters") ∧ v ≠ PyNone) →
  given_parameters (kwarg given "storage_parameters") (kwarg given "unsecure")
  = given.
Proof.
  intros Hkeys. apply map_eq. intros key. apply option_eq. intros v.
  unfold given_parameters. rewrite system_parameters_lookup.
  destruct (decide (key = "unsecure")) as [->|Hu].
  - rewrite lookup_insert_eq. apply rebind_lookup.
    intros w Hw. exact (proj2 (Hkeys _ _ Hw)).
  - rewrite lookup_insert_ne by done.
    destruct (decide (key = "storage_parameters")) as [->|Hs].
    + rewrite lookup_insert_eq. apply rebind_lookup.
      intros w Hw. exact (proj2 (Hkeys _ _ Hw)).
    + rewrite lookup_insert_ne by done. rewrite lookup_empty.
      split.
      * intros [Heq _]. discriminate Heq.
      * intros Hkey. destruct (Hkeys _ _ Hkey) as [[?|?] _]; contradiction.
Qed.

Lemma given_parameters_rebind storage_parameters unsecure :
  let given := given_parameters storage_parameters unsecure in
  given_parameters (kwarg given "storage_parameters") (kwarg given "unsecure")
  = given.
Proof.
  intros given. apply rebind_filtered. apply given_parameters_keys.
Qed.

Lemma lookup_elem_of name mounted r info :
  lookup name mounted = Some (r, info) →
  (r, info) ∈ mounted ∧ applies name r = true.
Proof.
  unfold storage_manager.lookup. intros Hfind.
  apply find_some in Hfind as [Hin Happ]. split; [|done].
  by apply list_elem_of_In.
Qed.

Lemma lookup_None name mounted :
  lookup name mounted = None ↔ ∀ r, r ∈ mounted.*1 → applies name r = false.
Proof.
  unfold storage_manager.lookup. split.
  - intros Hnone r Hr. apply list_elem_of_fmap in Hr as ([k v] & -> & Hin).
    apply list_elem_of_In in Hin. exact (find_none _ _ Hnone _ Hin).
  - intros Hall. destruct (List.find _ mounted) as [[r v]|] eqn:Hfind; [|done].
    apply find_some in Hfind as [Hin Happ]. cbn [fst] in Happ.
    rewrite Hall in Happ; [done|]. apply list_elem_of_fmap.
    exists (r, v). split; [done|]. by apply list_elem_of_In.
Qed.


(** X4. When no root serves the name, a call of [get_instance] that returns
    has mounted the storage: its value is the address of a system object
    built by the call. If a root of the registry then serves the name, the
    same call made again returns the same object and changes nothing; if none
    does (the roots of the new system do not match the name), the same call
    mounts the storage once more and returns another new object. *)
Theorem get_instance_mounts_then_reuses name storage storage_parameters
    unsecure st address st' :
  lookup name (MOUNTED st) = None →
  get_instance name storage storage_parameters unsecure st
  = (ret address, st') →
  address = length (heap st)
  ∧ length (heap st') = S (length (heap st))
  ∧ ((∃ root, root ∈ (MOUNTED st').*1 ∧ applies name root = true) →
     get_instance name storage storage_parameters unsecure st'
     = (ret address, st'))
  ∧ (lookup name (MOUNTED st') = None →
     ∃ st'',
       get_instance name storage storage_parameters unsecure st'
       = (ret (S address), st'')).
Proof.
  intros Hnone Hget.
  pose proof (given_parameters_rebind storage_parameters unsecure) as Hre.
  cbv zeta in Hre.
  unfold storage_manager.get_instance in Hget |- *.
  fold (given_parameters storage_parameters unsecure) in Hget |- *.
  rewrite Hnone in Hget. unfold keyword_call in Hget |- *.
  remember (given_parameters storage_parameters unsecure) as given
    eqn:Hgiven. clear Hgiven.
  destruct (storage_manager.mount has_module new_system_roots storage name
              None (kwarg given "storage_parameters")
              (kwarg given "unsecure") st) as [[e|info] st1] eqn:Hmount.
  { unfold raise, ret in Hget. congruence. }
  unfold ret in Hget. injection Hget as <- <-.
  destruct (mount_returns _ _ _ _ _ _ _ _ _ _ Hmount)
    as (Hinfer & Hmodule & Hparams & _ & Hcached & Hmounted & Hheap).
  fold (given_parameters (kwarg given "storage_parameters")
          (kwarg given "unsecure")) in Hparams.
  rewrite Hre in Hparams. clear Hre.
  split; [exact Hcached|]. split.
  { rewrite Hheap, length_app. cbn [length]. lia. }
  split.
  - intros (root & Hroot & Happ).
    destruct (lookup name (MOUNTED st1)) as [[r info']|] eqn:Hlook.
    + destruct (lookup_elem_of _ _ _ _ Hlook) as [Hin Hr].
      assert (info' = info) as ->.
      { rewrite Hmounted in Hin.
        apply reorder_elem_of, setitems_elem_of in Hin as [Hin|[_ ?]];
          [|assumption].
        rewrite (proj1 (lookup_None name (MOUNTED st)) Hnone r) in Hr.
        - discriminate Hr.
        - apply list_elem_of_fmap. exists (r, info').
          split; [reflexivity|exact Hin]. }
      unfold get_system_parameters.
      destruct (decide (given = ∅)); [reflexivity|].
      destruct (decide (given = system_parameters info)) as [|Hdiff];
        [reflexivity|].
      symmetry in Hparams. contradiction.
    + rewrite (proj1 (lookup_None name (MOUNTED st1)) Hlook root Hroot)
        in Happ. discriminate Happ.
  - intros Hnone'. rewrite Hnone'.
    clear Hmount. unfold storage_manager.mount.
    rewrite Hinfer. unfold ret. cbn beta iota. rewrite Hmodule.
    cbn [negb system_cached].
    eexists. rewrite Hheap, length_app, Hcached. cbn [length].
    replace (length (heap st) + 1)%nat with (S (length (heap st))) by lia.
    reflexivity.
Qed.

(** X5. A system built for a configuration that differs from the mounted
    one is not kept: when a root serves the name and the parameters given are
    not empty and differ from the stored ones, the call returns a new object
    and leaves the registry as it is, and the same call made again builds a
    second object, equal to the first, at the next address. Each is built
    with the roots of the entry and the parameters given, completed by the
    stored ones. *)
Theorem get_instance_override_not_cached name storage storage_parameters
    unsecure st root info :
  lookup name (MOUNTED st) = Some (root, info) →
  given_parameters storage_parameters unsecure ≠ ∅ →
  given_parameters storage_parameters unsecure ≠ system_parameters info →
  ∃ fresh st1 st2,
    get_instance name storage storage_parameters unsecure st
    = (ret (length (heap st)), st1)
    ∧ get_instance name storage storage_parameters unsecure st1
      = (ret (S (length (heap st))), st2)
    ∧ MOUNTED st1 = MOUNTED st ∧ MOUNTED st2 = MOUNTED st
    ∧ heap st2 = heap st ++ [fresh; fresh]
    ∧ sys_roots_kwarg fresh = Some (roots info)
    ∧ sys_kwargs fresh
      = update_missing (given_parameters storage_parameters unsecure)
          (system_parameters info).
Proof.
  intros Hlook Hne Hdiff.
  unfold storage_manager.get_instance.
  fold (given_parameters storage_parameters unsecure).
  remember (given_parameters storage_parameters unsecure) as given
    eqn:Hgiven. clear Hgiven.
  rewrite Hlook. unfold get_system_parameters.
  destruct (decide (given = ∅)); [contradiction|].
  destruct (decide (given = system_parameters info)); [contradiction|].
  eexists _, _, _. split; [reflexivity|]. cbn [MOUNTED heap].
  rewrite Hlook.
  destruct (decide (given = ∅)); [contradiction|].
  destruct (decide (given = system_parameters info)); [contradiction|].
  split.
  { rewrite length_app. cbn [length].
    replace (length (heap st) + 1)%nat with (S (length (heap st))) by lia.
    reflexivity. }
  cbn [MOUNTED heap sys_roots_kwarg sys_kwargs].
  rewrite <- app_assoc. cbn [app].
  repeat (split; [reflexivity|]). reflexivity.
Qed.

End get_instance_registry.

Section scheme_case.
Import storage_manager.
Variable re_match : string → string → bool.
Variable has_module : string → bool.
Variable new_system_roots :
  string → option (list root) → dict → list root.
Abbreviation mount := (storage_manager.mount has_module new_system_roots).
Abbreviation get_instance :=
  (storage_manager.get_instance re_match has_module new_system_roots).
Abbreviation lookup := (storage_manager.lookup re_match).

Lemma lower_char_idemp c : lower_char (lower_char c) = lower_char c.
Proof. destruct c as [[] [] [] [] [] [] [] []]; reflexivity. Qed.

Lemma lower_idemp s : lower (lower s) = lower s.
Proof.
  induction s as [|c s IH]; [reflexivity|].
  cbn [lower]. by rewrite lower_char_idemp, IH.
Qed.

(** Lowering a character gives ':' or '/' only when it was that one. *)
Lemma lower_char_separator c x :
  x = ":"%char ∨ x = "/"%char → lower_char c = x ↔ c = x.
Proof.
  intros [-> | ->]; destruct c as [[] [] [] [] [] [] [] []];
    vm_compute; split; congruence.
Qed.

Lemma ascii_dec_lower {A : Type} x c (a b : A) :
  x = ":"%char ∨ x = "/"%char →
  (if ascii_dec x (lower_char c) then a else b)
  = (if ascii_dec x c then a else b).
Proof.
  intros Hx. pose proof (lower_char_separator c x Hx) as Hiff.
  destruct (ascii_dec x (lower_char c)) as [Hl|Hl],
    (ascii_dec x c) as [Hc|Hc]; try reflexivity.
  - destruct Hc. symmetry. apply Hiff. by symmetry.
  - destruct Hl. symmetry. apply Hiff. by symmetry.
Qed.

Lemma prefix_separator_lower s :
  String.prefix "://" (lower s) = String.prefix "://" s.
Proof.
  destruct s as [|c1 [|c2 [|c3 s]]]; cbn [lower String.prefix];
    rewrite ?ascii_dec_lower by auto; rewrite ?prefix_empty; reflexivity.
Qed.

(** The scheme of the lowered name is the lowered scheme of the name. *)
Lemma split_scheme_lower name :
  split_scheme (lower name) = lower <$> split_scheme name.
Proof.
  induction name as [|c name IH]; [reflexivity|].
  change (lower (String c name)) with (String (lower_char c) (lower name)).
  rewrite !split_scheme_cons.
  change (String (lower_char c) (lower name)) with (lower (String c name)).
  rewrite prefix_separator_lower.
  destruct (String.prefix "://" (String c name)); [reflexivity|].
  rewrite IH. by destruct (split_scheme name).
Qed.

Lemma lower_https scheme :
  lower (if String.eqb (lower scheme) "https" then "http" else lower scheme)
  = (if String.eqb (lower scheme) "https" then "http" else lower scheme).
Proof.
  destruct (String.eqb (lower scheme) "https"); [reflexivity|].
  apply lower_idemp.
Qed.

(** X6. [mount] reads the scheme of the name without regard to the case of
    its letters ('A' to 'Z'): mounting with the lowered name does what
    mounting with the name does, and the storage name inferred from a scheme
    is in lower case and is never "https". *)
Theorem mount_scheme_ignores_case name extra_root storage_parameters unsecure
    st :
  mount None (lower name) extra_root storage_parameters unsecure st
  = mount None name extra_root storage_parameters unsecure st
  ∧ ∀ info st',
      mount None name extra_root storage_parameters unsecure st
      = (ret info, st') →
      lower (system info) = system info ∧ system info ≠ "https".
Proof.
  split.
  - unfold storage_manager.mount, infer_storage.
    rewrite split_scheme_lower.
    destruct (split_scheme name) as [scheme|]; [|reflexivity].
    cbn [fmap option_fmap option_map]. by rewrite lower_idemp.
  - intros info st' Hmount.
    destruct (mount_returns _ _ _ _ _ _ _ _ _ _ Hmount) as (Hinfer & _).
    unfold infer_storage in Hinfer.
    destruct (split_scheme name) as [scheme|]; [|discriminate Hinfer].
    cbv zeta in Hinfer. unfold ret in Hinfer. injection Hinfer as Hsystem.
    split.
    + rewrite <- Hsystem. apply lower_https.
    + rewrite <- Hsystem.
      destruct (String.eqb_spec (lower scheme) "https") as [|Hne];
        [discriminate|exact Hne].
Qed.


End scheme_case.

Section scheme_inference.
Import storage_manager registry_invariants.
Variable has_module : string → bool.
Variable new_system_roots :
  string → option (list root) → dict → list root.
Abbreviation mount := (storage_manager.mount has_module new_system_roots).

Lemma lower_get s i :
  String.get i (lower s) = lower_char <$> String.get i s.
Proof.
  revert i. induction s as [|c s IH]; intros i; [reflexivity|].
  destruct i as [|i]; cbn [lower String.get]; [reflexivity|apply IH].
Qed.

Lemma lower_char_upper c :
  (65 ≤ nat_of_ascii c ≤ 90)%nat →
  nat_of_ascii (lower_char c) = (nat_of_ascii c + 32)%nat.
Proof.
  intros [Hlow Hhigh]. unfold lower_char.
  rewrite (proj2 (Nat.leb_le _ _) Hlow), (proj2 (Nat.leb_le _ _) Hhigh).
  cbn [andb]. apply nat_ascii_embedding. lia.
Qed.

Lemma lower_char_other c :
  ¬ (65 ≤ nat_of_ascii c ≤ 90)%nat → lower_char c = c.
Proof.
  intros Hother. unfold lower_char.
  destruct (Nat.leb_spec 65 (nat_of_ascii c)) as [Hlow|Hlow];
    [|reflexivity].
  destruct (Nat.leb_spec (nat_of_ascii c) 90) as [Hhigh|Hhigh];
    [|reflexivity].
  destruct Hother. by split.
Qed.

(** C5. Without a storage name, and with a name whose text before the first
    "://" is an ASCII string [scheme], the storage [mount] works with is
    [scheme] in lower case ('A' to 'Z' replaced by 'a' to 'z', the other
    characters kept), "https" being replaced by "http". [mount] then does
    what it does when that name is given: it raises an [ImportError] when the
    module of that storage is not found, and when it returns, the entry is
    that of this storage, with the system of this storage in the heap and
    each of its roots mapped to it in the registry. When the name has no
    "://", it raises the [ValueError] "No storage specified ..." (the
    specification's ConfigError) and leaves the module state, registry
    included, as it was. *)
Theorem mount_infers_storage_from_scheme (name : string)
    (extra_root : option root) (storage_parameters unsecure : pyvalue)
    (st : state) :
  (∀ scheme rest,
     name = scheme +:+ "://" +:+ rest →
     (∀ a b, scheme ≠ a +:+ "://" +:+ b) →
     is_ascii scheme = true →
     let storage :=
       if String.eqb (lower scheme) "https" then "http" else lower scheme in
     infer_storage None name = ret storage
     ∧ mount None name extra_root storage_parameters unsecure st
       = mount (Some storage) name extra_root storage_parameters unsecure st
     ∧ (has_module storage = false →
        ∃ module_name,
          mount None name extra_root storage_parameters unsecure st
          = (raise (ImportError module_name), st)
          ∧ (contains_char "." storage = false →
             module_name = "pycosio.storage." +:+ storage))
     ∧ (∀ info st',
          mount None name extra_root storage_parameters unsecure st
          = (ret info, st') →
          has_module storage = true
          ∧ system info = storage
          ∧ system_parameters info
            = given_parameters storage_parameters unsecure
          ∧ roots info
            = new_system_roots storage None (system_parameters info)
              ++ (if truthy extra_root then option_list extra_root else [])
          ∧ heap st' = heap st ++ [cached_system info]
          ∧ ∀ root, root ∈ roots info →
                    getitem root (MOUNTED st') = Some info))
  ∧ ((∀ scheme rest, name ≠ scheme +:+ "://" +:+ rest) →
     mount None name extra_root storage_parameters unsecure st
     = (raise (ValueError
          "No storage specified and unable to infer it from file name."),
        st))
  ∧ (∀ s i, String.get i (lower s) = lower_char <$> String.get i s)
  ∧ (∀ c, (65 ≤ nat_of_ascii c ≤ 90)%nat →
          nat_of_ascii (lower_char c) = (nat_of_ascii c + 32)%nat)
  ∧ (∀ c, ¬ (65 ≤ nat_of_ascii c ≤ 90)%nat → lower_char c = c).
Proof.
  split; [|split; [|split; [apply lower_get|split;
    [apply lower_char_upper|apply lower_char_other]]]].
  - intros scheme rest -> Hfree _ storage.
    assert (infer_storage None (scheme +:+ "://" +:+ rest) = ret storage)
      as Hinfer.
    { unfold infer_storage. by rewrite (split_scheme_first _ _ Hfree). }
    split; [exact Hinfer|]. split; [|split].
    + unfold storage_manager.mount. rewrite Hinfer. reflexivity.
    + intros Hmodule. exists ("pycosio.storage." +:+ storage).
      split; [|reflexivity].
      unfold storage_manager.mount. rewrite Hinfer. unfold ret.
      cbn beta iota. rewrite Hmodule. reflexivity.
    + intros info st' Hmount.
      destruct (mount_returns _ _ _ _ _ _ _ _ _ _ Hmount)
        as (Hsystem & Hmodule & Hparams & Hroots & _ & Hmounted & Hheap).
      rewrite Hinfer in Hsystem. unfold ret in Hsystem.
      injection Hsystem as Hsystem. rewrite <- Hsystem in *.
      split; [exact Hmodule|]. split; [reflexivity|].
      split; [exact Hparams|]. split; [exact Hroots|].
      split; [exact Hheap|].
      intros root Hin. rewrite Hmounted, getitem_reorder, getitem_setitems.
      by rewrite decide_True.
  - intros Hnone. unfold storage_manager.mount, infer_storage.
    destruct (split_scheme name) as [scheme|] eqn:Hs; [|reflexivity].
    destruct (split_scheme_Some _ _ Hs) as [rest ->].
    by destruct (Hnone scheme rest).
Qed.

End scheme_inference.

Section scheme_inference_examples.
Import storage_manager registry_invariants samples more_samples.

Lemma https_mount_returns :
  sample_mount None "HTTPS://example.com/file" None PyNone PyNone initial_state
  = (ret https_info,
     {| MOUNTED := [(Pattern "https?://", https_info)];
        heap := [cached_system https_info] |}).
Proof. vm_compute. reflexivity. Qed.

Lemma mount_infers_storage_from_scheme_witness :
  infer_storage None "HTTPS://example.com/file" = ret "http"
  ∧ (∃ info st',
       sample_mount None "HTTPS://example.com/file" None PyNone PyNone
         initial_state
       = (ret info, st')
       ∧ system info = "http"
       ∧ getitem (Pattern "https?://") (MOUNTED st') = Some info)
  ∧ sample_mount None "FTP://example.com/file" None PyNone PyNone
      initial_state
    = (raise (ImportError "pycosio.storage.ftp"), initial_state)
  ∧ sample_mount None "example.com/file" None PyNone PyNone initial_state
    = (raise (ValueError
         "No storage specified and unable to infer it from file name."),
       initial_state).
Proof.
  destruct (proj1 (mount_infers_storage_from_scheme sample_has_module
                     sample_roots "HTTPS://example.com/file" None PyNone
                     PyNone initial_state)
              "HTTPS" "example.com/file" eq_refl)
    as (Hinfer & _ & _ & Hreturns).
  { intros a b. by apply split_scheme_None. }
  { reflexivity. }
  destruct (proj1 (mount_infers_storage_from_scheme sample_has_module
                     sample_roots "FTP://example.com/file" None PyNone
                     PyNone initial_state)
              "FTP" "example.com/file" eq_refl)
    as (_ & _ & Hmissing & _).
  { intros a b. by apply split_scheme_None. }
  { reflexivity. }
  split; [exact Hinfer|]. split; [|split].
  - destruct (Hreturns _ _ https_mount_returns)
      as (_ & Hsystem & _ & _ & _ & Hroots).
    eexists _, _. split; [exact https_mount_returns|].
    split; [exact Hsystem|]. apply Hroots. left.
  - destruct (Hmissing eq_refl) as (module_name & Hraise & Hname).
    rewrite (Hname eq_refl) in Hraise. exact Hraise.
  - apply (proj1 (proj2 (mount_infers_storage_from_scheme sample_has_module
                           sample_roots "example.com/file" None PyNone PyNone
                           initial_state))).
    intros scheme rest. by apply split_scheme_None.
Defined.

End scheme_inference_examples.

(** ** Stream base: the cache of memoized methods *)

Section memoize_properties.
Import io_base.

Lemma run_count_app method_name w o names :
  run_count method_name {| self := o; invoked := invoked w ++ names |}
  = (run_count method_name w
     + length (filter (λ n, n = method_name) names))%nat.
Proof.
  unfold run_count. cbn [invoked]. by rewrite filter_app, length_app.
Qed.

(** X8. A memoized method that raises caches nothing: the exception goes
    to the caller, and when the method has put no entry under its name
    itself, the next call runs the method again and gives what the method
    gives; the method has then run twice. *)
Theorem memoize_does_not_cache_exceptions (method_name : string) (m : method)
    (o o' : ObjectIOBase) (log : list string) (args : list atom)
    (e : exception) :
  _cache o !! method_name = None →
  m o args = (raise e, o') →
  _cache o' !! method_name = None →
  let w1 := {| self := o'; invoked := log ++ [method_name] |} in
  _memoize method_name m args {| self := o; invoked := log |} = (raise e, w1)
  ∧ ∀ args',
      let w2 := (_memoize method_name m args' w1).2 in
      (_memoize method_name m args' w1).1 = (m o' args').1
      ∧ invoked w2 = log ++ [method_name; method_name]
      ∧ run_count method_name w2
        = S (S (run_count method_name {| self := o; invoked := log |})).
Proof.
  intros Hmiss Hm Hkept w1. split.
  - exact (memoize_miss_raises method_name m args
             {| self := o; invoked := log |} e o' Hmiss Hm).
  - intros args'.
    assert (∃ r o'',
              _memoize method_name m args' w1
              = (r, {| self := o'';
                       invoked := log ++ [method_name; method_name] |})
              ∧ r = (m o' args').1) as (r & o'' & -> & ->).
    { unfold _memoize, w1. cbn [self invoked]. rewrite Hkept.
      destruct (m o' args') as [[e'|v] o'']; rewrite <- app_assoc;
        eexists _, _; split; reflexivity. }
    cbv zeta. cbn [fst snd invoked]. split; [reflexivity|].
    split; [reflexivity|].
    rewrite (run_count_app method_name {| self := o; invoked := log |}).
    rewrite !filter_cons_True by reflexivity. cbn [filter length]. 
    rewrite filter_nil. cbn [length]. lia.
Qed.

(** X9. The cache is keyed by the name of the method alone. After a
    memoized method has returned [v], a memoized method of the same name
    returns [v] without running; one of another name, with no entry of its
    own, runs, gives its own result, and leaves the entry of the first as its
    body leaves it. *)
Theorem memoize_is_keyed_by_name (name1 name2 : string) (m1 m2 : method)
    (o o1 : ObjectIOBase) (log : list string) (args1 args2 : list atom)
    (v : atom) :
  _cache o !! name1 = None →
  m1 o args1 = (ret v, o1) →
  let w1 := (_memoize name1 m1 args1 {| self := o; invoked := log |}).2 in
  (name2 = name1 → _memoize name2 m2 args2 w1 = (ret v, w1))
  ∧ (name2 ≠ name1 → _cache o1 !! name2 = None →
     (_memoize name2 m2 args2 w1).1 = (m2 (self w1) args2).1
     ∧ invoked (_memoize name2 m2 args2 w1).2 = log ++ [name1; name2]
     ∧ _cache (self (_memoize name2 m2 args2 w1).2) !! name1
       = _cache (m2 (self w1) args2).2 !! name1).
Proof.
  intros Hmiss Hm w1.
  assert (w1 = {| self := set_cache o1 (<[name1 := v]> (_cache o1));
                  invoked := log ++ [name1] |}) as Hw1.
  { unfold w1, _memoize. cbn [self invoked]. by rewrite Hmiss, Hm. }
  clearbody w1. subst w1. split.
  - intros ->. apply memoize_hit. cbn [self set_cache _cache].
    apply lookup_insert_eq.
  - intros Hne Hfree. unfold _memoize. cbn [self set_cache _cache invoked].
    rewrite lookup_insert_ne by congruence. rewrite Hfree.
    destruct (m2 _ args2) as [[e'|v'] o2]; cbn [fst snd self invoked _cache];
      rewrite <- app_assoc; (split; [reflexivity|]); (split; [reflexivity|]).
    + reflexivity.
    + destruct o2; cbn [set_cache _cache].
      rewrite lookup_insert_ne by congruence. reflexivity.
Qed.

End memoize_properties.

(** ** Azure blobs: range reads *)

Section raw_read_ranges.
Import io_base azure_base_blob.
Variable content : bytes.
Variable get_blob_to_stream : Z → option Z → result bytes.
Hypothesis Hserves : serves content get_blob_to_stream.

Abbreviation _read_range := (azure_base_blob._read_range get_blob_to_stream).

Lemma slice_app a b c :
  (0 ≤ a ≤ b)%Z → (b ≤ c)%Z →
  slice a b content ++ slice b c content = slice a c content.
Proof.
  intros [Ha Hab] Hbc. unfold slice.
  replace (Z.to_nat (c - a)) with (Z.to_nat (b - a) + Z.to_nat (c - b))%nat
    by lia.
  replace (Z.to_nat b) with (Z.to_nat a + Z.to_nat (b - a))%nat by lia.
  rewrite <- drop_drop. apply take_take_drop.
Qed.

(** X10. With a client that serves a blob, the range reads compose: for
    [0 <= a < b < c] the bytes read from [a] to [b] followed by the bytes
    read from [b] to [c] are the bytes read from [a] to [c]. The first read
    returns the bytes of the blob from [a] to [b], exactly [b - a] of them
    when the blob reaches [b]; when it returns fewer, the second returns
    none. *)
Theorem read_range_adjacent_ranges_compose (a b c : Z) :
  (0 ≤ a < b)%Z → (b < c)%Z →
  ∃ first second,
    _read_range a b = ret first
    ∧ _read_range b c = ret second
    ∧ _read_range a c = ret (first ++ second)
    ∧ first = slice a b content
    ∧ ((b ≤ Z.of_nat (length content))%Z →
       Z.of_nat (length first) = (b - a)%Z)
    ∧ ((Z.of_nat (length first) < b - a)%Z → second = []).
Proof.
  intros [Ha Hab] Hbc.
  exists (slice a b content), (slice b c content).
  rewrite !(read_range_served content get_blob_to_stream Hserves) by lia.
  destruct (Z.eqb_spec b 0) as [?|_]; [lia|].
  destruct (Z.eqb_spec c 0) as [?|_]; [lia|].
  split; [reflexivity|]. split; [reflexivity|].
  split; [by rewrite slice_app by lia|]. split; [reflexivity|].
  rewrite length_slice by lia. split.
  - lia.
  - intros Hshort. apply slice_past_end. lia.
Qed.

(** X11. With a client that serves a blob, a range read with [end=0] sends
    no end to the service and returns the blob from [start] to its last
    byte, so that the read from 0 to 0 returns the whole blob; with any other
    [end] it returns [end - start] bytes at most. *)
Theorem read_range_without_end_reads_to_the_end :
  (∀ start, (0 ≤ start)%Z →
     _read_range start 0 = ret (drop (Z.to_nat start) content))
  ∧ _read_range 0 0 = ret content
  ∧ (∀ start end_ data, (0 ≤ start)%Z → (end_ ≠ 0)%Z →
       _read_range start end_ = ret data →
       (Z.of_nat (length data) ≤ Z.max 0 (end_ - start))%Z).
Proof.
  assert (∀ start, (0 ≤ start)%Z →
            _read_range start 0 = ret (drop (Z.to_nat start) content))
    as Hend.
  { intros start Hstart.
    rewrite (read_range_served content get_blob_to_stream Hserves) by lia.
    cbn [Z.eqb]. unfold slice. f_equal. apply take_ge.
    rewrite length_drop. lia. }
  split; [exact Hend|]. split; [exact (Hend 0%Z ltac:(lia))|].
  intros start end_ data Hstart Hnz.
  rewrite (read_range_served content get_blob_to_stream Hserves) by lia.
  destruct (Z.eqb_spec end_ 0) as [?|_]; [contradiction|].
  unfold ret. intros [= <-]. rewrite length_slice by lia. lia.
Qed.

End raw_read_ranges.

Section raw_read_ranges_examples.
Import io_base azure_base_blob samples.

Lemma sample_blob_served : serves sample_blob (blob_range sample_blob).
Proof. intros start_range end_range _. reflexivity. Qed.

Lemma read_range_adjacent_ranges_compose_witness :
  ∃ first second,
    azure_base_blob._read_range (blob_range sample_blob) 70 90 = ret first
    ∧ azure_base_blob._read_range (blob_range sample_blob) 90 120 = ret second
    ∧ azure_base_blob._read_range (blob_range sample_blob) 70 120
      = ret (first ++ second)
    ∧ first = replicate 10 Byte.x61 ++ replicate 10 Byte.x62.
Proof.
  destruct (read_range_adjacent_ranges_compose sample_blob
              (blob_range sample_blob) sample_blob_served 70 90 120)
    as (first & second & H1 & H2 & H3 & H4 & _); [lia|lia|].
  exists first, second. split; [exact H1|]. split; [exact H2|].
  split; [exact H3|]. rewrite H4. reflexivity.
Defined.

Lemma read_range_without_end_reads_to_the_end_witness :
  azure_base_blob._read_range (blob_range sample_blob) 90 0
  = ret (replicate 10 Byte.x62)
  ∧ azure_base_blob._read_range (blob_range sample_blob) 0 0 = ret sample_blob.
Proof.
  destruct (read_range_without_end_reads_to_the_end sample_blob
              (blob_range sample_blob) sample_blob_served) as (Hend & Hall & _).
  split; [|exact Hall]. exact (Hend 90%Z ltac:(lia)).
Defined.

End raw_read_ranges_examples.

(** ** Azure block blobs: the requests of a written stream *)

Section block_id_properties.
Import azure_base_blob azure_block_blob.
Variable random_index : nat → nat.

Abbreviation choice := (azure_block_blob.choice random_index).
Abbreviation _get_random_block_id :=
  (azure_block_blob._get_random_block_id random_index).

Lemma choice_lowercase n :
  contains_char (choice n _ascii_lowercase) _ascii_lowercase = true.
Proof.
  unfold azure_block_blob.choice.
  change (String.length _ascii_lowercase) with 26%nat.
  assert (random_index n mod 26 < 26)%nat as Hlt
    by (apply Nat.mod_upper_bound; lia).
  generalize dependent (random_index n mod 26)%nat. intros k Hlt.
  do 26 (destruct k as [|k]; [reflexivity|]). lia.
Qed.

Lemma random_block_id_shape length from :
  String.length (_get_random_block_id length from) = length
  ∧ Forall (λ c, contains_char c _ascii_lowercase = true)
      (list_ascii_of_string (_get_random_block_id length from)).
Proof.
  revert from. induction length as [|length IH]; intros from.
  - split; [reflexivity|constructor].
  - cbn [azure_block_blob._get_random_block_id String.length
           list_ascii_of_string].
    destruct (IH (S from)) as [Hlen Hall]. split; [by rewrite Hlen|].
    constructor; [apply choice_lowercase|exact Hall].
Qed.

End block_id_properties.

Section block_blob_traces_properties.
Import azure_base_blob azure_block_blob block_blob_traces.
Variable random_index : nat → nat.
Variable put_block_error : nat → option exception.
Variable committed_blocks : result (list BlobBlock).
Variable put_block_list_error : option exception.

Abbreviation nth_block_id := (azure_block_blob.nth_block_id random_index).
Abbreviation blocks_of := (azure_block_blob.blocks_of random_index).
Abbreviation world_of :=
  (azure_block_blob.world_of random_index put_block_error).
Abbreviation uploads := (azure_block_blob.uploads random_index).
Abbreviation step :=
  (azure_block_blob.step random_index put_block_error committed_blocks
     put_block_list_error).
Abbreviation run :=
  (azure_block_blob.run random_index put_block_error committed_blocks
     put_block_list_error).
Abbreviation closing_requests :=
  (block_blob_traces.closing_requests random_index committed_blocks).
Abbreviation closing_result :=
  (block_blob_traces.closing_result committed_blocks put_block_list_error).
Abbreviation traced :=
  (block_blob_traces.traced random_index put_block_error committed_blocks
     put_block_list_error).

Lemma uploads_snoc buffers order h buffer :
  buffers !! h = Some buffer →
  uploads buffers (order ++ [h])
  = uploads buffers order ++ [put_block buffer (nth_block_id h)].
Proof.
  intros Hh. unfold azure_block_blob.uploads.
  rewrite omap_app. cbn [omap list_omap]. rewrite Hh. reflexivity.
Qed.

Lemma ran_snoc order h i :
  ran (order ++ [h]) i = ran order i || bool_decide (i = h).
Proof.
  unfold ran. apply eq_true_iff_eq.
  rewrite orb_true_iff, !bool_decide_eq_true, elem_of_app,
    list_elem_of_singleton. reflexivity.
Qed.

Lemma traced_open buffers : traced buffers (open_stream buffers).
Proof.
  exists 0%nat, []. split; [constructor|]. split.
  - intros h Hh. by apply elem_of_nil in Hh.
  - split; [lia|]. left. split; reflexivity.
Qed.

Lemma ran_all order n :
  NoDup order → (∀ h, h ∈ order → (h < n)%nat) →
  (∀ i, (i < n)%nat → ran order i = true) →
  order ≡ₚ seq 0 n.
Proof.
  intros Hnodup Hlt Hall. apply NoDup_Permutation.
  - exact Hnodup.
  - apply NoDup_seq.
  - intros h. rewrite elem_of_seq. split.
    + intros Hh. specialize (Hlt h Hh). lia.
    + intros Hh. specialize (Hall h ltac:(lia)).
      unfold ran in Hall. by apply bool_decide_eq_true in Hall.
Qed.

Lemma traced_step buffers s t :
  traced buffers s → traced buffers (step s t).
Proof.
  intros (k & order & Hnodup & Hlt & Hk & Hstate).
  destruct s as [w m]. cbn [state main] in Hstate.
  assert (length (take k buffers) = k) as Hlen by (rewrite length_take; lia).
  destruct Hstate as [[-> Hmain]|(-> & Hperm & Hnoerr & -> & ->)].
  - destruct t as [|h]; cbn [azure_block_blob.step state main].
    + destruct m as [[|buffer rest]|r].
      * (* the writer closes the stream *)
        assert (k = length buffers) as ->.
        { symmetry in Hmain. apply drop_nil_inv in Hmain. lia. }
        rewrite close_world_of, Hlen.
        pose proof (wait_cases random_index put_block_error 0
                      (length buffers) (take (length buffers) buffers)
                      (ran order) (uploads buffers order)) as Hwait.
        rewrite Hlen in Hwait. specialize (Hwait ltac:(lia)).
        destruct (wait _ _) as [[e|[]]|].
        -- destruct Hwait as (h & Hh & _ & Hrun & He).
           exists (length buffers), order.
           split; [exact Hnodup|]. split; [exact Hlt|]. split; [lia|].
           left. cbn [state main]. split; [reflexivity|].
           split; [reflexivity|]. exists h, e.
           split; [|split; [exact He|reflexivity]].
           unfold ran in Hrun. by apply bool_decide_eq_true in Hrun.
        -- cbn [Nat.add] in Hwait.
           exists (length buffers), order.
           split; [exact Hnodup|]. split; [exact Hlt|]. split; [lia|].
           right. split; [reflexivity|]. split.
           { apply ran_all; [exact Hnodup|exact Hlt|].
             intros i Hi. exact (proj1 (Hwait i ltac:(lia))). }
           split.
           { intros i Hi. exact (proj2 (Hwait i ltac:(lia))). }
           rewrite take_ge by lia.
           unfold block_blob_traces.closing_requests,
             block_blob_traces.closing_result.
           destruct committed_blocks as [e|committed]; cbn [state main];
             split; reflexivity.
        -- exists (length buffers), order.
           split; [exact Hnodup|]. split; [exact Hlt|]. split; [lia|].
           left. split; [reflexivity|exact Hmain].
      * (* the writer flushes a buffer *)
        assert (buffers !! k = Some buffer) as Hbuffer.
        { rewrite <- (Nat.add_0_r k), <- lookup_drop, <- Hmain. reflexivity. }
        apply lookup_lt_Some in Hbuffer as Hltk.
        rewrite flush_world_of.
        2:{ rewrite Hlen. unfold ran. apply bool_decide_eq_false.
            intros Hin. specialize (Hlt k Hin). lia. }
        exists (S k), order. split; [exact Hnodup|]. split.
        { intros h Hh. specialize (Hlt h Hh). lia. }
        split; [lia|]. left. cbn [state main]. split.
        -- by rewrite (take_S_r _ _ _ Hbuffer).
        -- apply (f_equal (drop 1)) in Hmain. rewrite drop_drop in Hmain.
           by replace (k + 1)%nat with (S k) in Hmain by lia.
      * exists k, order. split; [exact Hnodup|]. split; [exact Hlt|].
        split; [lia|]. left. split; [reflexivity|exact Hmain].
    + (* a worker runs the task of a future *)
      destruct (take k buffers !! h) as [buffer|] eqn:Hh;
        [destruct (ran order h) eqn:Hdone|].
      * rewrite run_task_done by auto. exists k, order.
        split; [exact Hnodup|]. split; [exact Hlt|]. split; [lia|].
        left. split; [reflexivity|exact Hmain].
      * rewrite (run_task_world_of _ _ _ _ _ _ buffer) by assumption.
        apply lookup_lt_Some in Hh as Hhk. rewrite Hlen in Hhk.
        rewrite lookup_take_lt in Hh by lia.
        exists k, (order ++ [h]). split.
        { apply NoDup_app. split; [exact Hnodup|]. split.
          - intros x Hx Hx'. apply list_elem_of_singleton in Hx' as ->.
            unfold ran in Hdone. apply bool_decide_eq_false in Hdone.
            contradiction.
          - apply NoDup_singleton. }
        split.
        { intros x [Hx|Hx]%elem_of_app; [by apply Hlt|].
          apply list_elem_of_singleton in Hx as ->. exact Hhk. }
        split; [lia|]. left. cbn [state main]. split.
        -- rewrite (uploads_snoc _ _ _ _ Hh). apply world_of_ext.
           intros i _. by rewrite ran_snoc.
        -- destruct m as [rest|r]; [exact Hmain|].
           destruct Hmain as (-> & h0 & e & Hh0 & He & ->).
           split; [reflexivity|]. exists h0, e.
           split; [apply elem_of_app; by left|]. by split.
      * rewrite run_task_done by auto. exists k, order.
        split; [exact Hnodup|]. split; [exact Hlt|]. split; [lia|].
        left. split; [reflexivity|exact Hmain].
  - (* the stream has closed after the requests of the closing *)
    exists (length buffers), order.
    split; [exact Hnodup|]. split; [exact Hlt|]. split; [lia|]. right.
    split; [reflexivity|]. split; [exact Hperm|]. split; [exact Hnoerr|].
    destruct t as [|h]; cbn [azure_block_blob.step state main];
      [split; reflexivity|].
    rewrite run_task_done; [split; reflexivity|].
    destruct (buffers !! h) as [buffer|] eqn:Hh; [right|by left].
    apply lookup_lt_Some in Hh. unfold ran. apply bool_decide_eq_true.
    rewrite Hperm. apply elem_of_seq. lia.
Qed.

Lemma traced_run buffers turns s :
  traced buffers s → traced buffers (run turns s).
Proof.
  revert s. induction turns as [|t turns IH]; intros s Hs; [exact Hs|].
  rewrite run_cons. apply IH. by apply traced_step.
Qed.


(** X13. Whatever the order of the turns of writer and workers, there is
    an order [order], without repetition, of the futures that have run: a
    future of the pool holds the buffer and the block id of its flush, and
    its outcome is the answer of the service to its upload when it is in
    [order], and none when it is not. The requests the service has answered
    are the uploads of the futures of [order], one each and in that order.
    Nothing follows them as long as the stream is open, and when it has
    closed on the error of an upload that has run and failed. Otherwise every
    future has run, no upload has failed, the stream has closed with the
    result of the closing requests, and the uploads are followed by
    [get_block_list] and, when that returned, by [put_block_list]. *)
Theorem requests_are_uploads_then_closing (buffers : list bytes)
    (turns : list turn) :
  let n := length buffers in
  let s := run turns (open_stream buffers) in
  ∃ order,
    NoDup order
    ∧ (∀ h, h ∈ order → (h < length (_workers (state s)))%nat)
    ∧ (length (_workers (state s)) ≤ n)%nat
    ∧ (∀ h f,
         _workers (state s) !! h = Some f →
         buffers !! h = Some (block f)
         ∧ block_id f = nth_block_id h
         ∧ (h ∈ order →
            outcome f = Some (azure_block_blob.answer put_block_error h))
         ∧ (h ∉ order → outcome f = None))
    ∧ Forall2
        (λ h request,
           ∃ buffer,
             buffers !! h = Some buffer
             ∧ request = put_block buffer (nth_block_id h))
        order (uploads buffers order)
    ∧ (calls (state s) = uploads buffers order
       ∧ (∀ r, main s = closed r →
               ∃ h e, h ∈ order ∧ put_block_error h = Some e ∧ r = raise e)
       ∨ order ≡ₚ seq 0 n
         ∧ (∀ i, (i < n)%nat → put_block_error i = None)
         ∧ main s = closed closing_result
         ∧ calls (state s) = uploads buffers order ++ closing_requests n).
Proof.
  intros n s.
  destruct (traced_run buffers turns _ (traced_open buffers))
    as (k & order & Hnodup & Hlt & Hk & Hstate).
  fold s in Hstate. exists order. split; [exact Hnodup|].
  assert (∃ cs, state s = world_of (take k buffers) (ran order) cs)
    as [cs Hworld].
  { destruct Hstate as [[-> _]|(-> & _ & _ & -> & _)].
    - by eexists.
    - eexists. by rewrite take_ge by lia. }
  assert (length (take k buffers) = k) as Hlen by (rewrite length_take; lia).
  assert (∀ h, h ∈ order → (h < n)%nat) as Hlt'.
  { intros h Hh. specialize (Hlt h Hh). unfold n. lia. }
  rewrite Hworld. cbn [_workers azure_block_blob.world_of].
  rewrite pool_of_length, Hlen.
  split; [exact Hlt|]. split; [exact Hk|]. split; [|split].
  - intros h f Hf. rewrite pool_of_lookup in Hf.
    destruct (take k buffers !! h) as [buffer|] eqn:Hh; [|discriminate Hf].
    cbn [fmap option_fmap option_map] in Hf. injection Hf as <-.
    cbn [block block_id outcome].
    apply lookup_lt_Some in Hh as Hhk. rewrite Hlen in Hhk.
    rewrite lookup_take_lt in Hh by lia.
    split; [exact Hh|]. split; [reflexivity|]. unfold ran. split.
    + intros Hin. by rewrite bool_decide_true.
    + intros Hnot. by rewrite bool_decide_false.
  - clear Hstate Hnodup Hlt Hworld. unfold azure_block_blob.uploads.
    induction order as [|h order IH]; [constructor|].
    cbn [omap list_omap].
    destruct (lookup_lt_is_Some_2 buffers h) as [buffer Hbuffer].
    { apply Hlt'. left. }
    rewrite Hbuffer. cbn [fmap option_fmap option_map]. constructor.
    + by exists buffer.
    + apply IH. intros h' Hh'. apply Hlt'. by right.
  - rewrite <- Hworld.
    destruct Hstate as [[Hs Hmain]|(-> & Hperm & Hnoerr & Hs & Hmain)].
    + left. rewrite Hs. split; [reflexivity|].
      intros r Hr. rewrite Hr in Hmain.
      destruct Hmain as (_ & h & e & Hh & He & ->). by exists h, e.
    + right. split; [exact Hperm|]. split; [exact Hnoerr|].
      split; [exact Hmain|]. rewrite Hs. reflexivity.
Qed.

(** X14. A stream that has closed either raised the error of a failed
    upload, or made the requests of the closing after one upload per buffer,
    none of which failed, and returned or raised what those requests did.
    When it closed without error the service has answered one upload per
    buffer, then [get_block_list], then [put_block_list] with the committed
    blocks followed by the blocks of the flushes. *)
Theorem closed_stream_outcome (buffers : list bytes) (turns : list turn)
    (r : result ()) :
  let n := length buffers in
  let s := run turns (open_stream buffers) in
  main s = closed r →
  ((∃ h e, (h < n)%nat ∧ put_block_error h = Some e ∧ r = raise e)
   ∨ ((∀ i, (i < n)%nat → put_block_error i = None)
      ∧ r = closing_result
      ∧ ∃ order,
          order ≡ₚ seq 0 n
          ∧ calls (state s) = uploads buffers order ++ closing_requests n))
  ∧ (r = ret () →
     ∃ order committed,
       order ≡ₚ seq 0 n
       ∧ committed_blocks = ret committed
       ∧ put_block_list_error = None
       ∧ calls (state s)
         = uploads buffers order
           ++ [get_block_list; put_block_list (committed ++ blocks_of n)]).
Proof.
  intros n s Hclosed.
  destruct (traced_run buffers turns _ (traced_open buffers))
    as (k & order & Hnodup & Hlt & Hk & Hstate).
  fold s in Hstate.
  assert ((∃ h e, (h < n)%nat ∧ put_block_error h = Some e ∧ r = raise e)
          ∨ ((∀ i, (i < n)%nat → put_block_error i = None)
             ∧ r = closing_result
             ∧ order ≡ₚ seq 0 n
             ∧ calls (state s)
               = uploads buffers order ++ closing_requests n)) as Hcases.
  { destruct Hstate as [[_ Hmain]|(-> & Hperm & Hnoerr & -> & Hmain)].
    - rewrite Hclosed in Hmain. destruct Hmain as (-> & h & e & Hh & He & ->).
      left. exists h, e. split; [by apply Hlt|]. by split.
    - right. rewrite Hclosed in Hmain. injection Hmain as ->.
      split; [exact Hnoerr|]. split; [reflexivity|].
      split; [exact Hperm|reflexivity]. }
  split.
  - destruct Hcases as [Hfail|(Hnoerr & Hr & Hperm & Hcalls)];
      [by left|right].
    split; [exact Hnoerr|]. split; [exact Hr|]. by exists order.
  - intros ->. destruct Hcases as [(h & e & _ & _ & Hr)|
                                   (_ & Hr & Hperm & Hcalls)].
    + unfold raise, ret in Hr. discriminate Hr.
    + unfold block_blob_traces.closing_result,
        block_blob_traces.closing_requests in Hr, Hcalls.
      destruct committed_blocks as [e|committed];
        [unfold raise, ret in Hr; discriminate Hr|].
      destruct put_block_list_error as [e|];
        [unfold raise, ret in Hr; discriminate Hr|].
      exists order, committed. split; [exact Hperm|].
      split; [reflexivity|]. split; [reflexivity|exact Hcalls].
Qed.

(** X12. A random block id of length [n] has [n] characters, all of them
    lower-case letters, whatever the random source. In every state of a
    written stream each block of the stream has an id of 32 such letters,
    each upload answered carries the id of a block of the stream, and the
    stream holds one block per future, no more than it has flushed
    buffers. *)
Theorem block_ids_are_lowercase_letters :
  (∀ length from,
     String.length (_get_random_block_id random_index length from) = length
     ∧ Forall (λ c, contains_char c _ascii_lowercase = true)
         (list_ascii_of_string
            (_get_random_block_id random_index length from)))
  ∧ ∀ buffers turns,
      let s := run turns (open_stream buffers) in
      (∀ b, b ∈ _blocks (self (state s)) →
            String.length (id b) = 32%nat
            ∧ Forall (λ c, contains_char c _ascii_lowercase = true)
                (list_ascii_of_string (id b)))
      ∧ (∀ buffer block_id,
           put_block buffer block_id ∈ calls (state s) →
           ∃ b, b ∈ _blocks (self (state s)) ∧ id b = block_id)
      ∧ length (_blocks (self (state s)))
        = length (_write_futures (self (state s)))
      ∧ (length (_blocks (self (state s))) ≤ length buffers)%nat.
Proof.
  split; [apply random_block_id_shape|].
  intros buffers turns s.
  destruct (traced_run buffers turns _ (traced_open buffers))
    as (k & order & Hnodup & Hlt & Hk & Hstate).
  fold s in Hstate.
  assert (∃ k' cs,
            (k' ≤ length buffers)%nat
            ∧ state s = world_of (take k' buffers) (ran order) cs
            ∧ (∀ h, h ∈ order → (h < k')%nat)
            ∧ (∀ buffer block_id,
                 put_block buffer block_id ∈ cs →
                 ∃ h, h ∈ order ∧ block_id = nth_block_id h))
    as (k' & cs & Hk' & -> & Hlt' & Hcs).
  { assert (∀ buffer block_id,
              put_block buffer block_id ∈ uploads buffers order →
              ∃ h, h ∈ order ∧ block_id = nth_block_id h) as Hup.
    { intros buffer block_id Hin. unfold azure_block_blob.uploads in Hin.
      apply list_elem_of_omap in Hin as (h & Hh & Heq).
      destruct (buffers !! h) as [buffer'|]; [|discriminate Heq].
      injection Heq as _ <-. by exists h. }
    destruct Hstate as [[-> _]|(-> & Hperm & _ & -> & _)].
    - exists k, (uploads buffers order). auto.
    - exists (length buffers), (uploads buffers order
                                 ++ closing_requests (length buffers)).
      split; [lia|]. rewrite take_ge by lia. split; [reflexivity|].
      split; [exact Hlt|].
      intros buffer block_id [Hin|Hin]%elem_of_app;
        [exact (Hup _ _ Hin)|].
      exfalso. unfold block_blob_traces.closing_requests in Hin.
      destruct committed_blocks; repeat
        (apply elem_of_cons in Hin as [Hin|Hin]; [discriminate Hin|]);
        by apply elem_of_nil in Hin. }
  cbn [azure_block_blob.world_of self state _blocks _write_futures calls].
  assert (length (take k' buffers) = k') as Hlen
    by (rewrite length_take; lia).
  rewrite Hlen, blocks_of_seq.
  split; [|split; [|split]].
  - intros b Hb. apply list_elem_of_fmap in Hb as (i & -> & _).
    cbn [id]. apply random_block_id_shape.
  - intros buffer block_id Hin. destruct (Hcs _ _ Hin) as (h & Hh & ->).
    exists {| id := nth_block_id h |}. split; [|reflexivity].
    apply list_elem_of_fmap. exists h. split; [reflexivity|].
    apply elem_of_seq. specialize (Hlt' h Hh). lia.
  - by rewrite length_fmap.
  - rewrite length_fmap, length_seq. lia.
Qed.

End block_blob_traces_properties.

(** ** Examples for the properties above *)

Section registry_examples.
Import storage_manager registry_invariants samples more_samples.

Lemma dummy_mount_returns :
  sample_mount (Some "dummy") "" (Some (Str "dm://")) PyNone PyNone
    initial_state
  = (ret dummy_info, dm_mounted).
Proof. vm_compute. reflexivity. Qed.

Lemma dummy_sub_mount_returns :
  sample_mount (Some "dummy_sub") "" None PyNone PyNone dm_mounted
  = (ret dummy_sub_info,
     (sample_mount (Some "dummy_sub") "" None PyNone PyNone dm_mounted).2).
Proof. vm_compute. reflexivity. Qed.

Lemma mount_registers_its_roots_witness :
  getitem (Str "dummy://") (MOUNTED dm_mounted) = Some dummy_info
  ∧ getitem (Str "dm://") (MOUNTED dm_mounted) = Some dummy_info
  ∧ heap dm_mounted !! 0%nat = Some (cached_system dummy_info).
Proof.
  destruct (mount_registers_its_roots sample_has_module sample_roots
              (Some "dummy") "" (Some (Str "dm://")) PyNone PyNone
              initial_state dummy_info dm_mounted dummy_mount_returns)
    as (Hroots & Hextra & _ & _ & Hnew & _).
  split; [|split].
  - apply Hroots. left.
  - apply (Hextra (Str "dm://")); reflexivity.
  - exact Hnew.
Defined.

Lemma mount_keeps_other_entries_witness :
  getitem (Str "dm://")
    (MOUNTED (sample_mount (Some "dummy_sub") "" None PyNone PyNone
                dm_mounted).2)
  = getitem (Str "dm://") (MOUNTED dm_mounted)
  ∧ (Str "dummy://sub/"
     ∈ (MOUNTED (sample_mount (Some "dummy_sub") "" None PyNone PyNone
                   dm_mounted).2).*1).
Proof.
  destruct (mount_keeps_other_entries sample_has_module sample_roots
              (Some "dummy_sub") "" None PyNone PyNone dm_mounted
              dummy_sub_info _ dummy_sub_mount_returns)
    as (Hother & Hkeys & _ & _).
  split.
  - apply Hother. intros Hin. apply list_elem_of_singleton in Hin.
    discriminate Hin.
  - apply Hkeys. right. left.
Defined.

Lemma dummy_served_returns :
  sample_get_instance "dummy://a" None PyNone PyNone initial_state
  = (ret 0%nat, dummy_served).
Proof. vm_compute. reflexivity. Qed.

Lemma dummy_served_keys : (MOUNTED dummy_served).*1 = [Str "dummy://"].
Proof. vm_compute. reflexivity. Qed.

Lemma get_instance_mounts_then_reuses_witness :
  sample_get_instance "dummy://a" None PyNone PyNone initial_state
  = (ret 0%nat, dummy_served)
  ∧ sample_get_instance "dummy://a" None PyNone PyNone dummy_served
    = (ret 0%nat, dummy_served).
Proof.
  destruct (get_instance_mounts_then_reuses re_match_optional
              sample_has_module sample_roots "dummy://a" None PyNone PyNone
              initial_state 0%nat dummy_served eq_refl dummy_served_returns)
    as (_ & _ & Hreuse & _).
  split; [exact dummy_served_returns|]. apply Hreuse.
  exists (Str "dummy://"). rewrite dummy_served_keys.
  split; [left|reflexivity].
Defined.

Lemma get_instance_override_not_cached_witness :
  ∃ fresh st1 st2,
    sample_get_instance "mycloud://object" None other_account PyNone
      http_mounted
    = (ret (length (heap http_mounted)), st1)
    ∧ sample_get_instance "mycloud://object" None other_account PyNone st1
      = (ret (S (length (heap http_mounted))), st2)
    ∧ heap st2 = heap http_mounted ++ [fresh; fresh]
    ∧ sys_roots_kwarg fresh
      = Some [Str "https://www.mycloud.com/user/"; Str "mycloud://"].
Proof.
  destruct other_account_given as (Hne & Hdiff & _).
  destruct (get_instance_override_not_cached re_match_optional
              sample_has_module sample_roots "mycloud://object" None
              other_account PyNone http_mounted (Str "mycloud://")
              mycloud_info http_mounted_lookup_mycloud Hne Hdiff)
    as (fresh & st1 & st2 & H1 & H2 & _ & _ & Hheap & Hroots & _).
  exists fresh, st1, st2. split; [exact H1|]. split; [exact H2|].
  split; [exact Hheap|exact Hroots].
Defined.

End registry_examples.

Section memoize_examples.
Import io_base samples more_samples.

Lemma memoize_does_not_cache_exceptions_witness :
  _memoize "_head" sample_failing [] {| self := sample_stream; invoked := [] |}
  = (raise (OtherError "no answer"),
     {| self := sample_stream; invoked := ["_head"] |})
  ∧ run_count "_head"
      (_memoize "_head" sample_failing []
         {| self := sample_stream; invoked := ["_head"] |}).2
    = 2%nat.
Proof.
  destruct (memoize_does_not_cache_exceptions "_head" sample_failing
              sample_stream sample_stream [] [] (OtherError "no answer")
              eq_refl eq_refl eq_refl) as [Hfirst Hnext].
  split; [exact Hfirst|]. exact (proj2 (proj2 (Hnext []))).
Defined.

Lemma memoize_is_keyed_by_name_witness :
  let w1 :=
    (_memoize "_getsize" sample_getsize []
       {| self := sample_stream; invoked := [] |}).2 in
  _memoize "_getsize" sample_seven [] w1 = (ret (AInt 100), w1)
  ∧ (_memoize "_seven" sample_seven [] w1).1 = ret (AInt 7).
Proof.
  destruct (memoize_is_keyed_by_name "_getsize" "_getsize" sample_getsize
              sample_seven sample_stream sample_stream [] [] [] (AInt 100)
              eq_refl eq_refl) as [Hsame _].
  destruct (memoize_is_keyed_by_name "_getsize" "_seven" sample_getsize
              sample_seven sample_stream sample_stream [] [] [] (AInt 100)
              eq_refl eq_refl) as [_ Hother].
  split.
  - exact (Hsame eq_refl).
  - destruct Hother as (Hrun & _); [discriminate|reflexivity|].
    exact Hrun.
Defined.

End memoize_examples.

Section block_blob_traces_examples.
Import azure_base_blob azure_block_blob block_blob_traces samples.

Lemma sample_stream_closes :
  main (run sample_random_index (λ _, None) sample_committed None
          (replicate 3 main_thread ++ (worker <$> [2; 1; 0]%nat)
           ++ [main_thread])
          (open_stream sample_buffers))
  = closed (ret ()).
Proof. vm_compute. reflexivity. Qed.

Lemma closed_stream_outcome_witness :
  ∃ order committed,
    order ≡ₚ seq 0 3
    ∧ sample_committed = ret committed
    ∧ calls (state (run sample_random_index (λ _, None) sample_committed None
                      (replicate 3 main_thread ++ (worker <$> [2; 1; 0]%nat)
                       ++ [main_thread])
                      (open_stream sample_buffers)))
      = uploads sample_random_index sample_buffers order
        ++ [get_block_list;
            put_block_list (committed ++ blocks_of sample_random_index 3)].
Proof.
  destruct (closed_stream_outcome sample_random_index (λ _, None)
              sample_committed None sample_buffers
              (replicate 3 main_thread ++ (worker <$> [2; 1; 0]%nat)
               ++ [main_thread])
              (ret ()) sample_stream_closes) as [_ Hok].
  destruct (Hok eq_refl) as (order & committed & Hperm & Hc & _ & Hcalls).
  exists order, committed. split; [exact Hperm|].
  split; [exact Hc|exact Hcalls].
Defined.

End block_blob_traces_examples.

(** ** Storage manager: the dictionaries of parameters as objects *)

Section shared_parameters.
Import storage_manager storage_manager_shared.
Variable re_match : string → string → bool.
Variable has_module : string → bool.
Variable new_system_roots :
  string → option (list root) →
  option bool * option (option (gmap string entry)) → list root.

Abbreviation get_instance :=
  (storage_manager_shared.get_instance re_match has_module new_system_roots).
Abbreviation lookup := (storage_manager_shared.lookup re_match).

Lemma is_empty_true p : is_empty p = true ↔ p = no_parameters.
Proof. unfold is_empty. apply bool_decide_eq_true. Qed.

Lemma is_empty_storage_parameters p d :
  storage_parameters_item p = Some d → is_empty p = false.
Proof.
  intros Hd. unfold is_empty. apply bool_decide_eq_false. intros ->.
  discriminate Hd.
Qed.

Lemma is_empty_unsecure p b :
  unsecure_item p = Some b → is_empty p = false.
Proof.
  intros Hb. unfold is_empty. apply bool_decide_eq_false. intros ->.
  discriminate Hb.
Qed.

Lemma lookup_alter_marked (l : list (gmap string entry)) d c v :
  l !! d = Some c →
  alter (insert "pycosio.system_cached" v) d l
  = <[d := <["pycosio.system_cached" := v]> c]> l.
Proof.
  intros Hd. apply list_eq. intros i. destruct (decide (i = d)) as [->|Hne].
  - rewrite list_lookup_alter_eq, Hd.
    rewrite list_lookup_insert_eq by (by eapply lookup_lt_Some).
    reflexivity.
  - rewrite list_lookup_alter_ne by done.
    by rewrite list_lookup_insert_ne by done.
Qed.

Lemma get_instance_found name cls storage storage_parameters unsecure args
    kwargs st r info stored :
  lookup name (MOUNTED st) = Some (r, info) →
  parameter_dicts st !! system_parameters info = Some stored →
  get_instance name cls storage storage_parameters unsecure args kwargs st
  = if is_empty (_system_parameters unsecure storage_parameters) then
      instantiate new_system_roots name cls args kwargs info true
        (if is_empty stored then Local no_parameters
         else Stored (system_parameters info)) st
    else if equal st (_system_parameters unsecure storage_parameters) stored
    then
      instantiate new_system_roots name cls args kwargs info true
        (Local (_system_parameters unsecure storage_parameters)) st
    else
      instantiate new_system_roots name cls args kwargs info false
        (Local (update_missing
                  (_system_parameters unsecure storage_parameters) stored))
        st.
Proof.
  intros Hlook Hstored. unfold storage_manager_shared.get_instance.
  rewrite Hlook. unfold get_system_parameters. cbn [read].
  rewrite Hstored. reflexivity.
Qed.

Lemma equal_storage_parameters st unsecure d' stored d :
  storage_parameters_item stored = Some d →
  equal st (_system_parameters unsecure (Some d')) stored
  = bool_decide (unsecure = unsecure_item stored
                 ∧ dicts st !! d' = dicts st !! d).
Proof.
  intros Hd. unfold equal, content, _system_parameters.
  cbn [unsecure_item storage_parameters_item]. rewrite Hd.
  cbn [fmap option_fmap option_map]. apply bool_decide_ext.
  split; [intros [= -> ->]; by split|intros [-> ->]; reflexivity].
Qed.

(** X15. A call of [get_instance] for a stream class, without parameters,
    on a storage mounted with a [storage_parameters] dictionary, writes into
    that dictionary itself: the cached system is stored in it under
    'pycosio.system_cached', and the stream class receives the dictionary.
    The parameters stored in the registry have changed with it: a call for the
    system class that gives another dictionary with the items of the mount
    returned the cached system before the call for the stream, and builds a
    new system after it. *)
Theorem stream_call_writes_into_the_mounted_dictionary (name : string)
    (cls : class_name) (storage : option string) (args : list atom)
    (kwargs : gmap string atom) (st : state) (r : root) (info : storage_info)
    (stored : parameters) (d d' : nat) (c : gmap string entry) :
  cls ≠ system_class →
  lookup name (MOUNTED st) = Some (r, info) →
  parameter_dicts st !! system_parameters info = Some stored →
  storage_parameters_item stored = Some d →
  dicts st !! d = Some c →
  c !! "pycosio.system_cached" ≠ Some (SystemObject (system_cached info)) →
  d' ≠ d → dicts st !! d' = Some c →
  let marked := <["pycosio.system_cached" :=
                    SystemObject (system_cached info)]> c in
  let st1 :=
    {| MOUNTED := MOUNTED st; systems := systems st;
       parameter_dicts := parameter_dicts st;
       dicts := <[d := marked]> (dicts st) |} in
  get_instance name cls storage None None args kwargs st
  = (ret (Stream {| call_storage := system info; call_class := cls;
                    call_name := name; call_args := args;
                    call_kwargs := kwargs;
                    call_unsecure := unsecure_item stored;
                    call_storage_parameters := Some d |}),
     st1)
  ∧ dicts st1 !! d = Some marked
  ∧ get_instance name system_class storage (Some d') (unsecure_item stored)
      [] ∅ st
    = (ret (System (system_cached info)), st)
  ∧ ∃ fresh,
      get_instance name system_class storage (Some d') (unsecure_item stored)
        [] ∅ st1
      = (ret (System (length (systems st))),
         {| MOUNTED := MOUNTED st; systems := systems st ++ [fresh];
            parameter_dicts := parameter_dicts st; dicts := dicts st1 |})
      ∧ sys_kwargs fresh
        = {| unsecure_item := unsecure_item stored;
             storage_parameters_item := Some d' |}.
Proof.
  intros Hcls Hlook Hstored Hd Hc Hfree Hne Hc' marked st1.
  assert (is_empty stored = false) as Hfull
    by (by eapply is_empty_storage_parameters).
  assert (dicts st1 !! d = Some marked) as Hmarked.
  { cbn [st1 dicts]. apply list_lookup_insert_eq. by eapply lookup_lt_Some. }
  assert (dicts st1 !! d' = Some c) as Hkept.
  { cbn [st1 dicts]. by rewrite list_lookup_insert_ne by done. }
  assert (marked ≠ c) as Hdiff.
  { intros Heq. apply Hfree. rewrite <- Heq. apply lookup_insert_eq. }
  split; [|split; [exact Hmarked|split]].
  - rewrite (get_instance_found _ _ _ _ _ _ _ _ _ _ _ Hlook Hstored).
    change (is_empty (_system_parameters None None)) with true.
    cbn beta iota. rewrite Hfull. unfold instantiate.
    assert (attach_cached_system (Stored (system_parameters info)) info st
            = (Stored (system_parameters info), st1)) as Hattach.
    { unfold attach_cached_system. cbn [read]. rewrite Hstored.
      cbn [from_option id]. rewrite Hd. cbn beta iota zeta.
      by rewrite (lookup_alter_marked _ _ _ _ Hc). }
    destruct cls; [done|..]; rewrite Hattach; cbn [read st1 parameter_dicts];
      rewrite Hstored; cbn [from_option id]; by rewrite Hd.
  - rewrite (get_instance_found _ _ _ _ _ _ _ _ _ _ _ Hlook Hstored).
    rewrite (is_empty_storage_parameters _ d') by reflexivity.
    rewrite (equal_storage_parameters _ _ _ _ _ Hd).
    rewrite bool_decide_true by (by rewrite Hc, Hc').
    reflexivity.
  - eexists.
    rewrite (get_instance_found _ _ _ _ _ _ _ st1 r info stored Hlook Hstored).
    rewrite (is_empty_storage_parameters _ d') by reflexivity.
    rewrite (equal_storage_parameters _ _ _ _ _ Hd).
    rewrite bool_decide_false by (rewrite Hmarked, Hkept; intros [_ [=]]; done).
    unfold instantiate. cbn [systems MOUNTED parameter_dicts dicts read st1].
    split; [reflexivity|]. cbn [sys_kwargs].
    unfold update_missing, _system_parameters.
    cbn [unsecure_item storage_parameters_item].
    by destruct (unsecure_item stored).
Qed.


(** X16. A call of [get_instance] for a stream class, without parameters,
    on a storage mounted with the [unsecure] flag alone, adds an item to the
    dictionary of parameters stored in the registry: 'storage_parameters', a
    new dictionary that holds the cached system. A call for the system class
    that gives the flag of the mount returned the cached system before the
    call for the stream, and builds a new system after it. *)
Theorem stream_call_adds_to_the_stored_parameters (name : string)
    (cls : class_name) (storage : option string) (args : list atom)
    (kwargs : gmap string atom) (st : state) (r : root) (info : storage_info)
    (b : bool) :
  cls ≠ system_class →
  lookup name (MOUNTED st) = Some (r, info) →
  parameter_dicts st !! system_parameters info
  = Some {| unsecure_item := Some b; storage_parameters_item := None |} →
  let d := length (dicts st) in
  let st1 :=
    {| MOUNTED := MOUNTED st; systems := systems st;
       parameter_dicts :=
         <[system_parameters info :=
             {| unsecure_item := Some b; storage_parameters_item := Some d |}]>
           (parameter_dicts st);
       dicts :=
         dicts st
         ++ [{["pycosio.system_cached" :=
                 SystemObject (system_cached info)]}] |} in
  get_instance name cls storage None None args kwargs st
  = (ret (Stream {| call_storage := system info; call_class := cls;
                    call_name := name; call_args := args;
                    call_kwargs := kwargs; call_unsecure := Some b;
                    call_storage_parameters := Some d |}),
     st1)
  ∧ get_instance name system_class storage None (Some b) [] ∅ st
    = (ret (System (system_cached info)), st)
  ∧ ∃ fresh,
      get_instance name system_class storage None (Some b) [] ∅ st1
      = (ret (System (length (systems st))),
         {| MOUNTED := MOUNTED st; systems := systems st ++ [fresh];
            parameter_dicts := parameter_dicts st1; dicts := dicts st1 |})
      ∧ sys_kwargs fresh
        = {| unsecure_item := Some b; storage_parameters_item := Some d |}.
Proof.
  intros Hcls Hlook Hstored d st1.
  set (stored := {| unsecure_item := Some b;
                    storage_parameters_item := None |}) in *.
  assert (system_parameters info < length (parameter_dicts st))%nat as Hp
    by (by eapply lookup_lt_Some).
  assert (parameter_dicts st1 !! system_parameters info
          = Some {| unsecure_item := Some b;
                    storage_parameters_item := Some d |}) as Hstored1.
  { cbn [st1 parameter_dicts]. by apply list_lookup_insert_eq. }
  split; [|split].
  - rewrite (get_instance_found _ _ _ _ _ _ _ _ _ _ _ Hlook Hstored).
    change (is_empty (_system_parameters None None)) with true.
    change (is_empty stored) with false.
    cbn beta iota. unfold instantiate.
    assert (attach_cached_system (Stored (system_parameters info)) info st
            = (Stored (system_parameters info), st1)) as Hattach.
    { unfold attach_cached_system. cbn [read]. rewrite Hstored.
      cbn [from_option id stored storage_parameters_item
             set_storage_parameters MOUNTED systems parameter_dicts dicts].
      unfold st1. f_equal. f_equal.
      - apply list_eq. intros i.
        destruct (decide (i = system_parameters info)) as [->|Hne].
        + rewrite list_lookup_alter_eq, Hstored.
          by rewrite list_lookup_insert_eq.
        + rewrite list_lookup_alter_ne by done.
          by rewrite list_lookup_insert_ne by done.
      - rewrite (alter_app_r_alt _ (dicts st) [∅] (length (dicts st)))
          by lia.
        by rewrite Nat.sub_diag. }
    destruct cls; [done|..]; rewrite Hattach; cbn [read];
      rewrite Hstored1; reflexivity.
  - rewrite (get_instance_found _ _ _ _ _ _ _ _ _ _ _ Hlook Hstored).
    rewrite (is_empty_unsecure _ b) by reflexivity.
    unfold equal. rewrite bool_decide_true by reflexivity. reflexivity.
  - eexists.
    rewrite (get_instance_found _ _ _ _ _ _ _ st1 r info _ Hlook Hstored1).
    rewrite (is_empty_unsecure _ b) by reflexivity.
    unfold equal, content, _system_parameters.
    cbn [unsecure_item storage_parameters_item fmap option_fmap option_map].
    rewrite bool_decide_false by (intros Heq; discriminate Heq).
    unfold instantiate. cbn [systems MOUNTED parameter_dicts dicts read st1].
    split; reflexivity.
Qed.


(** What the statements under [if same_parameters:] leave behind. *)
Lemma attach_cached_system_spec v info st :
  (∀ p, v = Stored p → is_Some (parameter_dicts st !! p)) →
  (∀ d, storage_parameters_item (read st v) = Some d →
        is_Some (dicts st !! d)) →
  ∃ v' st' d content,
    attach_cached_system v info st = (v', st')
    ∧ MOUNTED st' = MOUNTED st ∧ systems st' = systems st
    ∧ unsecure_item (read st' v') = unsecure_item (read st v)
    ∧ storage_parameters_item (read st' v') = Some d
    ∧ dicts st' !! d = Some content
    ∧ content !! "pycosio.system_cached"
      = Some (SystemObject (system_cached info)).
Proof.
  intros Hvalid Hdict. unfold attach_cached_system.
  destruct (storage_parameters_item (read st v)) as [d|] eqn:Hd.
  - destruct (Hdict d eq_refl) as [c Hc].
    eexists v, _, d, _. split; [reflexivity|].
    cbn [MOUNTED systems]. split; [reflexivity|]. split; [reflexivity|].
    split; [by destruct v|]. split; [by destruct v|].
    cbn [dicts]. rewrite list_lookup_alter_eq, Hc.
    split; [reflexivity|apply lookup_insert_eq].
  - destruct v as [p|value].
    + destruct (Hvalid p eq_refl) as [q Hq].
      cbn [set_storage_parameters MOUNTED systems parameter_dicts dicts].
      eexists (Stored p), _, (length (dicts st)), _.
      split; [reflexivity|]. cbn [MOUNTED systems read parameter_dicts dicts].
      split; [reflexivity|]. split; [reflexivity|].
      rewrite list_lookup_alter_eq, Hq.
      cbn [fmap option_fmap option_map from_option id unsecure_item
             storage_parameters_item].
      split; [reflexivity|]. split; [reflexivity|].
      rewrite list_lookup_alter_eq, lookup_app_r by lia.
      rewrite Nat.sub_diag. cbn [lookup list_lookup fmap option_fmap option_map].
      split; [reflexivity|apply lookup_insert_eq].
    + cbn [set_storage_parameters MOUNTED systems parameter_dicts dicts].
      eexists (Local _), _, (length (dicts st)), _.
      split; [reflexivity|]. cbn [MOUNTED systems read parameter_dicts dicts
        unsecure_item storage_parameters_item].
      split; [reflexivity|]. split; [reflexivity|].
      split; [reflexivity|]. split; [reflexivity|].
      rewrite list_lookup_alter_eq, lookup_app_r by lia.
      rewrite Nat.sub_diag. cbn [lookup list_lookup fmap option_fmap option_map].
      split; [reflexivity|apply lookup_insert_eq].
Qed.

(** A stream class called with the mounted parameters. *)
Lemma instantiate_same_parameters name cls args kwargs info v st :
  cls ≠ system_class →
  (∀ p, v = Stored p → is_Some (parameter_dicts st !! p)) →
  (∀ d, storage_parameters_item (read st v) = Some d →
        is_Some (dicts st !! d)) →
  ∃ call st',
    instantiate new_system_roots name cls args kwargs info true v st
    = (ret (Stream call), st')
    ∧ call_storage call = system info ∧ call_class call = cls
    ∧ call_name call = name ∧ call_args call = args
    ∧ call_kwargs call = kwargs
    ∧ MOUNTED st' = MOUNTED st ∧ systems st' = systems st
    ∧ call_unsecure call = unsecure_item (read st v)
    ∧ ∃ d content,
        call_storage_parameters call = Some d
        ∧ dicts st' !! d = Some content
        ∧ content !! "pycosio.system_cached"
          = Some (SystemObject (system_cached info)).
Proof.
  intros Hcls Hv Hd.
  destruct (attach_cached_system_spec v info st Hv Hd)
    as (v' & st' & d & content & Hattach & Hm & Hs & Hu & Hsp & Hc & Hmark).
  unfold instantiate. rewrite Hattach.
  destruct cls; [done|..]; eexists _, st';
    (split; [reflexivity|]);
    cbn [call_storage call_class call_name call_args call_kwargs
           call_unsecure call_storage_parameters];
    repeat (split; [done|]); by exists d, content.
Qed.

(** X17. When a root serves the name, a call of [get_instance] for a stream
    class returns the stream built by the class of the storage from the name
    and the arguments of the call, and leaves registry and systems as they
    are. When no parameter is given, or the parameters given are equal to the
    stored ones, the class receives the stored [unsecure] flag and a
    [storage_parameters] dictionary that holds the cached system of the
    storage under 'pycosio.system_cached'. When they differ, nothing is
    written, and the class receives the parameters given, completed by the
    stored ones. *)
Theorem stream_call_carries_the_cached_system (name : string)
    (cls : class_name) (storage : option string)
    (storage_parameters : option nat) (unsecure : option bool)
    (args : list atom) (kwargs : gmap string atom) (st : state) (r : root)
    (info : storage_info) (stored : parameters) :
  cls ≠ system_class →
  lookup name (MOUNTED st) = Some (r, info) →
  parameter_dicts st !! system_parameters info = Some stored →
  (∀ d, storage_parameters_item stored = Some d → is_Some (dicts st !! d)) →
  let given := _system_parameters unsecure storage_parameters in
  ∃ call st',
    get_instance name cls storage storage_parameters unsecure args kwargs st
    = (ret (Stream call), st')
    ∧ call_storage call = system info ∧ call_class call = cls
    ∧ call_name call = name ∧ call_args call = args
    ∧ call_kwargs call = kwargs
    ∧ MOUNTED st' = MOUNTED st ∧ systems st' = systems st
    ∧ (is_empty given = true ∨ equal st given stored = true →
       call_unsecure call = unsecure_item stored
       ∧ ∃ d content,
           call_storage_parameters call = Some d
           ∧ dicts st' !! d = Some content
           ∧ content !! "pycosio.system_cached"
             = Some (SystemObject (system_cached info)))
    ∧ (is_empty given = false → equal st given stored = false →
       st' = st
       ∧ call_unsecure call
         = match unsecure with
           | Some b => Some b
           | None => unsecure_item stored
           end
       ∧ call_storage_parameters call
         = match storage_parameters with
           | Some d => Some d
           | None => storage_parameters_item stored
           end).
Proof.
  intros Hcls Hlook Hstored Hvalid given.
  rewrite (get_instance_found _ _ _ _ _ _ _ _ _ _ _ Hlook Hstored).
  fold given.
  pose proof (λ v, instantiate_same_parameters name cls args kwargs info v
                     st Hcls) as Hsame.
  destruct (is_empty given) eqn:Hgiven.
  - (* no parameter is given *)
    destruct (is_empty stored) eqn:Hempty.
    + apply is_empty_true in Hempty as ->.
      destruct (Hsame (Local no_parameters))
        as (call & st' & -> & ? & ? & ? & ? & ? & ? & ? & Hu & Hsp);
        [intros p Hp; discriminate Hp|intros d Hd; discriminate Hd|].
      exists call, st'. split; [reflexivity|].
      do 7 (split; [assumption|]). split.
      * intros _. split; [exact Hu|exact Hsp].
      * intros Hfalse. discriminate Hfalse.
    + destruct (Hsame (Stored (system_parameters info)))
        as (call & st' & -> & ? & ? & ? & ? & ? & ? & ? & Hu & Hsp).
      { intros p [= <-]. by rewrite Hstored. }
      { cbn [read]. rewrite Hstored. exact Hvalid. }
      cbn [read] in Hu. rewrite Hstored in Hu.
      exists call, st'. split; [reflexivity|].
      do 7 (split; [assumption|]). split.
      * intros _. split; [exact Hu|exact Hsp].
      * intros Hfalse. discriminate Hfalse.
  - destruct (equal st given stored) eqn:Hequal.
    + (* the parameters given are the stored ones *)
      assert (content st given = content st stored) as Hcontent
        by (by apply bool_decide_eq_true in Hequal).
      destruct (Hsame (Local given))
        as (call & st' & -> & ? & ? & ? & ? & ? & ? & ? & Hu & Hsp).
      { intros p Hp. discriminate Hp. }
      { cbn [read]. intros d Hd. unfold content in Hcontent.
        rewrite Hd in Hcontent. injection Hcontent as _ Hsp.
        destruct (storage_parameters_item stored) as [d0|] eqn:Hd0;
          [|discriminate Hsp].
        injection Hsp as ->. by apply Hvalid. }
      exists call, st'. split; [reflexivity|].
      do 7 (split; [assumption|]). split.
      * intros _. split; [|exact Hsp]. cbn [read] in Hu. rewrite Hu.
        unfold content in Hcontent. by injection Hcontent.
      * intros _ Hfalse. discriminate Hfalse.
    + (* the parameters given differ from the stored ones *)
      unfold instantiate.
      destruct cls; [done|..]; eexists _, st;
        (split; [reflexivity|]);
        cbn [call_storage call_class call_name call_args call_kwargs
               call_unsecure call_storage_parameters read];
        do 7 (split; [reflexivity|]);
        (split; [intros [Hfalse|Hfalse]; discriminate Hfalse|]);
        intros _ _; (split; [reflexivity|]);
        unfold update_missing, given, _system_parameters;
        cbn [unsecure_item storage_parameters_item];
        split; reflexivity.
Qed.

End shared_parameters.

Section shared_parameters_examples.
Import storage_manager storage_manager_shared samples more_samples.

Lemma shared_mounted_lookup :
  lookup re_match_optional "mycloud://object" (MOUNTED shared_mounted)
  = Some (Str "mycloud://", shared_info).
Proof. vm_compute. reflexivity. Qed.

Lemma unsecure_mounted_lookup :
  lookup re_match_optional "mycloud://object" (MOUNTED unsecure_mounted)
  = Some (Str "mycloud://", shared_info).
Proof. vm_compute. reflexivity. Qed.

Lemma stream_call_writes_into_the_mounted_dictionary_witness :
  ∃ call st1,
    get_instance re_match_optional sample_has_module shared_roots
      "mycloud://object" raw_class None None None [AStr "rb"] ∅
      shared_mounted
    = (ret (Stream call), st1)
    ∧ dicts st1 !! 0%nat
      = Some (<["pycosio.system_cached" := SystemObject 0]> user_account)
    ∧ get_instance re_match_optional sample_has_module shared_roots
        "mycloud://object" system_class None (Some 1%nat) (Some true) [] ∅
        shared_mounted
      = (ret (System 0), shared_mounted)
    ∧ (get_instance re_match_optional sample_has_module shared_roots
         "mycloud://object" system_class None (Some 1%nat) (Some true) [] ∅
         st1).1
      = ret (System 1).
Proof.
  destruct (stream_call_writes_into_the_mounted_dictionary
              re_match_optional sample_has_module shared_roots
              "mycloud://object" raw_class None [AStr "rb"] ∅ shared_mounted
              (Str "mycloud://") shared_info
              {| unsecure_item := Some true;
                 storage_parameters_item := Some 0%nat |}
              0%nat 1%nat user_account)
    as (Hcall & Hmarked & Hbefore & fresh & Hafter & _).
  - discriminate.
  - exact shared_mounted_lookup.
  - reflexivity.
  - reflexivity.
  - reflexivity.
  - vm_compute. discriminate.
  - discriminate.
  - reflexivity.
  - eexists _, _. split; [exact Hcall|]. split; [exact Hmarked|].
    split; [exact Hbefore|]. exact (f_equal fst Hafter).
Defined.

Lemma stream_call_adds_to_the_stored_parameters_witness :
  ∃ call st1,
    get_instance re_match_optional sample_has_module shared_roots
      "mycloud://object" buffered_class None None None [] ∅ unsecure_mounted
    = (ret (Stream call), st1)
    ∧ parameter_dicts st1 !! 0%nat
      = Some {| unsecure_item := Some true;
                storage_parameters_item := Some 0%nat |}
    ∧ get_instance re_match_optional sample_has_module shared_roots
        "mycloud://object" system_class None None (Some true) [] ∅
        unsecure_mounted
      = (ret (System 0), unsecure_mounted)
    ∧ (get_instance re_match_optional sample_has_module shared_roots
         "mycloud://object" system_class None None (Some true) [] ∅ st1).1
      = ret (System 1).
Proof.
  destruct (stream_call_adds_to_the_stored_parameters
              re_match_optional sample_has_module shared_roots
              "mycloud://object" buffered_class None [] ∅ unsecure_mounted
              (Str "mycloud://") shared_info true)
    as (Hcall & Hbefore & fresh & Hafter & _).
  - discriminate.
  - exact unsecure_mounted_lookup.
  - reflexivity.
  - eexists _, _. split; [exact Hcall|]. split; [reflexivity|].
    split; [exact Hbefore|]. exact (f_equal fst Hafter).
Defined.

Lemma stream_call_carries_the_cached_system_witness :
  ∃ call st',
    get_instance re_match_optional sample_has_module shared_roots
      "mycloud://object" raw_class None (Some 1%nat) (Some true)
      [AStr "rb"] ∅ shared_mounted
    = (ret (Stream call), st')
    ∧ call_storage call = "mycloud"
    ∧ call_unsecure call = Some true
    ∧ ∃ d content,
        call_storage_parameters call = Some d
        ∧ dicts st' !! d = Some content
        ∧ content !! "pycosio.system_cached" = Some (SystemObject 0).
Proof.
  destruct (stream_call_carries_the_cached_system
              re_match_optional sample_has_module shared_roots
              "mycloud://object" raw_class None (Some 1%nat) (Some true)
              [AStr "rb"] ∅ shared_mounted (Str "mycloud://") shared_info
              {| unsecure_item := Some true;
                 storage_parameters_item := Some 0%nat |})
    as (call & st' & Hcall & Hstorage & _ & _ & _ & _ & _ & _ & Hsame & _).
  - discriminate.
  - exact shared_mounted_lookup.
  - reflexivity.
  - intros d [= <-]. eexists. reflexivity.
  - exists call, st'. split; [exact Hcall|]. split; [exact Hstorage|].
    apply Hsame. right. reflexivity.
Defined.

End shared_parameters_examples.

(** ** Azure blobs: the type of a blob *)

Section new_blob_properties.
Import storage_manager storage_manager_shared azure_new_blob.
Variable new_system_roots :
  string → option (list root) →
  option bool * option (option (gmap string entry)) → list root.
Variable head : nat → string → result (gmap string atom).
Variable _default_blob_type : nat → atom.

Abbreviation _new_blob :=
  (azure_new_blob._new_blob new_system_roots head _default_blob_type).
Abbreviation detect := (azure_new_blob.detect head _default_blob_type).

(** What the second half of [_new_blob] leaves behind. *)
Lemma detect_spec system copy kwargs st :
  let out := detect system copy kwargs st in
  MOUNTED out.2 = MOUNTED st
  ∧ parameter_dicts out.2 = parameter_dicts st
  ∧ systems out.2 = systems st
  ∧ (∀ d c, dicts st !! d = Some c → dicts out.2 !! d = Some c)
  ∧ (∀ e, out.1 = raise e → dicts out.2 = dicts st)
  ∧ ∀ blob_type kwargs',
      out.1 = ret (blob_type, kwargs') →
      unsecure kwargs' = unsecure kwargs
      ∧ others kwargs' = others kwargs
      ∧ storage_parameters kwargs' = Some (length (dicts st))
      ∧ ∃ copy',
          dicts out.2 = dicts st ++ [copy']
          ∧ (∀ key, key ≠ "pycosio.raw_io._head" →
                    copy' !! key = copy !! key)
          ∧ ((∃ h, head system "name" = ret h
                   ∧ copy' !! "pycosio.raw_io._head" = Some (Header h)
                   ∧ blob_type
                     = default (_default_blob_type system)
                         (h !! "blob_type"))
             ∨ (head system "name" = raise ObjectNotFoundError
                ∧ copy' = copy
                ∧ blob_type
                  = default (_default_blob_type system)
                      (others kwargs !! "blob_type"))).
Proof.
  unfold azure_new_blob.detect.
  destruct (head system "name") as [e|h].
  - assert (e = ObjectNotFoundError ∨ e ≠ ObjectNotFoundError) as [->|He]
      by (destruct e; auto; right; discriminate).
    + cbn [fst snd MOUNTED systems parameter_dicts dicts].
      do 3 (split; [reflexivity|]).
      split; [intros d c Hc; by apply lookup_app_l_Some|].
      split; [unfold raise, ret; intros e Heq; discriminate Heq|].
      unfold ret. intros blob_type kwargs' [= <- <-].
      cbn [unsecure others storage_parameters].
      do 3 (split; [reflexivity|]). exists copy.
      split; [reflexivity|]. split; [reflexivity|]. right. by split.
    + assert (match e with
              | ObjectNotFoundError => _
              | _ => (raise e, st)
              end = (raise e, st)) as -> by (by destruct e).
      cbn [fst snd]. do 3 (split; [reflexivity|]). split; [auto|].
      split; [reflexivity|].
      unfold raise, ret. intros blob_type kwargs' Heq. discriminate Heq.
  - cbn [fst snd MOUNTED systems parameter_dicts dicts].
    do 3 (split; [reflexivity|]).
    split; [intros d c Hc; by apply lookup_app_l_Some|].
    split; [unfold raise, ret; intros e Heq; discriminate Heq|].
    unfold ret. intros blob_type kwargs' [= <- <-].
    cbn [unsecure others storage_parameters].
    do 3 (split; [reflexivity|]). eexists. split; [reflexivity|].
    split; [intros key Hkey; by rewrite lookup_insert_ne|].
    left. exists h. split; [reflexivity|].
    split; [apply lookup_insert_eq|reflexivity].
Qed.


(** X18. [_new_blob] writes into no dictionary that exists: registry,
    stored parameters, dictionaries and systems are after the call what they
    were before it, but for one new dictionary when the call returns (none
    when it raises) and for one new system, built from [kwargs], when the
    dictionary given has no item 'pycosio.system_cached'; when that item is
    a system, none is built. When the call returns, the new dictionary is
    bound in [kwargs] in the place of the one given. It holds a system under
    'pycosio.system_cached', the one given or the one built. When that
    system has the header of the object called 'name', the header is stored
    under 'pycosio.raw_io._head' and the blob type is the one of the header,
    or the default of the system; when it has no such object, that item is
    as in the dictionary given and the blob type is the [blob_type]
    keyword, or the default. The other items are those of the dictionary
    given. *)
Theorem new_blob_writes_into_a_copy (kwargs : keywords) (st : state) :
  let out := _new_blob kwargs st in
  let given :=
    default ∅ (storage_parameters kwargs ≫= λ d, dicts st !! d) in
  let built :=
    {| sys_class := "azure_blob"; sys_roots_kwarg := None;
       sys_kwargs :=
         {| unsecure_item := unsecure kwargs;
            storage_parameters_item := storage_parameters kwargs |};
       sys_roots :=
         new_system_roots "azure_blob" None
           (unsecure kwargs,
            (λ d, dicts st !! d) <$> storage_parameters kwargs) |} in
  MOUNTED out.2 = MOUNTED st
  ∧ parameter_dicts out.2 = parameter_dicts st
  ∧ (∀ d c, dicts st !! d = Some c → dicts out.2 !! d = Some c)
  ∧ (∀ a o, systems st !! a = Some o → systems out.2 !! a = Some o)
  ∧ (∀ a, given !! "pycosio.system_cached" = Some (SystemObject a) →
          systems out.2 = systems st)
  ∧ (given !! "pycosio.system_cached" = None →
     systems out.2 = systems st ++ [built])
  ∧ (∀ e, out.1 = raise e → dicts out.2 = dicts st)
  ∧ ∀ blob_type kwargs',
      out.1 = ret (blob_type, kwargs') →
      unsecure kwargs' = unsecure kwargs
      ∧ others kwargs' = others kwargs
      ∧ storage_parameters kwargs' = Some (length (dicts st))
      ∧ ∃ copy system,
          dicts out.2 = dicts st ++ [copy]
          ∧ copy !! "pycosio.system_cached" = Some (SystemObject system)
          ∧ (given !! "pycosio.system_cached" = Some (SystemObject system)
             ∧ systems out.2 = systems st
             ∨ (∀ a, given !! "pycosio.system_cached"
                     ≠ Some (SystemObject a))
               ∧ system = length (systems st)
               ∧ systems out.2 = systems st ++ [built])
          ∧ ((∃ h, head system "name" = ret h
                   ∧ copy !! "pycosio.raw_io._head" = Some (Header h)
                   ∧ blob_type
                     = default (_default_blob_type system)
                         (h !! "blob_type"))
             ∨ (head system "name" = raise ObjectNotFoundError
                ∧ copy !! "pycosio.raw_io._head"
                  = given !! "pycosio.raw_io._head"
                ∧ blob_type
                  = default (_default_blob_type system)
                      (others kwargs !! "blob_type")))
          ∧ ∀ key, key ≠ "pycosio.system_cached" →
                   key ≠ "pycosio.raw_io._head" →
                   copy !! key = given !! key.
Proof.
  intros out given built. unfold out, azure_new_blob._new_blob.
  assert (match storage_parameters kwargs with
          | Some d => default ∅ (dicts st !! d)
          | None => ∅
          end = given) as ->.
  { unfold given. by destruct (storage_parameters kwargs). }
  generalize given. clear given out. intros given.
  destruct (stored_system given) as [e|[system|]] eqn:Hcached.
  - assert (∀ a, given !! "pycosio.system_cached" ≠ Some (SystemObject a))
      as Hnot.
    { intros a Ha. unfold stored_system in Hcached. rewrite Ha in Hcached.
      unfold raise, ret in Hcached. discriminate Hcached. }
    assert (given !! "pycosio.system_cached" ≠ None) as Hsome.
    { intros Ha. unfold stored_system in Hcached. rewrite Ha in Hcached.
      unfold raise, ret in Hcached. discriminate Hcached. }
    cbn [fst snd]. do 2 (split; [reflexivity|]). do 2 (split; [auto|]).
    split; [intros a Ha; by destruct (Hnot a)|].
    split; [intros Ha; by destruct Hsome|].
    split; [reflexivity|].
    unfold raise, ret. intros blob_type kwargs' Heq. discriminate Heq.
  - assert (given !! "pycosio.system_cached" = Some (SystemObject system))
      as Hgiven.
    { unfold stored_system, raise, ret in Hcached.
      destruct (given !! "pycosio.system_cached") as [[a|address|h]|];
        [destruct (truthy_atom a)| |destruct (decide (h = ∅))|];
        congruence. }
    destruct (detect_spec system given kwargs st)
      as (Hm & Hp & Hs & Hd & Hraise & Hret).
    split; [exact Hm|]. split; [exact Hp|]. split; [exact Hd|].
    split; [intros a o Ho; by rewrite Hs|].
    split; [intros a _; exact Hs|].
    split; [intros Ha; rewrite Ha in Hgiven; discriminate Hgiven|].
    split; [exact Hraise|].
    intros blob_type kwargs' Hout.
    destruct (Hret _ _ Hout)
      as (Hu & Ho & Hsp & copy & Hdicts & Hcopy & Hhead).
    do 3 (split; [assumption|]). exists copy, system.
    split; [exact Hdicts|]. split; [by rewrite Hcopy|].
    split; [left; by split|]. split.
    + destruct Hhead as [Hfound|(Hmissing & -> & Htype)];
        [by left|right; by split].
    + intros key _ Hkey. by apply Hcopy.
  - assert (∀ a, given !! "pycosio.system_cached" ≠ Some (SystemObject a))
      as Hnot.
    { intros a Ha. unfold stored_system in Hcached. rewrite Ha in Hcached.
      unfold raise, ret in Hcached. discriminate Hcached. }
    unfold new_system.
    match goal with
    | |- context [azure_new_blob.detect _ _ ?s ?c ?k ?w] =>
        destruct (detect_spec s c k w)
          as (Hm & Hp & Hs & Hd & Hraise & Hret)
    end.
    cbn [MOUNTED systems parameter_dicts dicts] in Hm, Hp, Hs, Hd, Hraise,
      Hret.
    split; [exact Hm|]. split; [exact Hp|]. split; [exact Hd|].
    split; [intros a o Ho; rewrite Hs; by apply lookup_app_l_Some|].
    split; [intros a Ha; by destruct (Hnot a)|].
    split; [intros _; exact Hs|].
    split; [exact Hraise|].
    intros blob_type kwargs' Hout.
    destruct (Hret _ _ Hout)
      as (Hu & Ho & Hsp & copy & Hdicts & Hcopy & Hhead).
    do 3 (split; [assumption|]). exists copy, (length (systems st)).
    split; [exact Hdicts|]. split.
    { rewrite Hcopy by done. apply lookup_insert_eq. }
    split; [right; split; [exact Hnot|split; [reflexivity|exact Hs]]|].
    split.
    + destruct Hhead as [Hfound|(Hmissing & -> & Htype)]; [by left|].
      right. split; [exact Hmissing|]. split; [|exact Htype].
      by rewrite lookup_insert_ne.
    + intros key Hkey Hkey'. rewrite Hcopy by done.
      by rewrite lookup_insert_ne.
Qed.


Section stream_of_a_mounted_storage.
Variable re_match : string → string → bool.
Variable has_module : string → bool.

Abbreviation get_instance :=
  (storage_manager_shared.get_instance re_match has_module new_system_roots).
Abbreviation lookup := (storage_manager_shared.lookup re_match).

(** With a cached system in the dictionary, no system is built. *)
Lemma new_blob_cached kwargs st d c system :
  storage_parameters kwargs = Some d →
  dicts st !! d = Some c →
  c !! "pycosio.system_cached" = Some (SystemObject system) →
  _new_blob kwargs st = detect system c kwargs st.
Proof.
  intros Hd Hc Hsystem. unfold azure_new_blob._new_blob.
  rewrite Hd, Hc. cbn [from_option id]. unfold stored_system.
  rewrite Hsystem. reflexivity.
Qed.

(** X19. A stream class called by [get_instance] without parameters, for a
    name that a root serves, gets a dictionary with which [_new_blob] builds
    no system: it asks the cached system of the storage for the header of
    the object called 'name'. The blob type is the one of the header, or the
    default of the system when the header has none, whatever the [blob_type]
    keyword; when there is no such object it is the [blob_type] keyword, or
    the default; another error of the request is raised. *)
Theorem mounted_stream_reuses_the_cached_system (name : string)
    (cls : class_name) (storage : option string) (args : list atom)
    (kwargs : gmap string atom) (st : state) (r : root)
    (info : storage_info) (stored : parameters) :
  cls ≠ system_class →
  lookup name (MOUNTED st) = Some (r, info) →
  parameter_dicts st !! system_parameters info = Some stored →
  (∀ d, storage_parameters_item stored = Some d → is_Some (dicts st !! d)) →
  ∃ call st1,
    get_instance name cls storage None None args kwargs st
    = (ret (Stream call), st1)
    ∧ ∀ others,
        let out :=
          _new_blob {| storage_parameters := call_storage_parameters call;
                       unsecure := call_unsecure call; others := others |}
            st1 in
        let system := system_cached info in
        systems out.2 = systems st
        ∧ (∀ h, head system "name" = ret h →
                ∃ kwargs',
                  out.1 = ret (default (_default_blob_type system)
                                 (h !! "blob_type"), kwargs'))
        ∧ (head system "name" = raise ObjectNotFoundError →
           ∃ kwargs',
             out.1 = ret (default (_default_blob_type system)
                            (others !! "blob_type"), kwargs'))
        ∧ (∀ e, head system "name" = raise e → e ≠ ObjectNotFoundError →
                out = (raise e, st1)).
Proof.
  intros Hcls Hlook Hstored Hvalid.
  rewrite (get_instance_found _ _ _ _ _ _ _ _ _ _ _ _ _ _ Hlook Hstored).
  change (is_empty (_system_parameters None None)) with true.
  cbn beta iota.
  destruct (instantiate_same_parameters new_system_roots name cls args kwargs
              info
              (if is_empty stored then Local no_parameters
               else Stored (system_parameters info)) st Hcls)
    as (call & st1 & Hcall & _ & _ & _ & _ & _ & _ & Hsystems & _
        & d & c & Hd & Hc & Hmark).
  { intros p Hp. destruct (is_empty stored); [discriminate Hp|].
    injection Hp as <-. by rewrite Hstored. }
  { destruct (is_empty stored); cbn [read].
    - intros d Hd. discriminate Hd.
    - rewrite Hstored. exact Hvalid. }
  exists call, st1. split; [exact Hcall|]. intros others out system.
  unfold out.
  rewrite (new_blob_cached _ st1 d c system) by assumption.
  unfold azure_new_blob.detect. cbn [azure_new_blob.others].
  split; [|split; [|split]].
  - rewrite <- Hsystems.
    destruct (head system "name") as [[]|h]; reflexivity.
  - intros h ->. eexists. reflexivity.
  - intros ->. eexists. reflexivity.
  - intros e -> He. destruct e; try reflexivity. by destruct He.
Qed.

End stream_of_a_mounted_storage.

End new_blob_properties.

Section new_blob_examples.
Import storage_manager storage_manager_shared azure_new_blob samples
  more_samples.

Lemma mounted_stream_reuses_the_cached_system_witness :
  ∃ call st1 kwargs',
    get_instance re_match_optional sample_has_module shared_roots
      "mycloud://object" raw_class None None None [] ∅ shared_mounted
    = (ret (Stream call), st1)
    ∧ (_new_blob shared_roots sample_head sample_default_blob_type
         {| storage_parameters := call_storage_parameters call;
            unsecure := call_unsecure call;
            others := {["blob_type" := AStr "AppendBlob"]} |} st1).1
      = ret (AStr "PageBlob", kwargs').
Proof.
  destruct (mounted_stream_reuses_the_cached_system shared_roots sample_head
              sample_default_blob_type re_match_optional sample_has_module
              "mycloud://object" raw_class None [] ∅ shared_mounted
              (Str "mycloud://") shared_info
              {| unsecure_item := Some true;
                 storage_parameters_item := Some 0%nat |})
    as (call & st1 & Hcall & Hnew).
  - discriminate.
  - exact shared_mounted_lookup.
  - reflexivity.
  - intros d [= <-]. eexists. reflexivity.
  - destruct (Hnew {["blob_type" := AStr "AppendBlob"]})
      as (_ & Hfound & _).
    destruct (Hfound {["blob_type" := AStr "PageBlob"]} eq_refl)
      as [kwargs' Hout].
    exists call, st1, kwargs'. split; [exact Hcall|exact Hout].
Defined.

End new_blob_examples.
